(** * slp.mm.load: alignment, cleaning and splitting of MOSI/MOSEI segments

    A shallow embedding of [src/slp/mm/load.py] (vocabulary construction,
    [clean_split_dataset], [load_splits], [mosi], [mosei]) and, of
    [src/slp/util/sys.py], of the pickle helpers and of the file name that
    [download_url] writes to, with the properties the specification states
    about them and further properties of the code.

    Conventions.
    - A Python [bytes] value and a Python [str] value are both carried by a
      Rocq [string]: a [str] is held as its UTF-8 encoding.  Equality of
      [str] values is equality of the encodings, and the order of [str]
      (code point by code point) is the bytewise order of the encodings.
    - Python exceptions are values of [exn]; a computation that may raise
      has type [result A].
    - numpy is not among the sources: what it does to single numbers is
      in [Env], and what it does by the dtype of an array is in [Numpy].
    - A dict is a [gmap]; a dict whose iteration order matters (the keys of
      a computational sequence) is an association list in that order. *)

From Stdlib Require Import ZArith Ascii String List.
From stdpp Require Import gmap strings list fin_maps sorting.

Open Scope Z_scope.

(** ** Exceptions and results *)

Inductive exn : Type :=
  | AttributeError
  | IndexError
  | KeyError
  | TypeError
  | ValueError
  | UnicodeDecodeError
  | UnicodeEncodeError
  | UnboundLocalError
  | FileNotFoundError
  | OSError
  | UnpicklingError.

#[global] Instance exn_eq_dec : EqDecision exn.
Proof. solve_decision. Defined.

Inductive result (A : Type) : Type :=
  | Ok (a : A)
  | Raise (e : exn).
Arguments Ok {A} a.
Arguments Raise {A} e.

Definition bind {A B : Type} (r : result A) (f : A -> result B) : result B :=
  match r with
  | Ok a => f a
  | Raise e => Raise e
  end.

Notation "'let!' x := e 'in' k" := (bind e (fun x => k))
  (at level 10, x name, e at level 100, k at level 200).

(** [for x in xs: s = step(s, x)], stopping at the first exception. *)
Fixpoint foldM {S X : Type} (step : S -> X -> result S) (s : S) (xs : list X)
  : result S :=
  match xs with
  | [] => Ok s
  | x :: xs' => let! s' := step s x in foldM step s' xs'
  end.

(** [[f(x) for x in xs]], stopping at the first exception. *)
Fixpoint mapM_result {X Y : Type} (f : X -> result Y) (xs : list X)
  : result (list Y) :=
  match xs with
  | [] => Ok []
  | x :: xs' => let! y := f x in let! ys := mapM_result f xs' in Ok (y :: ys)
  end.

(** [d[k]] on a dict. *)
Definition getitem `{Countable K} {V : Type} (d : gmap K V) (k : K) : result V :=
  match d !! k with
  | Some v => Ok v
  | None => Raise KeyError
  end.

(** [d[k]] on a dict kept as an association list. *)
Fixpoint assoc {V : Type} (d : list (string * V)) (k : string) : result V :=
  match d with
  | [] => Raise KeyError
  | (k', v) :: d' => if decide (k' = k) then Ok v else assoc d' k
  end.

(** [l[i]] on a sequence, for a non-negative index. *)
Definition index {X : Type} (l : list X) (i : nat) : result X :=
  match l !! i with
  | Some x => Ok x
  | None => Raise IndexError
  end.

(** ** [bytes.decode('utf-8')]

    The strict decoder accepts exactly the well-formed byte sequences of
    the Unicode standard: no overlong forms, no surrogates, nothing above
    U+10FFFF.  [pending] counts the continuation bytes still expected and
    [lo], [hi] bound the next one. *)

Fixpoint utf8_well_formed (pending : nat) (lo hi : N) (s : string) : bool :=
  match s with
  | EmptyString => match pending with O => true | _ => false end
  | String c s' =>
      let b := N_of_ascii c in
      match pending with
      | O =>
          if (b <=? 127)%N then utf8_well_formed 0 128 191 s'
          else if (b <? 194)%N then false
          else if (b <=? 223)%N then utf8_well_formed 1 128 191 s'
          else if (b =? 224)%N then utf8_well_formed 2 160 191 s'
          else if (b =? 237)%N then utf8_well_formed 2 128 159 s'
          else if (b <=? 239)%N then utf8_well_formed 2 128 191 s'
          else if (b =? 240)%N then utf8_well_formed 3 144 191 s'
          else if (b <=? 243)%N then utf8_well_formed 3 128 191 s'
          else if (b =? 244)%N then utf8_well_formed 3 128 143 s'
          else false
      | S p =>
          if ((lo <=? b) && (b <=? hi))%N then utf8_well_formed p 128 191 s'
          else false
      end
  end.

Definition decode_utf8 (b : string) : result string :=
  if utf8_well_formed 0 128 191 b then Ok b else Raise UnicodeDecodeError.

(** ** [re.search(pattern, segment)]

    The pattern is a group of any characters, an opening square bracket,
    any characters and a closing square bracket.  The dot matches every
    character but a newline and both stars are greedy.
    [has_close s] is a match of the part after the opening bracket at the
    start of [s];
    [match_here s] is a match of the whole pattern at the start of [s] and
    yields group 1: the star first takes one more character and gives it
    back only when the rest fails; [re_search] tries the start positions
    from left to right. *)

Definition newline : ascii := "010"%char.

Fixpoint has_close (s : string) : bool :=
  match s with
  | EmptyString => false
  | String c s' =>
      if Ascii.eqb c "]" then true
      else if Ascii.eqb c newline then false
      else has_close s'
  end.

Fixpoint match_here (s : string) : option string :=
  match s with
  | EmptyString => None
  | String c s' =>
      match (if Ascii.eqb c newline then None else match_here s') with
      | Some g => Some (String c g)
      | None => if Ascii.eqb c "[" && has_close s' then Some EmptyString else None
      end
  end.

Fixpoint re_search (s : string) : option string :=
  match match_here s with
  | Some g => Some g
  | None =>
      match s with
      | EmptyString => None
      | String _ s' => re_search s'
      end
  end.

(** [re.search(pattern, segment).group(1)]: [None] has no [group]. *)
Definition video_id_of (segment : string) : result string :=
  match re_search segment with
  | Some g => Ok g
  | None => Raise AttributeError
  end.

(** ** What the module imports

    [slp.config.nlp] and [slp.config.mm] are not part of the sources at
    hand, and neither is numpy.  Their constants and scalar operations are
    the fields of [Env]: the values of the members of [SPECIAL_TOKENS] in
    declared order, two of them by name, and for each dataset the
    modality map ([MOSI_MODALITIES], [MOSEI_MODALITIES]) together with the
    standard folds of the mmsdk dataset object. *)

Record descriptor : Type := {
  modality_map : gmap string string;
  standard_train_fold : list string;
  standard_valid_fold : list string;
  standard_test_fold : list string
}.

Class Env : Type := {
  (** a numpy float, [0.0], [np.nan_to_num] and [np.sign(x) == 0] on one *)
  scalar : Type;
  zero : scalar;
  nan_to_num_scalar : scalar -> scalar;
  sign_is_zero : scalar -> bool;
  SPECIAL_TOKENS : list string;
  PAD : string;
  PAUSE : string;
  MOSI : descriptor;
  MOSEI : descriptor
}.

Section Load.
Context `{env : Env}.

(** ** Arrays and sequences

    A feature array is two-dimensional and is kept by rows.  Its cells are
    the raw [bytes] of a word, a float, or a [str] stored into an array of
    words.  The value bound to a modality while a segment is cleaned is
    either such an array, which has no [append], or a Python list of words
    and rows. *)

Inductive cell : Type :=
  | CBytes (b : string)
  | CStr (s : string)
  | CNum (x : scalar).

Abbreviation row := (list cell).
Abbreviation ndarray := (list (list cell)).

Inductive elem : Type :=
  | Word (s : string)
  | Row (r : row).

Inductive seqval : Type :=
  | Arr (a : ndarray)
  | Lst (l : list elem).

(** The items met when iterating over a sequence, and [len]. *)
Definition items (v : seqval) : list elem :=
  match v with
  | Arr a => Row <$> a
  | Lst l => l
  end.

Definition len (v : seqval) : nat := length (items v).

(** [t.append(e)]. *)
Definition append (t : seqval) (e : elem) : result seqval :=
  match t with
  | Lst l => Ok (Lst (l ++ [e]))
  | Arr _ => Raise AttributeError
  end.

(** [np.nan_to_num(a)]: arrays that do not hold floats come back as they are. *)
Definition nan_to_num_cell (c : cell) : cell :=
  match c with
  | CNum x => CNum (nan_to_num_scalar x)
  | _ => c
  end.

Definition nan_to_num (a : ndarray) : ndarray := map (map nan_to_num_cell) a.

(** [np.zeros(r.shape)] for a row [r]. *)
Definition zeros_like (r : row) : row := replicate (length r) (CNum zero).

(** [np.asarray(v)] for the sequence of a modality other than text: the
    rows of a list of rows.  A list holding a word is not a table of rows;
    this case is not met, as only the text sequence ever receives words. *)
Definition row_of (e : elem) : result row :=
  match e with
  | Row r => Ok r
  | Word _ => Raise ValueError
  end.

Definition asarray (v : seqval) : result seqval :=
  match v with
  | Arr a => Ok (Arr a)
  | Lst l => let! a := mapM_result row_of l in Ok (Arr a)
  end.

(** ** What numpy makes of a dtype

    An array carries a dtype, and the rows of the model do not.  The two
    operations of the module that depend on it are the fields of [Numpy]:
    - [np_store_str a s] is the cell that [a] holds after a [str] [s] was
      assigned into it: in an array of fixed-width bytes the encoding of
      [s] cut to the item size of [a], in an array of objects [s] itself;
      an encoding error is raised;
    - [np_add t a] is [t + a] for a list [t] and an array [a]: with an
      array on the right, [+] and [+=] on a list are numpy's addition of
      [t], made an array, and [a], element by element and with
      broadcasting, not the concatenation of lists. *)
Class Numpy : Type := {
  np_store_str : ndarray -> string -> result cell;
  np_add : list elem -> ndarray -> result ndarray
}.

Context {np : Numpy}.

(** [a[i] = s] on an array of words, for a non-negative index: every cell
    of row [i] now holds what numpy stores for [s]. *)
Definition setitem_str (a : ndarray) (i : nat) (s : string) : result ndarray :=
  if decide (i < length a)%nat then
    let! c := np_store_str a s in
    Ok (alter (map (fun _ => c)) i a)
  else Raise IndexError.

(** [t += v] for a list [t]: a list on the right is appended to [t]; with
    an array on the right, [t] becomes the sum that numpy computes. *)
Definition iadd (t : list elem) (v : seqval) : result seqval :=
  match v with
  | Lst l => Ok (Lst (t ++ l))
  | Arr a => let! s := np_add t a in Ok (Arr s)
  end.

(** The truth value of [np.sign(label) == 0]: that of its only element;
    an empty array is false and a larger one has no truth value. *)
Definition cell_sign_is_zero (c : cell) : result bool :=
  match c with
  | CNum x => Ok (sign_is_zero x)
  | _ => Raise TypeError
  end.

Definition is_neutral (label : ndarray) : result bool :=
  let! bs := mapM_result cell_sign_is_zero (concat label) in
  match bs with
  | [] => Ok false
  | [b] => Ok b
  | _ => Raise ValueError
  end.

(** A computational sequence: segment id to features, in key order; and
    the mmsdk dataset: store id to computational sequence. *)
Abbreviation compseq := (list (string * list (list cell))).
Abbreviation mmdataset := (gmap string (list (string * list (list cell)))).

(** ** [select_dataset] *)

Definition select_dataset (dataset_name : string) : result descriptor :=
  if decide (dataset_name = "mosi") then Ok MOSI
  else if decide (dataset_name = "mosei") then Ok MOSEI
  else Raise ValueError.

(** ** The vocabulary of [load_dataset] *)

Definition decode_cell (w : cell) : result string :=
  match w with
  | CBytes b => decode_utf8 b
  | _ => Raise AttributeError
  end.

(** The words of one segment: the cells of the first row of its features. *)
Definition segment_words (entry : string * ndarray) : result (list string) :=
  let! words := index entry.2 0 in
  mapM_result decode_cell words.

Definition collect_words (text : compseq) : result (list string) :=
  let! wss := mapM_result segment_words text in
  Ok (concat wss).

(** [sorted(list(set(all_words)))]. *)
Definition sorted (ws : list string) : list string := merge_sort String.le ws.

Definition distinct_sorted (all_words : list string) : list string :=
  sorted (elements (list_to_set all_words : gset string)).

Definition add_word (st : gmap string nat * nat) (w : string)
  : gmap string nat * nat :=
  match st.1 !! w with
  | None => (<[w := st.2]> st.1, S st.2)
  | Some _ => st
  end.

Definition add_special (st : gmap string nat * nat) (t : string)
  : gmap string nat * nat :=
  (<[t := st.2]> st.1, S st.2).

Definition build_word2idx (all_words : list string) : gmap string nat * nat :=
  foldl add_special
    (foldl add_word (∅, O) (distinct_sorted all_words))
    SPECIAL_TOKENS.

Definition word2idx_of (all_words : list string) : gmap string nat :=
  (build_word2idx all_words).1.

(** ** [clean_split_dataset] *)

(** The keyword arguments.  [modalities] lists the names in the order in
    which the set is iterated. *)
Record options : Type := {
  dataset : string;
  modalities : list string;
  remove_pauses : bool;
  remove_neutral : bool;
  max_length : Z;
  pad_front : bool;
  pad_back : bool
}.

(** A segment record is the dict [mods] itself, which in the end holds the
    sequences of the modalities and the three keys written last. *)
Inductive value : Type :=
  | VSeq (v : seqval)
  | VStr (s : string)
  | VLabel (label : ndarray).

Abbreviation record := (gmap string value).

Inductive log_entry : Type :=
  | ShapeMismatch (vid : string) (mod_shapes : gmap string nat)
  | NoSplit (vid : string)
  | DroppedCount (n : nat).

(** [{k: data[modality_map[k]][segment]['features'] for k in modalities}] *)
Definition features_of (d : descriptor) (data : mmdataset) (segment k : string)
  : result ndarray :=
  let! store := getitem (modality_map d) k in
  let! cs := getitem data store in
  assoc cs segment.

Definition gather (d : descriptor) (data : mmdataset) (ms : list string)
    (segment : string) : result (gmap string ndarray) :=
  foldM (fun mods k => let! f := features_of d data segment k in Ok (<[k := f]> mods))
        ∅ ms.

(** [len(set(list(mod_shapes.values()))) <= 1] *)
Definition shapes_agree (mod_shapes : gmap string nat) : bool :=
  bool_decide
    (size (list_to_set (map_to_list mod_shapes).*2 : gset nat) ≤ 1)%nat.

(** [for m in modalities: if m != 'text': mods[m] = f(mods[m])] *)
Definition update_non_text {V : Type} (f : V -> result V) (ms : list string)
    (mods : gmap string V) : result (gmap string V) :=
  foldM (fun mods m =>
           if decide (m = "text") then Ok mods
           else let! v := getitem mods m in let! v' := f v in Ok (<[m := v']> mods))
        mods ms.

(** *** Speech pauses *)

(** [w[0].decode('utf-8')] *)
Definition word_of (w : row) : result string :=
  let! c := index w 0 in
  decode_cell c.

(** [sp_idx]: the positions [i], from [i0] on, of the words equal to "sp". *)
Fixpoint pause_positions (i0 : nat) (text : ndarray) : result (list nat) :=
  match text with
  | [] => Ok []
  | w :: text' =>
      let! word := word_of w in
      let! idx := pause_positions (S i0) text' in
      Ok (if decide (word = "sp") then i0 :: idx else idx)
  end.

(** The inner loop of the [remove_pauses] branch for modality [m]: rows
    [i0], [i0 + 1], ... of [mods[m]] are appended to [out], the list
    [mods_nosp[m]], unless their position is in [sp_idx]. *)
Fixpoint keep_rows (m : string) (sp_idx : list nat) (i0 : nat) (a : ndarray)
    (out : list elem) : result (list elem) :=
  match a with
  | [] => Ok out
  | r :: a' =>
      if decide (i0 ∈ sp_idx) then keep_rows m sp_idx (S i0) a' out
      else
        let! e := (if decide (m = "text")
                   then let! word := word_of r in Ok (Word word)
                   else Ok (Row r)) in
        keep_rows m sp_idx (S i0) a' (out ++ [e])
  end.

Definition drop_pauses (ms : list string) (sp_idx : list nat)
    (mods : gmap string ndarray) : result (gmap string (list elem)) :=
  foldM (fun mods_nosp m =>
           let! a := getitem mods m in
           let! out := getitem mods_nosp m in
           let! out' := keep_rows m sp_idx 0 a out in
           Ok (<[m := out']> mods_nosp))
        (list_to_map ((fun k => (k, [])) <$> ms)) ms.

(** One turn of the loop of the other branch over the positions of
    [mods['text']], which is the array taken from the dataset: a pause
    position is overwritten in place; at any other position the word is
    decoded and [append] is called on the array. *)
Definition mark_pause (sp_idx : list nat) (text : ndarray) (i : nat)
  : result ndarray :=
  if decide (i ∈ sp_idx) then setitem_str text i PAUSE
  else
    let! w := index text i in
    let! word := word_of w in
    let! _ := append (Arr text) (Word word) in
    Ok text.

Definition mark_pauses (sp_idx : list nat) (mods : gmap string ndarray)
  : result (gmap string ndarray) :=
  let! text := getitem mods "text" in
  let! text' := foldM (mark_pause sp_idx) text (seq 0 (length text)) in
  Ok (<["text" := text']> mods).

Definition handle_pauses (o : options) (mods : gmap string ndarray)
  : result (gmap string seqval) :=
  if decide ("text" ∈ modalities o) then
    let! text := getitem mods "text" in
    let! sp_idx := pause_positions 0 text in
    if remove_pauses o then
      let! mods_nosp := drop_pauses (modalities o) sp_idx mods in
      Ok (Lst <$> mods_nosp)
    else
      let! mods' := mark_pauses sp_idx mods in
      Ok (Arr <$> mods')
  else Ok (Arr <$> mods).

(** *** Length normalisation *)

(** The row appended by one turn of a padding loop: the PAD token for the
    text, [np.zeros(mods[m][0].shape)] otherwise. *)
Definition pad_item (m : string) (v : seqval) : result elem :=
  if decide (m = "text") then Ok (Word PAD)
  else
    let! e := index (items v) 0 in
    match e with
    | Row r => Ok (Row (zeros_like r))
    | Word _ => Raise AttributeError
    end.

(** [pad_front]: [k] turns appending to the fresh list [t]. *)
Fixpoint pad_front_loop (k : nat) (m : string) (v : seqval) (t : list elem)
  : result (list elem) :=
  match k with
  | O => Ok t
  | S k' => let! p := pad_item m v in pad_front_loop k' m v (t ++ [p])
  end.

(** [pad_back]: [t] is [mods[m]] itself, so the loop reads its first row
    from, and appends to, the same object. *)
Fixpoint pad_back_loop (k : nat) (m : string) (t : seqval) : result seqval :=
  match k with
  | O => Ok t
  | S k' => let! p := pad_item m t in let! t' := append t p in pad_back_loop k' m t'
  end.

Definition normalize_one (o : options) (m : string) (v : seqval)
  : result seqval :=
  let seglen := Z.of_nat (len v) in
  if max_length o <? seglen then
    Ok (Lst (drop (Z.to_nat (seglen - max_length o)) (items v)))
  else if (seglen <? max_length o) && pad_front o then
    let! t := pad_front_loop (Z.to_nat (max_length o - seglen)) m v [] in
    iadd t v
  else if (seglen <? max_length o) && pad_back o then
    pad_back_loop (Z.to_nat (max_length o - seglen)) m v
  else Ok v.

Definition normalize_lengths (o : options) (mods : gmap string seqval)
  : result (gmap string seqval) :=
  if 0 <? max_length o then
    foldM (fun mods m =>
             let! v := getitem mods m in let! v' := normalize_one o m v in Ok (<[m := v']> mods))
          mods (modalities o)
  else Ok mods.

(** The sequences as they are emitted: normalised, then made arrays. *)
Definition emitted_sequences (o : options) (mods : gmap string seqval)
  : result (gmap string seqval) :=
  let! mods' := normalize_lengths o mods in
  update_non_text asarray (modalities o) mods'.

(** *** One segment *)

Definition make_record (mods : gmap string seqval) (vid segment : string)
    (label : ndarray) : record :=
  <["label" := VLabel label]>
    (<["segment_id" := VStr segment]>
       (<["video_id" := VStr vid]> (VSeq <$> mods))).

(** What lines 100 to 148 make of a segment: it is filtered out as
    neutral, or dropped at the shape check, or kept, with the sequences
    that enter length normalisation. *)
Inductive cleaned : Type :=
  | Neutral
  | Mismatch (vid : string) (mod_shapes : gmap string nat)
  | Kept (vid : string) (label : ndarray) (mods : gmap string seqval).

Definition clean_segment (o : options) (d : descriptor) (data : mmdataset)
    (entry : string * ndarray) : result cleaned :=
  let segment := entry.1 in
  let! vid := video_id_of segment in
  let label := nan_to_num entry.2 in
  let! neutral := (if remove_neutral o then is_neutral label else Ok false) in
  if neutral : bool then Ok Neutral
  else
    let! mods := gather d data (modalities o) segment in
    let mod_shapes := (length : ndarray -> nat) <$> mods in
    if negb (shapes_agree mod_shapes) then Ok (Mismatch vid mod_shapes)
    else
      let! mods := update_non_text (fun a => Ok (nan_to_num a)) (modalities o) mods in
      let! mods := handle_pauses o mods in
      Ok (Kept vid label mods).

(** What one turn of the loop does with a segment: the neutral filter
    leaves everything as it is, the shape check logs and counts, and a
    kept segment is normalised, made a record and put into a split. *)
Inductive outcome : Type :=
  | Skipped
  | Dropped (vid : string) (mod_shapes : gmap string nat)
  | Emitted (vid : string) (r : record).

Definition process_segment (o : options) (d : descriptor) (data : mmdataset)
    (entry : string * ndarray) : result outcome :=
  let! c := clean_segment o d data entry in
  match c with
  | Neutral => Ok Skipped
  | Mismatch vid mod_shapes => Ok (Dropped vid mod_shapes)
  | Kept vid label mods =>
      let! mods' := emitted_sequences o mods in
      Ok (Emitted vid (make_record mods' vid entry.1 label))
  end.

(** *** The loop *)

Record loop_state : Type := {
  train : list record;
  dev : list record;
  test : list record;
  num_drop : option nat;
  log : list log_entry
}.

Definition initial_state : loop_state :=
  {| train := []; dev := []; test := []; num_drop := None; log := [] |}.

(** [num_drop] is bound, to 0, only once the neutral filter is passed. *)
Definition apply_outcome (d : descriptor) (st : loop_state) (oc : outcome)
  : loop_state :=
  match oc with
  | Skipped => st
  | Dropped vid mod_shapes =>
      {| train := train st; dev := dev st; test := test st;
         num_drop := Some (0 + 1)%nat;
         log := log st ++ [ShapeMismatch vid mod_shapes] |}
  | Emitted vid r =>
      if decide (vid ∈ standard_train_fold d) then
        {| train := train st ++ [r]; dev := dev st; test := test st;
           num_drop := Some O; log := log st |}
      else if decide (vid ∈ standard_valid_fold d) then
        {| train := train st; dev := dev st ++ [r]; test := test st;
           num_drop := Some O; log := log st |}
      else if decide (vid ∈ standard_test_fold d) then
        {| train := train st; dev := dev st; test := test st ++ [r];
           num_drop := Some O; log := log st |}
      else
        {| train := train st; dev := dev st; test := test st;
           num_drop := Some O; log := log st ++ [NoSplit vid] |}
  end.

Definition loop_body (o : options) (d : descriptor) (data : mmdataset)
    (st : loop_state) (entry : string * ndarray) : result loop_state :=
  let! oc := process_segment o d data entry in
  Ok (apply_outcome d st oc).

(** The label sequence whose keys the loop runs over. *)
Definition label_sequence (d : descriptor) (data : mmdataset) : result compseq :=
  let! store := getitem (modality_map d) "labels" in
  getitem data store.

(** The three splits, and what was logged.  After the loop [num_drop] is
    read, which no turn may have bound. *)
Definition clean_split_dataset (o : options) (data : mmdataset)
  : result (list record * list record * list record * list log_entry) :=
  let! d := select_dataset (dataset o) in
  let! labels := label_sequence d data in
  let! st := foldM (loop_body o d data) initial_state labels in
  let! n := match num_drop st with
      | Some n => Ok n
      | None => Raise UnboundLocalError
      end in
  Ok (train st, dev st, test st, log st ++ [DroppedCount n]).

(** ** [load_dataset] and [load_splits]

    What [slp.mm.util], mmsdk and pickle do is a field of [External]:
    [download_mmdata], which fetches the files of a dataset into the base
    path, loading the computational sequences of a recipe, aligning a
    dataset to one of its sequences, adding the label sequence, and the
    two directions of pickle between the quadruple that [load_splits]
    returns and the contents of a file, a [blob]. *)

Abbreviation splits :=
  (list (gmap string value) * list (gmap string value) *
   list (gmap string value) * gmap string nat)%type.

Class External : Type := {
  download_mmdata : string -> descriptor -> result unit;
  md_mmdataset : string -> descriptor -> list string -> result mmdataset;
  md_align : mmdataset -> string -> result mmdataset;
  md_add_computational_sequences :
    mmdataset -> string -> string -> result mmdataset;
  blob : Type;
  pickle_dumps : splits -> blob;
  pickle_loads : blob -> result splits
}.

Context {ext : External}.

Definition load_dataset (base_path dataset_name : string) (ms : list string)
  : result (mmdataset * gmap string nat) :=
  let! d := select_dataset dataset_name in
  let! _ := download_mmdata base_path d in
  let! data := md_mmdataset base_path d ms in
  let! text_id := getitem (modality_map d) "text" in
  let! data := md_align data text_id in
  let! text := getitem data text_id in
  let! all_words := collect_words text in
  let word2idx := word2idx_of all_words in
  let! labels_id := getitem (modality_map d) "labels" in
  let! data := md_add_computational_sequences data base_path labels_id in
  let! data := md_align data labels_id in
  Ok (data, word2idx).

(** The files the cache can see, which are the pickled files: their
    contents, and for each path the error, if any, that opening it for
    writing raises.  What [download_mmdata] fetches into the base path is
    not among them. *)
Record filesystem : Type := {
  files : gmap string blob;
  open_wb_error : string -> option exn
}.

(** [pickle_load]: [open(fname, 'rb')] raises [FileNotFoundError] for an
    absent file. *)
Definition pickle_load (fs : filesystem) (fname : string) : result splits :=
  match files fs !! fname with
  | None => Raise FileNotFoundError
  | Some content => pickle_loads content
  end.

Definition pickle_dump (fs : filesystem) (data : splits) (fname : string)
  : result filesystem :=
  match open_wb_error fs fname with
  | Some e => Raise e
  | None =>
      Ok {| files := <[fname := pickle_dumps data]> (files fs);
            open_wb_error := open_wb_error fs |}
  end.

(** The part of [load_splits] after the cache lookup. *)
Definition compute_splits (base_path : string) (o : options) : result splits :=
  let! dw := load_dataset base_path (dataset o) (modalities o) in
  let! tdt := clean_split_dataset o dw.1 in
  Ok (tdt.1.1.1, tdt.1.1.2, tdt.1.2, dw.2).

Definition compute_and_store (fs : filesystem) (base_path : string)
    (o : options) (cache : option string) : result splits * filesystem :=
  match compute_splits base_path o with
  | Raise e => (Raise e, fs)
  | Ok r =>
      match cache with
      | None => (Ok r, fs)
      | Some fname =>
          match pickle_dump fs r fname with
          | Ok fs' => (Ok r, fs')
          | Raise e => (Raise e, fs)
          end
      end
  end.

(** [load_splits] returns its value or raises, and leaves a file system. *)
Definition load_splits (fs : filesystem) (base_path : string) (o : options)
    (cache : option string) : result splits * filesystem :=
  match cache with
  | None => compute_and_store fs base_path o cache
  | Some fname =>
      match pickle_load fs fname with
      | Ok r => (Ok r, fs)
      | Raise FileNotFoundError => compute_and_store fs base_path o cache
      | Raise e => (Raise e, fs)
      end
  end.

End Load.

Abbreviation row := (list cell).
Abbreviation ndarray := (list (list cell)).
Abbreviation record := (gmap string value).
Abbreviation splits :=
  (list (gmap string value) * list (gmap string value) *
   list (gmap string value) * gmap string nat)%type.

(** ** [mosi] and [mosei]

    Both pass their arguments on to [load_splits] with the name of the
    dataset fixed. *)
Definition with_dataset (name : string) (o : options) : options :=
  {| dataset := name; modalities := modalities o;
     remove_pauses := remove_pauses o; remove_neutral := remove_neutral o;
     max_length := max_length o; pad_front := pad_front o;
     pad_back := pad_back o |}.

Definition mosi `{env : Env} {np : Numpy} {ext : External} (fs : filesystem)
    (base_path : string) (o : options) (cache : option string)
  : result splits * filesystem :=
  load_splits fs base_path (with_dataset "mosi" o) cache.

Definition mosei `{env : Env} {np : Numpy} {ext : External} (fs : filesystem)
    (base_path : string) (o : options) (cache : option string)
  : result splits * filesystem :=
  load_splits fs base_path (with_dataset "mosei" o) cache.

(** ** [download_url]: where the file goes

    [url.rsplit('/')] without a bound on the number of splits cuts the url
    at every slash; the name is the last piece. *)
Fixpoint split_at (sep : ascii) (s : string) : list string :=
  match s with
  | EmptyString => [EmptyString]
  | String c s' =>
      if Ascii.eqb c sep then EmptyString :: split_at sep s'
      else
        match split_at sep s' with
        | piece :: pieces => String c piece :: pieces
        | [] => [String c EmptyString]
        end
  end.

Definition url_name (url : string) : string :=
  default EmptyString (last (split_at "/" url)).

Definition download_dest (url dest_path : string) : string :=
  dest_path +:+ "/" +:+ url_name url.

(** ** A small instance

    Floats are either NaN or an integer value; the special tokens are
    sample values; the text is in store ["words"], the audio in
    ["covarep"] and the labels in ["labels"]; each fold has one video.
    A file holds the pickled quadruple itself. *)

Module Sample.

Inductive float : Type :=
  | NaN
  | Fin (z : Z).

Definition sample_descriptor : descriptor :=
  {| modality_map :=
       <["text" := "words"]> (<["audio" := "covarep"]>
         (<["labels" := "labels"]> ∅));
     standard_train_fold := ["v1"];
     standard_valid_fold := ["v2"];
     standard_test_fold := ["v3"] |}.

#[export] Instance sample_env : Env :=
  {| scalar := float;
     zero := Fin 0;
     nan_to_num_scalar := fun x => match x with NaN => Fin 0 | _ => x end;
     sign_is_zero := fun x => match x with Fin 0 => true | _ => false end;
     SPECIAL_TOKENS := ["[PAD]"; "[BOS]"; "[EOS]"; "[UNK]"; "[PAUSE]"];
     PAD := "[PAD]";
     PAUSE := "[PAUSE]";
     MOSI := sample_descriptor;
     MOSEI := sample_descriptor |}.

(** numpy on the small instance.  An array whose cells are all bytes has
    the item size of its longest cell, and at least one: a [str] assigned
    into it is encoded as ASCII and cut to that size; any other array
    holds objects.  The sum of a list and an array is taken number by
    number; along each axis the two lengths agree or the one of length
    one is stretched. *)
Definition float_add (x y : float) : float :=
  match x, y with
  | Fin a, Fin b => Fin (a + b)
  | _, _ => NaN
  end.

Definition is_ascii (s : string) : bool :=
  forallb (fun c => (N_of_ascii c <? 128)%N) (list_ascii_of_string s).

Definition itemsize (a : ndarray) : option nat :=
  foldr (fun (c : cell) w =>
           match c, w with
           | CBytes b, Some n => Some (String.length b `max` n)%nat
           | _, _ => None
           end)
        (Some 1%nat) (concat a).

Definition sample_store_str (a : ndarray) (s : string) : result cell :=
  match itemsize a with
  | Some w =>
      if is_ascii s then Ok (CBytes (String.substring 0 w s))
      else Raise UnicodeEncodeError
  | None => Ok (CStr s)
  end.

Definition number_of (c : cell) : result float :=
  match c with
  | CNum x => Ok x
  | _ => Raise TypeError
  end.

Definition numbers_of (e : elem) : result (list float) :=
  match e with
  | Row r => mapM_result number_of r
  | Word _ => Raise TypeError
  end.

Definition broadcast {A B C : Type} (f : A -> B -> result C)
    (xs : list A) (ys : list B) : result (list C) :=
  if decide (length xs = length ys) then
    mapM_result (fun xy => f xy.1 xy.2) (zip xs ys)
  else
    match xs, ys with
    | [x], _ => mapM_result (f x) ys
    | _, [y] => mapM_result (fun x => f x y) xs
    | _, _ => Raise ValueError
    end.

Definition sample_add (t : list elem) (a : ndarray) : result ndarray :=
  let! ts := mapM_result numbers_of t in
  let! rows := mapM_result (mapM_result number_of) a in
  let! sums := broadcast (broadcast (fun x y => Ok (float_add x y))) ts rows in
  Ok (map (map CNum) sums).

#[export] Instance sample_numpy : Numpy :=
  {| np_store_str := sample_store_str; np_add := sample_add |}.

Definition words (ws : list string) : ndarray := (fun w => [CBytes w]) <$> ws.
Definition frames (xs : list Z) : ndarray :=
  (fun x => [CNum (Fin x); CNum NaN]) <$> xs.
Definition sentiment (x : Z) : ndarray := [[CNum (Fin x)]].

(** Two segments whose text and audio agree in length. *)
Definition sample_data : gmap string (list (string * ndarray)) :=
  list_to_map
    [("words", [("v1[0]", words ["hello"; "sp"; "world"]);
                ("v2[0]", words ["sp"; "a"; "b"; "c"; "d"; "e"])]);
     ("covarep", [("v1[0]", frames [1; 2; 3]);
                  ("v2[0]", frames [7; 8; 9; 10; 11; 12])]);
     ("labels", [("v1[0]", sentiment 2); ("v2[0]", sentiment 0)])].

(** A segment with two words and three audio rows, then a neutral one. *)
Definition mismatch_data : gmap string (list (string * ndarray)) :=
  list_to_map
    [("words", [("v3[0]", words ["so"; "sp"]); ("v2[0]", words ["a"])]);
     ("covarep", [("v3[0]", frames [4; 5; 6]); ("v2[0]", frames [7])]);
     ("labels", [("v3[0]", sentiment 1); ("v2[0]", sentiment 0)])].

(** A segment that is fine, then a neutral one with two words and three
    audio rows. *)
Definition neutral_mismatch_data : gmap string (list (string * ndarray)) :=
  list_to_map
    [("words", [("v1[0]", words ["hello"]); ("v3[0]", words ["so"; "sp"])]);
     ("covarep", [("v1[0]", frames [1]); ("v3[0]", frames [4; 5; 6])]);
     ("labels", [("v1[0]", sentiment 2); ("v3[0]", sentiment 0)])].

(** A segment id without a bracketed block. *)
Definition unbracketed_data : gmap string (list (string * ndarray)) :=
  list_to_map
    [("words", [("v1", words ["hello"])]);
     ("covarep", [("v1", frames [1])]);
     ("labels", [("v1", sentiment 2)])].

(** One segment of one word that is not a pause. *)
Definition one_word_data : gmap string (list (string * ndarray)) :=
  list_to_map
    [("words", [("v1[0]", words ["hello"])]);
     ("labels", [("v1[0]", sentiment 2)])].

(** The sequences aligned to the words: one word per key. *)
Definition word_level (ws : list (string * string))
  : gmap string (list (string * ndarray)) :=
  list_to_map [("words", (fun kw => (kw.1, words [kw.2])) <$> ws)].

Definition sample_options : options :=
  {| dataset := "mosi"; modalities := ["audio"; "text"];
     remove_pauses := true; remove_neutral := false;
     max_length := 4; pad_front := true; pad_back := false |}.

Definition ragged_options : options :=
  {| dataset := "mosi"; modalities := ["audio"; "text"];
     remove_pauses := true; remove_neutral := false;
     max_length := 4; pad_front := false; pad_back := false |}.

Definition neutral_options : options :=
  {| dataset := "mosi"; modalities := ["audio"; "text"];
     remove_pauses := true; remove_neutral := true;
     max_length := -1; pad_front := false; pad_back := false |}.

Definition keep_options : options :=
  {| dataset := "mosi"; modalities := ["text"];
     remove_pauses := false; remove_neutral := false;
     max_length := -1; pad_front := false; pad_back := false |}.

(** The base path ["corpus"] holds the words of [sample_data]; the base
    path ["corpus_pad"] holds a corpus in which the string of the PAD token
    is a word.  Aligning to the labels gives [sample_data]. *)
#[export] Instance sample_external : External :=
  {| download_mmdata := fun _ _ => Ok tt;
     md_mmdataset := fun base_path _ _ =>
       if decide (base_path = "corpus") then
         Ok (word_level [("v1[0]", "hello"); ("v1[1]", "sp"); ("v1[2]", "world");
                         ("v2[0]", "sp"); ("v2[1]", "a"); ("v2[2]", "b");
                         ("v2[3]", "c"); ("v2[4]", "d"); ("v2[5]", "e")])
       else if decide (base_path = "corpus_pad") then
         Ok (word_level [("v1[0]", "hello"); ("v1[1]", "[PAD]")])
       else Raise OSError;
     md_align := fun data id =>
       if decide (id = "labels") then Ok sample_data else Ok data;
     md_add_computational_sequences := fun data _ _ => Ok data;
     blob := splits;
     pickle_dumps := fun r => r;
     pickle_loads := fun b => Ok b |}.

Definition no_splits : splits := ([], [], [], ∅).

(** Whether a computation returns, its value if it does and its
    exception if it does not. *)
Definition is_ok {A : Type} (r : result A) : bool :=
  match r with
  | Ok _ => true
  | Raise _ => false
  end.

Definition returned {A : Type} (default : A) (r : result A) : A :=
  match r with
  | Ok a => a
  | Raise _ => default
  end.

Definition raised {A : Type} (r : result A) : option exn :=
  match r with
  | Ok _ => None
  | Raise e => Some e
  end.

Definition cleaned_by (o : options) (data : gmap string (list (string * ndarray)))
  : list record * list record * list record * list log_entry :=
  returned ([], [], [], []) (clean_split_dataset o data).

Definition first_record (l : list record) : record := default ∅ (head l).

(** An empty file system in which every file can be created, and one in
    which the directory of the cache does not exist. *)
Definition empty_fs : filesystem :=
  {| files := ∅; open_wb_error := fun _ => None |}.

Definition no_directory_fs : filesystem :=
  {| files := ∅; open_wb_error := fun _ => Some FileNotFoundError |}.

Definition cached_fs : filesystem :=
  {| files := {["cache.p" := no_splits]}; open_wb_error := fun _ => None |}.

(** What the loop returns on [sample_data], its first training record,
    the segment that record is for and the cleaned sequences of it. *)
Definition sample_cleaned
  : list record * list record * list record * list log_entry :=
  cleaned_by sample_options sample_data.

Definition sample_train_record : record := first_record sample_cleaned.1.1.1.

Definition sample_entry : string * ndarray := ("v1[0]", sentiment 2).

Definition is_kept (x : result cleaned) : bool :=
  match x with
  | Ok (Kept _ _ _) => true
  | _ => false
  end.

Definition kept_of (x : result cleaned)
  : string * ndarray * gmap string seqval :=
  match x with
  | Ok (Kept vid label mods) => (vid, label, mods)
  | _ => ("", [], ∅)
  end.

Definition is_emitted (x : result outcome) : bool :=
  match x with
  | Ok (Emitted _ _) => true
  | _ => false
  end.

Definition emitted_of (x : result outcome) : string * record :=
  match x with
  | Ok (Emitted vid r) => (vid, r)
  | _ => ("", ∅)
  end.

Definition sample_kept : string * ndarray * gmap string seqval :=
  kept_of (clean_segment sample_options sample_descriptor sample_data
             sample_entry).

Definition sample_emitted : string * record :=
  emitted_of (process_segment sample_options sample_descriptor sample_data
                sample_entry).

Definition sample_audio : seqval := default (Lst []) (sample_kept.2 !! "audio").

(** The arrays gathered for the segment of [mismatch_data] whose audio
    and text differ in length. *)
Definition mismatch_gathered : gmap string ndarray :=
  returned ∅ (gather sample_descriptor mismatch_data (modalities neutral_options)
                "v3[0]").

(** What [load_dataset] returns for the base paths ["corpus"] and
    ["corpus_pad"], and [load_splits] for the former. *)
Definition sample_loaded : gmap string (list (string * ndarray)) * gmap string nat :=
  returned (∅, ∅) (load_dataset "corpus" "mosi" ["audio"; "text"]).

Definition padded_loaded : gmap string (list (string * ndarray)) * gmap string nat :=
  returned (∅, ∅) (load_dataset "corpus_pad" "mosi" ["audio"; "text"]).

Definition sample_splits : splits :=
  returned no_splits (load_splits empty_fs "corpus" sample_options None).1.

(** Further options: padding at the back, audio alone, audio alone padded
    at the front and at the back, and a dataset that is not supported. *)
Definition pad_back_options : options :=
  {| dataset := "mosi"; modalities := ["audio"; "text"];
     remove_pauses := true; remove_neutral := false;
     max_length := 4; pad_front := false; pad_back := true |}.

Definition audio_options : options :=
  {| dataset := "mosi"; modalities := ["audio"];
     remove_pauses := false; remove_neutral := false;
     max_length := -1; pad_front := false; pad_back := false |}.

Definition audio_pad_front_options : options :=
  {| dataset := "mosi"; modalities := ["audio"];
     remove_pauses := false; remove_neutral := false;
     max_length := 4; pad_front := true; pad_back := false |}.

Definition audio_pad_back_options : options :=
  {| dataset := "mosi"; modalities := ["audio"];
     remove_pauses := false; remove_neutral := false;
     max_length := 4; pad_front := false; pad_back := true |}.

Definition pom_options : options :=
  {| dataset := "pom"; modalities := ["audio"; "text"];
     remove_pauses := true; remove_neutral := false;
     max_length := -1; pad_front := false; pad_back := false |}.

(** One neutral segment; a segment the audio has no features for; a
    segment whose two words are pauses. *)
Definition neutral_data : gmap string (list (string * ndarray)) :=
  list_to_map
    [("words", [("v2[0]", words ["a"])]);
     ("covarep", [("v2[0]", frames [7])]);
     ("labels", [("v2[0]", sentiment 0)])].

Definition missing_audio_data : gmap string (list (string * ndarray)) :=
  list_to_map
    [("words", [("v1[0]", words ["hello"])]);
     ("covarep", []);
     ("labels", [("v1[0]", sentiment 2)])].


(** The second segment of [sample_data], of five words once the pause is
    removed. *)
Definition long_entry : string * ndarray := ("v2[0]", sentiment 0).

(** The cleaned sequences and the record of a segment, and the sequence
    bound to a modality. *)
Definition kept_for (o : options) (data : gmap string (list (string * ndarray)))
    (entry : string * ndarray) : string * ndarray * gmap string seqval :=
  kept_of (clean_segment o sample_descriptor data entry).

Definition emitted_for (o : options)
    (data : gmap string (list (string * ndarray)))
    (entry : string * ndarray) : string * record :=
  emitted_of (process_segment o sample_descriptor data entry).

Definition sequence_of (mods : gmap string seqval) (m : string) : seqval :=
  default (Lst []) (mods !! m).

(** What [mosi] returns for the base path ["corpus"] and an absent cache
    file. *)
Definition mosi_first : result splits * filesystem :=
  mosi empty_fs "corpus" sample_options (Some "cache.p").

End Sample.

(** ** Notions used in the statements *)

(** Whether a character occurs in a string, and whether a string is
    within one line. *)
Fixpoint has_char (c : ascii) (s : string) : bool :=
  match s with
  | EmptyString => false
  | String x s' => Ascii.eqb x c || has_char c s'
  end.

Definition single_line (s : string) : bool := negb (has_char newline s).

(** The keys [clean_split_dataset] writes into a record after the
    sequences; a modality of one of these names would be overwritten. *)
Definition reserved_keys : list string := ["video_id"; "segment_id"; "label"].

(** The records of the three splits built so far. *)
Definition records_of `{env : Env} (st : loop_state) : list record :=
  train st ++ dev st ++ test st.

(** By how much a turn of the loop with this outcome raises [num_drop]
    after binding it to 0. *)
Definition shape_drops `{env : Env} (oc : outcome) : nat :=
  match oc with
  | Dropped _ _ => 1
  | _ => 0
  end.

(** The length that length normalisation leaves to a sequence of [n] rows
    when [max_length] is positive. *)
Definition normalized_length `{env : Env} (o : options) (n : Z) : Z :=
  if (n <? max_length o) && negb (pad_front o || pad_back o) then n
  else max_length o.

(** The items of [l] whose positions, counted from [i0], are not in
    [sp_idx]. *)
Fixpoint without {X : Type} (sp_idx : list nat) (i0 : nat) (l : list X)
  : list X :=
  match l with
  | [] => []
  | x :: l' =>
      if decide (i0 ∈ sp_idx) then without sp_idx (S i0) l'
      else x :: without sp_idx (S i0) l'
  end.

Definition is_shape_mismatch (l : log_entry) : bool :=
  match l with
  | ShapeMismatch _ _ => true
  | _ => false
  end.

(** The pieces of a split followed each by the separator. *)
Fixpoint with_separators (sep : ascii) (pieces : list string) : string :=
  match pieces with
  | [] => EmptyString
  | p :: ps => p +:+ String sep (with_separators sep ps)
  end.

(** The segment id written into a record. *)
Definition segment_id_of `{env : Env} (r : record) : option string :=
  match r !! "segment_id" with
  | Some (VStr s) => Some s
  | _ => None
  end.

(** The warnings of the log: all entries but the final count. *)
Definition is_warning `{env : Env} (l : log_entry) : bool :=
  match l with
  | DroppedCount _ => false
  | _ => true
  end.

(** Whether the neutral filter skips a segment. *)
Definition is_skipped `{env : Env} {np : Numpy} (o : options) (d : descriptor)
    (data : gmap string (list (string * ndarray)))
    (entry : string * ndarray) : bool :=
  match process_segment o d data entry with
  | Ok Skipped => true
  | _ => false
  end.

(** Where the records of a state have gone, against the folds. *)
Definition routed `{env : Env} (d : descriptor) (st : loop_state) : Prop :=
  (forall r, r ∈ train st ->
     exists vid, r !! "video_id" = Some (VStr vid) /\
       vid ∈ standard_train_fold d) /\
  (forall r, r ∈ dev st ->
     exists vid, r !! "video_id" = Some (VStr vid) /\
       vid ∈ standard_valid_fold d /\ (vid ∉ standard_train_fold d)) /\
  (forall r, r ∈ test st ->
     exists vid, r !! "video_id" = Some (VStr vid) /\
       vid ∈ standard_test_fold d /\ (vid ∉ standard_train_fold d) /\
       (vid ∉ standard_valid_fold d)) /\
  (forall vid, NoSplit vid ∈ log st ->
     (vid ∉ standard_train_fold d) /\ (vid ∉ standard_valid_fold d) /\
     (vid ∉ standard_test_fold d)).

(** A sequence that [pad_front] is to pad is a list: the sum of the
    padding and an array is numpy's to tell. *)
Definition padded_at_front_is_list `{env : Env} (o : options) (v : seqval) : Prop :=
  pad_front o = true -> Z.of_nat (len v) < max_length o -> exists l, v = Lst l.

(** [pad_front] meets lists only: it is off, or there is no positive
    [max_length], or the text is requested and the pauses are removed, so
    that every sequence is a list. *)
Definition pads_lists_only `{env : Env} (o : options) : Prop :=
  pad_front o = false \/ max_length o <= 0 \/
  ("text" ∈ modalities o /\ remove_pauses o = true).

(** Lines 68 to 75 of [load_dataset] on [l], the distinct words in one of
    the orders in which [list(set(all_words))] may hold them. *)
Definition word2idx_from `{env : Env} (l : list string) : gmap string nat :=
  (foldl add_special (foldl add_word (∅, O) (sorted l)) SPECIAL_TOKENS).1.

(** * Properties *)

(** ** Results *)

Lemma bind_Ok {A B : Type} (r : result A) (f : A -> result B) (b : B) :
  bind r f = Ok b -> exists a, r = Ok a /\ f a = Ok b.
Proof. destruct r as [a|e]; simpl; [eauto | discriminate]. Qed.

Ltac inv_bind H :=
  let a := fresh "a" in
  let Ha := fresh "Ha" in
  apply bind_Ok in H; destruct H as (a & Ha & H).

Lemma foldM_app {S X : Type} (step : S -> X -> result S) s xs ys :
  foldM step s (xs ++ ys) = bind (foldM step s xs) (fun s' => foldM step s' ys).
Proof.
  revert s. induction xs as [|x xs IH]; intros s; simpl; [reflexivity|].
  destruct (step s x); simpl; auto.
Qed.

Lemma mapM_result_cons {X Y : Type} (f : X -> result Y) x xs :
  mapM_result f (x :: xs) =
  let! y := f x in let! ys := mapM_result f xs in Ok (y :: ys).
Proof. reflexivity. Qed.

Lemma mapM_result_length {X Y : Type} (f : X -> result Y) xs ys :
  mapM_result f xs = Ok ys -> length ys = length xs.
Proof.
  revert ys. induction xs as [|x xs IH]; intros ys H; simpl in H.
  - by inversion H.
  - inv_bind H. inv_bind H. inversion H; subst. simpl. f_equal. auto.
Qed.

(** ** The pattern of segment ids *)

Lemma single_line_cons x s :
  single_line (String x s) = negb (Ascii.eqb x newline) && single_line s.
Proof. unfold single_line. simpl. by rewrite negb_orb. Qed.

Lemma has_close_spec s :
  has_close s = true <->
  exists b c, s = b +:+ String "]" c /\ single_line b = true.
Proof.
  split.
  - induction s as [|x s IH]; simpl; [discriminate|].
    destruct (Ascii.eqb x "]") eqn:Hx.
    + apply Ascii.eqb_eq in Hx as ->. intros _. by exists "", s.
    + destruct (Ascii.eqb x newline) eqn:Hn; [discriminate|].
      intros H. destruct (IH H) as (b & c & -> & Hb).
      exists (String x b), c. split; [done|].
      by rewrite single_line_cons, Hn, Hb.
  - intros (b & c & -> & Hb). induction b as [|x b IH]; simpl.
    + done.
    + rewrite single_line_cons in Hb. apply andb_true_iff in Hb as [Hx Hb].
      apply negb_true_iff in Hx. rewrite Hx.
      destruct (Ascii.eqb x "]"); auto.
Qed.

(** The pattern matches at the start of [s] exactly when [s] starts with
    a line that holds an opening bracket and, later, a closing one. *)
Lemma match_here_spec s :
  is_Some (match_here s) <->
  exists a b c,
    s = a +:+ String "[" (b +:+ String "]" c) /\
    single_line a = true /\ single_line b = true.
Proof.
  split.
  - induction s as [|x s IH]; simpl; [by intros [? ?]|].
    destruct (Ascii.eqb x newline) eqn:Hn.
    + destruct (Ascii.eqb x "[") eqn:Hx; simpl; [|by intros [? ?]].
      apply Ascii.eqb_eq in Hx as ->. discriminate.
    + destruct (match_here s) as [g|] eqn:Hg.
      * intros _. destruct IH as (a & b & c & -> & Ha & Hb); [done|].
        exists (String x a), b, c. split; [done|].
        by rewrite single_line_cons, Hn, Ha.
      * destruct (Ascii.eqb x "[") eqn:Hx; simpl; [|by intros [? ?]].
        destruct (has_close s) eqn:Hc; [|by intros [? ?]]. intros _.
        apply Ascii.eqb_eq in Hx as ->.
        apply has_close_spec in Hc as (b & c & -> & Hb).
        by exists "", b, c.
  - intros (a & b & c & -> & Ha & Hb). induction a as [|x a IH]; simpl.
    + destruct (match_here _); [done|].
      assert (has_close (b +:+ String "]" c) = true) as ->; [|done].
      apply has_close_spec. eauto.
    + rewrite single_line_cons in Ha. apply andb_true_iff in Ha as [Hx Ha].
      apply negb_true_iff in Hx. rewrite Hx.
      destruct (IH Ha) as [g ->]. done.
Qed.

Lemma re_search_unfold s :
  re_search s =
  match match_here s with
  | Some g => Some g
  | None =>
      match s with
      | EmptyString => None
      | String _ s' => re_search s'
      end
  end.
Proof. by destruct s. Qed.

(** [re.search] finds a match exactly in the strings that hold an opening
    bracket and, later on the same line, a closing one. *)
Lemma re_search_spec s :
  is_Some (re_search s) <->
  exists a b c,
    s = a +:+ String "[" (b +:+ String "]" c) /\ single_line b = true.
Proof.
  split.
  - induction s as [|x s IH]; simpl; [by intros [? ?]|].
    destruct (match_here (String x s)) as [g|] eqn:Hg.
    + intros _. destruct (proj1 (match_here_spec (String x s)))
        as (a & b & c & Hs & _ & Hb); [by rewrite Hg|]. eauto.
    + simpl in Hg. rewrite Hg. intros H.
      destruct (IH H) as (a & b & c & -> & Hb).
      by exists (String x a), b, c.
  - intros (a & b & c & -> & Hb). induction a as [|x a IH].
    + change (is_Some (re_search (String "[" (b +:+ String "]" c)))).
      destruct (proj2 (match_here_spec (String "[" (b +:+ String "]" c))))
        as [g Hg]; [by exists "", b, c|].
      rewrite re_search_unfold. by rewrite Hg.
    + change (is_Some
               (re_search (String x (a +:+ String "[" (b +:+ String "]" c))))).
      rewrite re_search_unfold. by destruct (match_here _).
Qed.

Lemma match_here_no_bracket s : has_char "[" s = false -> match_here s = None.
Proof.
  induction s as [|x s IH]; simpl; [done|].
  intros H. apply orb_false_iff in H as [Hx Hs].
  rewrite (IH Hs), Hx. simpl. by destruct (Ascii.eqb x newline).
Qed.

(** For an id of the usual form, a video id and one bracketed index, the
    group is the video id. *)
Lemma re_search_video_id vid k :
  single_line vid = true -> has_char "[" vid = false ->
  single_line k = true -> has_char "[" k = false ->
  re_search (vid +:+ String "[" (k +:+ "]")) = Some vid.
Proof.
  intros Hvl Hvb Hkl Hkb.
  assert (Hm : match_here (vid +:+ String "[" (k +:+ "]")) = Some vid).
  { induction vid as [|x vid IH]; simpl.
    - rewrite match_here_no_bracket.
      + assert (has_close (k +:+ "]") = true) as ->; [|done].
        apply has_close_spec. by exists k, "".
      + clear -Hkb. induction k as [|y k IH]; simpl; [done|].
        simpl in Hkb. apply orb_false_iff in Hkb as [-> Hk]. by apply IH.
    - rewrite single_line_cons in Hvl. apply andb_true_iff in Hvl as [Hx Hvl].
      apply negb_true_iff in Hx. rewrite Hx.
      simpl in Hvb. apply orb_false_iff in Hvb as [_ Hvb].
      by rewrite (IH Hvl Hvb). }
  destruct vid; simpl in *; by rewrite Hm.
Qed.

Section Facts.
Context `{env : Env} {np : Numpy}.

(** ** The loop of [clean_split_dataset] *)

Lemma apply_outcome_records d st oc r :
  r ∈ records_of (apply_outcome d st oc) ->
  r ∈ records_of st \/ exists vid, oc = Emitted vid r.
Proof.
  unfold records_of. destruct oc as [|vid sh|vid r']; simpl; auto.
  repeat case_decide; simpl; rewrite !elem_of_app;
    intros Hin; destruct_or?; auto;
    apply list_elem_of_singleton in Hin as ->; eauto.
Qed.

Lemma clean_split_dataset_Ok o data tr dv te lg :
  clean_split_dataset o data = Ok (tr, dv, te, lg) ->
  exists d labels st n,
    select_dataset (dataset o) = Ok d /\
    label_sequence d data = Ok labels /\
    foldM (loop_body o d data) initial_state labels = Ok st /\
    num_drop st = Some n /\
    tr = train st /\ dv = dev st /\ te = test st /\
    lg = log st ++ [DroppedCount n].
Proof.
  unfold clean_split_dataset. intros H.
  inv_bind H. rename a into d. inv_bind H. rename a into labels.
  inv_bind H. rename a into st. inv_bind H. rename a into n.
  destruct (num_drop st) as [n'|] eqn:Hn; [|discriminate].
  inversion Ha2; subst n'. inversion H; subst.
  exists d, labels, st, n. auto 10.
Qed.

(** Every record of the splits was emitted for a segment of the label
    sequence. *)
Lemma loop_records_emitted o d data labels st st' r :
  foldM (loop_body o d data) st labels = Ok st' ->
  r ∈ records_of st' ->
  r ∈ records_of st \/
  exists entry vid, entry ∈ labels /\
    process_segment o d data entry = Ok (Emitted vid r).
Proof.
  revert st. induction labels as [|e labels IH]; intros st H Hr; simpl in H.
  - inversion H; subst. by left.
  - inv_bind H. unfold loop_body in Ha. inv_bind Ha. inversion Ha; subst.
    destruct (IH _ H Hr) as [Hin|(e' & vid & He' & Hp)].
    + apply apply_outcome_records in Hin as [Hin|[vid ->]]; [by left|].
      right. exists e, vid. split; [by left|done].
    + right. exists e', vid. split; [by right|done].
Qed.

Lemma split_records_emitted o data d labels tr dv te lg r :
  clean_split_dataset o data = Ok (tr, dv, te, lg) ->
  select_dataset (dataset o) = Ok d ->
  label_sequence d data = Ok labels ->
  r ∈ tr ++ dv ++ te ->
  exists entry vid, entry ∈ labels /\
    process_segment o d data entry = Ok (Emitted vid r).
Proof.
  intros H Hd Hl Hr.
  apply clean_split_dataset_Ok in H
    as (d' & labels' & st & n & Hd' & Hl' & Hloop & _ & -> & -> & -> & _).
  rewrite Hd in Hd'. inversion Hd'; subst d'.
  rewrite Hl in Hl'. inversion Hl'; subst labels'.
  destruct (loop_records_emitted _ _ _ _ _ _ r Hloop Hr) as [Hin|?]; [|done].
  inversion Hin.
Qed.

Lemma foldM_Raise {S X : Type} (step : S -> X -> result S) xs x s e0 :
  x ∈ xs -> (forall s, step s x = Raise e0) ->
  exists e, foldM step s xs = Raise e.
Proof.
  intros Hx Hstep. revert s.
  induction xs as [|y xs IH]; intros s; [inversion Hx|].
  simpl. apply elem_of_cons in Hx as [<-|Hx].
  - rewrite Hstep. simpl. eauto.
  - destruct (step s y) as [s'|e]; simpl; eauto.
Qed.

(** *** What an outcome says about the steps before it *)

Lemma clean_segment_Kept o d data entry vid label mods :
  clean_segment o d data entry = Ok (Kept vid label mods) ->
  exists g g',
    video_id_of entry.1 = Ok vid /\
    label = nan_to_num entry.2 /\
    (remove_neutral o = true -> is_neutral label = Ok false) /\
    gather d data (modalities o) entry.1 = Ok g /\
    shapes_agree (length <$> g) = true /\
    update_non_text (fun a => Ok (nan_to_num a)) (modalities o) g = Ok g' /\
    handle_pauses o g' = Ok mods.
Proof.
  unfold clean_segment. intros H.
  inv_bind H. rename a into vid'. inv_bind H. rename a into neutral.
  destruct neutral; [discriminate|].
  inv_bind H. rename a into g.
  destruct (shapes_agree (length <$> g)) eqn:Hsh; simpl in H; [|discriminate].
  inv_bind H. rename a into g'. inv_bind H. inversion H; subst.
  exists g, g'. repeat split; auto.
  intros Hn. by rewrite Hn in Ha0.
Qed.

Lemma process_segment_Emitted o d data entry vid r :
  process_segment o d data entry = Ok (Emitted vid r) ->
  exists label mods mods',
    clean_segment o d data entry = Ok (Kept vid label mods) /\
    emitted_sequences o mods = Ok mods' /\
    r = make_record mods' vid entry.1 label.
Proof.
  unfold process_segment. intros H. inv_bind H.
  destruct a as [|vid' sh|vid' label mods]; try discriminate.
  inv_bind H. inversion H; subst. exists label, mods, a. auto.
Qed.

Lemma process_segment_Skipped o d data entry :
  process_segment o d data entry = Ok Skipped -> remove_neutral o = true.
Proof.
  unfold process_segment, clean_segment. intros H. inv_bind H.
  destruct a as [|vid' sh|vid' label mods]; try discriminate.
  - inv_bind Ha. inv_bind Ha. destruct (remove_neutral o); [done|].
    inversion Ha1; subst. inv_bind Ha.
    destruct (negb _); [discriminate|]. inv_bind Ha. inv_bind Ha. discriminate.
  - inv_bind H. discriminate.
Qed.

Lemma make_record_segment_id mods vid segment label :
  make_record mods vid segment label !! "segment_id" = Some (VStr segment).
Proof. unfold make_record. by simplify_map_eq. Qed.

Lemma make_record_modality mods vid segment label m :
  m ∉ reserved_keys ->
  make_record mods vid segment label !! m = VSeq <$> mods !! m.
Proof.
  unfold reserved_keys, make_record. intros Hm.
  rewrite !lookup_insert_ne, lookup_fmap; [done|..];
    intros <-; apply Hm; set_solver.
Qed.

(** *** The shape check *)

Lemma shapes_agree_true (sh : gmap string nat) :
  shapes_agree sh = true <->
  forall k1 k2 n1 n2, sh !! k1 = Some n1 -> sh !! k2 = Some n2 -> n1 = n2.
Proof.
  unfold shapes_agree. rewrite bool_decide_eq_true.
  set (vs := list_to_set (map_to_list sh).*2 : gset nat).
  assert (Hvs : forall n, n ∈ vs <-> exists k, sh !! k = Some n).
  { intros n. unfold vs. rewrite elem_of_list_to_set, list_elem_of_fmap. split.
    - intros ([k n'] & -> & Hin). apply elem_of_map_to_list in Hin. eauto.
    - intros (k & Hk). exists (k, n). split; [done|].
      by apply elem_of_map_to_list. }
  split.
  - intros Hsize k1 k2 n1 n2 H1 H2.
    destruct (decide (n1 = n2)) as [|Hne]; [done|exfalso].
    assert (Hsub : ({[n1]} ∪ {[n2]} : gset nat) ⊆ vs).
    { intros n Hn. apply Hvs.
      apply elem_of_union in Hn as [Hn|Hn];
        apply elem_of_singleton in Hn as ->; eauto. }
    apply subseteq_size in Hsub.
    rewrite size_union in Hsub
      by (apply disjoint_singleton_l; by rewrite not_elem_of_singleton).
    rewrite !size_singleton in Hsub. lia.
  - intros Hall. destruct (set_choose_or_empty vs) as [[n Hn]|Hempty].
    + assert (vs = {[n]}) as ->; [|by rewrite size_singleton].
      apply set_eq. intros n'. rewrite elem_of_singleton. split.
      * intros Hn'. apply Hvs in Hn as [k Hk]. apply Hvs in Hn' as [k' Hk'].
        eauto.
      * by intros ->.
    + apply size_empty_iff in Hempty. rewrite Hempty. lia.
Qed.

Lemma shapes_agree_false (g : gmap string ndarray) k1 k2 a1 a2 :
  g !! k1 = Some a1 -> g !! k2 = Some a2 -> length a1 ≠ length a2 ->
  shapes_agree (length <$> g) = false.
Proof.
  intros H1 H2 Hne. apply not_true_is_false. intros Hag.
  apply Hne. eapply shapes_agree_true; [exact Hag| |];
    rewrite lookup_fmap; [by rewrite H1 | by rewrite H2].
Qed.

(** ** Segment ids without a bracketed block *)

Lemma process_segment_no_match o d data segment label :
  re_search segment = None ->
  process_segment o d data (segment, label) = Raise AttributeError.
Proof.
  intros Hs. unfold process_segment, clean_segment, video_id_of. simpl.
  by rewrite Hs.
Qed.

Lemma clean_split_dataset_loop_Raise o data d labels e :
  select_dataset (dataset o) = Ok d ->
  label_sequence d data = Ok labels ->
  foldM (loop_body o d data) initial_state labels = Raise e ->
  clean_split_dataset o data = Raise e.
Proof.
  intros Hd Hl Hloop. unfold clean_split_dataset.
  rewrite Hd. simpl. rewrite Hl. simpl. by rewrite Hloop.
Qed.

(** C10.  A segment id of the label sequence in which the pattern finds
    no match makes the turn of the loop for it raise [AttributeError],
    whatever the state and the data, so [clean_split_dataset] does not
    return: it raises, and it raises [AttributeError] when the turns
    before that segment ran to their end. *)
Theorem segment_id_without_block_aborts o data d labels segment label :
  select_dataset (dataset o) = Ok d ->
  label_sequence d data = Ok labels ->
  (segment, label) ∈ labels ->
  re_search segment = None ->
  (forall st, loop_body o d data st (segment, label) = Raise AttributeError) /\
  (exists e, clean_split_dataset o data = Raise e) /\
  (forall pre post st,
     labels = pre ++ (segment, label) :: post ->
     foldM (loop_body o d data) initial_state pre = Ok st ->
     clean_split_dataset o data = Raise AttributeError).
Proof.
  intros Hd Hl Hin Hs.
  assert (Hbody : forall st,
             loop_body o d data st (segment, label) = Raise AttributeError).
  { intros st. unfold loop_body. by rewrite process_segment_no_match. }
  split; [exact Hbody|]. split.
  - destruct (foldM_Raise (loop_body o d data) labels _ initial_state _
                Hin Hbody) as [e He].
    exists e. eapply clean_split_dataset_loop_Raise; eauto.
  - intros pre post st -> Hpre.
    eapply clean_split_dataset_loop_Raise; eauto.
    rewrite foldM_app, Hpre. simpl. by rewrite Hbody.
Qed.

(** ** Segments whose modalities differ in length *)

Lemma process_segment_mismatch o d data segment label vid g :
  video_id_of segment = Ok vid ->
  (remove_neutral o = true -> is_neutral (nan_to_num label) = Ok false) ->
  gather d data (modalities o) segment = Ok g ->
  shapes_agree (length <$> g) = false ->
  process_segment o d data (segment, label) = Ok (Dropped vid (length <$> g)).
Proof.
  intros Hvid Hneutral Hg Hsh. unfold process_segment, clean_segment. simpl.
  rewrite Hvid. simpl.
  destruct (remove_neutral o); [rewrite Hneutral by done|]; simpl;
    rewrite Hg; simpl; by rewrite Hsh.
Qed.

Lemma mismatch_never_emitted o d data segment label vid r g :
  gather d data (modalities o) segment = Ok g ->
  shapes_agree (length <$> g) = false ->
  process_segment o d data (segment, label) ≠ Ok (Emitted vid r).
Proof.
  intros Hg Hsh Hp.
  apply process_segment_Emitted in Hp as (lab & mods & mods' & Hc & _).
  apply clean_segment_Kept in Hc as (g1 & g2 & _ & _ & _ & Hg1 & Hsh1 & _).
  simpl in Hg1. congruence.
Qed.

(** C5, amended.  A segment that reaches the shape check (its video id
    is found and the neutral filter lets it through) and two of whose
    requested modalities differ in length is dropped by its turn of the
    loop: the three splits stay as they are, exactly one warning with the
    video id and the lengths per modality is logged, the counter is 1, and
    the turn ends without an exception, so the loop goes on.  No record of
    the returned splits carries the id of such a segment. *)
Theorem shape_mismatch_is_dropped o data d segment label vid g k1 k2 a1 a2 :
  select_dataset (dataset o) = Ok d ->
  video_id_of segment = Ok vid ->
  (remove_neutral o = true -> is_neutral (nan_to_num label) = Ok false) ->
  gather d data (modalities o) segment = Ok g ->
  g !! k1 = Some a1 -> g !! k2 = Some a2 -> length a1 ≠ length a2 ->
  (forall st,
     loop_body o d data st (segment, label) =
       Ok {| train := train st; dev := dev st; test := test st;
             num_drop := Some 1%nat;
             log := log st ++ [ShapeMismatch vid (length <$> g)] |}) /\
  (forall tr dv te lg r,
     clean_split_dataset o data = Ok (tr, dv, te, lg) ->
     r ∈ tr ++ dv ++ te ->
     r !! "segment_id" ≠ Some (VStr segment)).
Proof.
  intros Hd Hvid Hneutral Hg H1 H2 Hne.
  pose proof (shapes_agree_false g k1 k2 a1 a2 H1 H2 Hne) as Hsh.
  split.
  - intros st. unfold loop_body.
    by rewrite (process_segment_mismatch o d data segment label vid g).
  - intros tr dv te lg r Hrun Hr Hid.
    pose proof Hrun as Hrun'.
    apply clean_split_dataset_Ok in Hrun'
      as (d' & labels & st & n & Hd' & Hl & _).
    assert (d' = d) as -> by congruence.
    destruct (split_records_emitted o data d labels tr dv te lg r Hrun Hd Hl Hr)
      as ([seg lab] & vid' & _ & Hp).
    pose proof Hp as Hp'.
    apply process_segment_Emitted in Hp' as (l & mods & mods' & _ & _ & ->).
    rewrite make_record_segment_id in Hid. simpl in Hid.
    inversion Hid; subst seg.
    by eapply mismatch_never_emitted.
Qed.

(** ** The counter of dropped segments *)

Lemma apply_outcome_num_drop d st oc :
  oc ≠ Skipped -> num_drop (apply_outcome d st oc) = Some (shape_drops oc).
Proof.
  destruct oc as [|vid sh|vid r]; simpl; [done|done|].
  intros _. by repeat case_decide.
Qed.

(** After the loop the counter holds what the last turn that was not
    cut short by the neutral filter left in it. *)
Lemma loop_num_drop o d data labels st st' :
  foldM (loop_body o d data) st labels = Ok st' ->
  (Forall (fun e => process_segment o d data e = Ok Skipped) labels /\
   num_drop st' = num_drop st) \/
  (exists pre e post oc,
     labels = pre ++ e :: post /\
     process_segment o d data e = Ok oc /\ oc ≠ Skipped /\
     Forall (fun e' => process_segment o d data e' = Ok Skipped) post /\
     num_drop st' = Some (shape_drops oc)).
Proof.
  revert st. induction labels as [|e labels IH]; intros st H; simpl in H.
  - inversion H; subst. left. split; [constructor|done].
  - inv_bind H. unfold loop_body in Ha. inv_bind Ha. inversion Ha; subst.
    rename a0 into oc.
    destruct (IH _ H) as [[Hall Hn]|(pre & e' & post & oc' & -> & ?)].
    + assert (oc = Skipped \/ oc ≠ Skipped) as [->|Hoc]
        by (destruct oc; auto).
      * left. split; [by constructor|done].
      * right. exists [], e, labels, oc. repeat split; auto.
        by rewrite Hn, apply_outcome_num_drop.
    + right. by exists (e :: pre), e', post, oc'.
Qed.

(** C8, amended.  The count logged after the loop is what the last turn
    that passed the neutral filter left in the counter: 1 if that turn
    dropped its segment at the shape check and 0 otherwise, whatever
    happened in the turns before it.  Without [remove_neutral] that turn
    is the final one. *)
Theorem logged_count_is_of_last_unfiltered_turn o data d labels tr dv te lg :
  clean_split_dataset o data = Ok (tr, dv, te, lg) ->
  select_dataset (dataset o) = Ok d ->
  label_sequence d data = Ok labels ->
  exists lg0 pre e post oc,
    lg = lg0 ++ [DroppedCount (shape_drops oc)] /\
    (shape_drops oc <= 1)%nat /\
    labels = pre ++ e :: post /\
    process_segment o d data e = Ok oc /\ oc ≠ Skipped /\
    Forall (fun e' => process_segment o d data e' = Ok Skipped) post /\
    (remove_neutral o = false -> post = []).
Proof.
  intros Hrun Hd Hl.
  apply clean_split_dataset_Ok in Hrun
    as (d' & labels' & st & n & Hd' & Hl' & Hloop & Hn & _ & _ & _ & ->).
  assert (d' = d) as -> by congruence.
  assert (labels' = labels) as -> by congruence.
  destruct (loop_num_drop _ _ _ _ _ _ Hloop)
    as [[_ Hn']|(pre & e & post & oc & -> & Hp & Hoc & Hpost & Hn')].
  { simpl in Hn'. congruence. }
  assert (n = shape_drops oc) as -> by congruence.
  exists (log st), pre, e, post, oc. repeat split; auto.
  - destruct oc; simpl; lia.
  - intros Hrn. destruct post as [|e' post]; [done|].
    apply Forall_cons in Hpost as [He' _].
    apply process_segment_Skipped in He'. congruence.
Qed.

(** ** Loops that rebind one key per turn *)

(** [for m in ms: d[m] = F(m, d[m])] over distinct keys: every key of [ms]
    is rebound once, from its initial value, and the others are kept. *)
Lemma foldM_rebind {V : Type} (F : string -> V -> result V)
    (step : gmap string V -> string -> result (gmap string V))
    (ms : list string) (d d' : gmap string V) :
  (forall d m d', step d m = Ok d' ->
     exists v v', d !! m = Some v /\ F m v = Ok v' /\ d' = <[m := v']> d) ->
  NoDup ms ->
  foldM step d ms = Ok d' ->
  (forall m, m ∈ ms ->
     exists v v', d !! m = Some v /\ F m v = Ok v' /\ d' !! m = Some v') /\
  (forall m, m ∉ ms -> d' !! m = d !! m).
Proof.
  intros Hstep. revert d.
  induction ms as [|m0 ms IH]; intros d Hnd H; simpl in H.
  - inversion H; subst. split; [|done]. intros m Hm. inversion Hm.
  - inv_bind H. apply NoDup_cons in Hnd as [Hm0 Hnd].
    destruct (Hstep _ _ _ Ha) as (v & v' & Hv & HF & ->).
    destruct (IH _ Hnd H) as [Hin Hout]. split.
    + intros m Hm. apply elem_of_cons in Hm as [->|Hm].
      * exists v, v'. repeat split; auto.
        by rewrite (Hout m0 Hm0), lookup_insert_eq.
      * destruct (Hin m Hm) as (w & w' & Hw & HFw & Hw').
        assert (m ≠ m0) by (by intros ->).
        rewrite lookup_insert_ne in Hw by done. eauto.
    + intros m Hm. apply not_elem_of_cons in Hm as [Hne Hm].
      by rewrite (Hout m Hm), lookup_insert_ne.
Qed.

Lemma update_non_text_lookup {V : Type} (f : V -> result V) ms
    (d d' : gmap string V) m v :
  NoDup ms ->
  update_non_text f ms d = Ok d' ->
  d !! m = Some v ->
  if decide (m ∈ ms /\ m ≠ "text")
  then exists v', f v = Ok v' /\ d' !! m = Some v'
  else d' !! m = Some v.
Proof.
  unfold update_non_text. revert d v.
  induction ms as [|m0 ms IH]; intros d v Hnd H Hv; simpl in H.
  - inversion H; subst. rewrite decide_False; [done|].
    intros [Hc _]. inversion Hc.
  - inv_bind H. apply NoDup_cons in Hnd as [Hm0 Hnd].
    destruct (decide (m0 = "text")) as [->|Hne].
    + inversion Ha; subst a.
      rewrite (decide_ext _ (m ∈ ms /\ m ≠ "text")); [by apply (IH d)|].
      rewrite elem_of_cons. intuition congruence.
    + inv_bind Ha. inv_bind Ha. inversion Ha; subst a. clear Ha.
      unfold getitem in Ha0. destruct (d !! m0) as [w|] eqn:Hw; [|done].
      inversion Ha0; subst a0. clear Ha0.
      destruct (decide (m = m0)) as [->|Hmm0].
      * assert (w = v) as -> by congruence.
        rewrite decide_True by (split; [by left|done]).
        specialize (IH _ a1 Hnd H (lookup_insert_eq _ _ _)).
        rewrite decide_False in IH by (by intros [? _]). eauto.
      * rewrite (decide_ext _ (m ∈ ms /\ m ≠ "text")).
        -- apply (IH (<[m0:=a1]> d)); [done..|].
           by rewrite lookup_insert_ne.
        -- rewrite elem_of_cons. intuition congruence.
Qed.

Lemma update_non_text_None {V : Type} (f : V -> result V) ms
    (d d' : gmap string V) m :
  update_non_text f ms d = Ok d' -> d !! m = None -> d' !! m = None.
Proof.
  unfold update_non_text. revert d.
  induction ms as [|m0 ms IH]; intros d H Hv; simpl in H.
  - by inversion H; subst.
  - inv_bind H. destruct (decide (m0 = "text")) as [->|Hne].
    + inversion Ha; subst a. eauto.
    + inv_bind Ha. inv_bind Ha. inversion Ha; subst a.
      apply (IH _ H). rewrite lookup_insert_ne; [done|].
      intros ->. unfold getitem in Ha0. by rewrite Hv in Ha0.
Qed.

(** ** Length normalisation of one sequence *)

Lemma pad_front_loop_Ok k m v t p :
  pad_item m v = Ok p ->
  pad_front_loop k m v t = Ok (t ++ replicate k p).
Proof.
  intros Hp. revert t. induction k as [|k IH]; intros t; simpl.
  - by rewrite app_nil_r.
  - rewrite Hp. simpl. rewrite IH. by rewrite <-app_assoc.
Qed.

Lemma pad_front_loop_Raise k m v t e :
  pad_item m v = Raise e -> (0 < k)%nat ->
  pad_front_loop k m v t = Raise e.
Proof. intros Hp Hk. destruct k; [lia|]. simpl. by rewrite Hp. Qed.

(** The first row of a list does not change when the list grows. *)
Lemma pad_item_grows m l p q :
  pad_item m (Lst l) = Ok p -> pad_item m (Lst (l ++ [q])) = Ok p.
Proof.
  unfold pad_item. case_decide; [done|]. simpl. unfold index.
  destruct l as [|e l]; simpl; [discriminate|done].
Qed.

Lemma pad_back_loop_Ok k m l p :
  pad_item m (Lst l) = Ok p ->
  pad_back_loop k m (Lst l) = Ok (Lst (l ++ replicate k p)).
Proof.
  revert l. induction k as [|k IH]; intros l Hp; simpl.
  - by rewrite app_nil_r.
  - rewrite Hp. simpl. rewrite (IH _ (pad_item_grows _ _ _ _ Hp)).
    by rewrite <-app_assoc.
Qed.

Lemma pad_back_loop_Raise k m l e :
  pad_item m (Lst l) = Raise e -> (0 < k)%nat ->
  pad_back_loop k m (Lst l) = Raise e.
Proof. intros Hp Hk. destruct k; [lia|]. simpl. by rewrite Hp. Qed.

(** An array cannot be padded at the back: it has no [append]. *)
Lemma pad_back_loop_array k m a :
  (0 < k)%nat -> exists e, pad_back_loop k m (Arr a) = Raise e.
Proof.
  intros Hk. destruct k; [lia|]. simpl.
  destruct (pad_item m (Arr a)); simpl; eauto.
Qed.

Lemma len_Lst l : len (Lst l) = length l.
Proof. reflexivity. Qed.

(** The four ways [normalize_one] returns. *)
Lemma normalize_one_Ok o m v v' :
  normalize_one o m v = Ok v' ->
  let n := Z.of_nat (len v) in
  (max_length o < n /\
   v' = Lst (drop (Z.to_nat (n - max_length o)) (items v))) \/
  (n < max_length o /\ pad_front o = true /\
   exists p, pad_item m v = Ok p /\
     iadd (replicate (Z.to_nat (max_length o - n)) p) v = Ok v') \/
  (n < max_length o /\ pad_front o = false /\ pad_back o = true /\
   exists l p, v = Lst l /\ pad_item m v = Ok p /\
     v' = Lst (l ++ replicate (Z.to_nat (max_length o - n)) p)) \/
  ((n = max_length o \/
    (n < max_length o /\ pad_front o = false /\ pad_back o = false)) /\
   v' = v).
Proof.
  unfold normalize_one. intros H. set (n := Z.of_nat (len v)) in *.
  destruct (max_length o <? n) eqn:Hgt.
  { left. apply Z.ltb_lt in Hgt. inversion H. auto. }
  apply Z.ltb_ge in Hgt. right.
  destruct (n <? max_length o) eqn:Hlt; simpl in H.
  2:{ apply Z.ltb_ge in Hlt. right. right. inversion H; subst.
      split; [left; lia|done]. }
  apply Z.ltb_lt in Hlt.
  assert (Hk : (0 < Z.to_nat (max_length o - n))%nat) by lia.
  destruct (pad_front o) eqn:Hpf.
  { left. repeat split; auto.
    destruct (pad_item m v) as [p|e] eqn:Hp.
    - rewrite (pad_front_loop_Ok _ _ _ _ p Hp) in H. simpl in H. eauto.
    - by rewrite (pad_front_loop_Raise _ _ _ _ e Hp Hk) in H. }
  right. destruct (pad_back o) eqn:Hpb.
  - left. repeat split; auto. destruct v as [a|l].
    + destruct (pad_back_loop_array _ m a Hk) as [e He]. congruence.
    + destruct (pad_item m (Lst l)) as [p|e] eqn:Hp.
      * rewrite (pad_back_loop_Ok _ _ _ p Hp) in H. inversion H. eauto.
      * by rewrite (pad_back_loop_Raise _ _ _ e Hp Hk) in H.
  - right. inversion H; subst. auto.
Qed.

Lemma normalize_one_len o m v v' :
  0 < max_length o ->
  padded_at_front_is_list o v ->
  normalize_one o m v = Ok v' ->
  Z.of_nat (len v') = normalized_length o (Z.of_nat (len v)).
Proof.
  intros Hmax Hlist H. unfold normalized_length.
  destruct (normalize_one_Ok _ _ _ _ H)
    as [[Hgt ->]|[(Hlt & Hpf & p & _ & Hadd)|
        [(Hlt & Hpf & Hpb & l & p & -> & _ & ->)|[Hcase ->]]]].
  - rewrite len_Lst, length_drop.
    rewrite (proj2 (Z.ltb_ge _ _)) by lia.
    unfold len in *. simpl. lia.
  - destruct (Hlist Hpf Hlt) as [l ->]. simpl in Hadd. injection Hadd as <-.
    rewrite Hpf. simpl. rewrite andb_false_r.
    rewrite !len_Lst, length_app, length_replicate.
    rewrite len_Lst in Hlt. lia.
  - rewrite Hpf, Hpb. simpl. rewrite andb_false_r.
    rewrite !len_Lst, length_app, length_replicate. rewrite len_Lst in Hlt. lia.
  - destruct Hcase as [Heq|(Hlt & -> & ->)].
    + rewrite (proj2 (Z.ltb_ge _ _)) by lia. simpl. lia.
    + simpl. rewrite andb_true_r.
      by rewrite (proj2 (Z.ltb_lt _ _)) by lia.
Qed.

(** With [pad_front], a short sequence is padded whenever a padding row
    can be made: always for the text, and for another modality when the
    sequence has a first row; a sequence of no rows has none to take the
    shape from. *)
Lemma normalize_one_pad_front o m l :
  pad_front o = true -> Z.of_nat (length l) < max_length o ->
  let k := Z.to_nat (max_length o - Z.of_nat (length l)) in
  (m = "text" ->
   normalize_one o m (Lst l) = Ok (Lst (replicate k (Word PAD) ++ l))) /\
  (m ≠ "text" -> forall r0 rest, l = Row r0 :: rest ->
   normalize_one o m (Lst l) = Ok (Lst (replicate k (Row (zeros_like r0)) ++ l))) /\
  (m ≠ "text" -> l = [] -> normalize_one o m (Lst l) = Raise IndexError).
Proof.
  intros Hpf Hlt k. unfold normalize_one. rewrite len_Lst.
  rewrite (proj2 (Z.ltb_ge _ _)) by lia.
  rewrite (proj2 (Z.ltb_lt _ _) Hlt), Hpf. simpl. fold k.
  split; [|split].
  - intros ->.
    rewrite (pad_front_loop_Ok k "text" (Lst l) [] (Word PAD)); [done|].
    unfold pad_item. by rewrite decide_True.
  - intros Hm r0 rest Hv.
    rewrite (pad_front_loop_Ok k m (Lst l) [] (Row (zeros_like r0))); [done|].
    unfold pad_item. rewrite decide_False by done. by rewrite Hv.
  - intros Hm Hv.
    rewrite (pad_front_loop_Raise k m (Lst l) [] IndexError); [done| |lia].
    unfold pad_item. rewrite decide_False by done. by rewrite Hv.
Qed.

(** [np.asarray] keeps the rows. *)
Lemma mapM_row_of l a : mapM_result row_of l = Ok a -> Row <$> a = l.
Proof.
  revert a. induction l as [|e l IH]; intros a H; simpl in H.
  - by inversion H.
  - inv_bind H. inv_bind H. inversion H; subst.
    destruct e as [s|r]; [discriminate|]. inversion Ha; subst.
    simpl. f_equal. auto.
Qed.

Lemma asarray_items v v' : asarray v = Ok v' -> items v' = items v.
Proof.
  destruct v as [a|l]; simpl; intros H.
  - by inversion H.
  - inv_bind H. inversion H; subst. simpl. by apply mapM_row_of.
Qed.

(** ** The sequences of an emitted record *)

Lemma normalize_lengths_lookup o mods mods' m :
  0 < max_length o -> NoDup (modalities o) ->
  normalize_lengths o mods = Ok mods' ->
  m ∈ modalities o ->
  exists v v1,
    mods !! m = Some v /\ normalize_one o m v = Ok v1 /\ mods' !! m = Some v1.
Proof.
  intros Hmax Hnd H Hm. unfold normalize_lengths in H.
  rewrite (proj2 (Z.ltb_lt _ _) Hmax) in H.
  eapply (foldM_rebind (normalize_one o)) in H as [Hin _]; [eauto| |done].
  clear. intros d m d' H. inv_bind H. inv_bind H. inversion H; subst.
  unfold getitem in Ha. destruct (d !! m) as [v|] eqn:Hv; [|done].
  inversion Ha; subst. eauto.
Qed.

Lemma emitted_sequences_lookup o mods mods' m :
  0 < max_length o -> NoDup (modalities o) ->
  emitted_sequences o mods = Ok mods' ->
  m ∈ modalities o ->
  exists v v1 v',
    mods !! m = Some v /\ normalize_one o m v = Ok v1 /\
    mods' !! m = Some v' /\ items v' = items v1 /\
    (m = "text" -> v' = v1) /\ (m ≠ "text" -> asarray v1 = Ok v').
Proof.
  intros Hmax Hnd H Hm. unfold emitted_sequences in H. inv_bind H.
  destruct (normalize_lengths_lookup _ _ _ _ Hmax Hnd Ha Hm)
    as (v & v1 & Hv & Hn & Hv1).
  pose proof (update_non_text_lookup _ _ _ _ _ _ Hnd H Hv1) as Hu.
  exists v, v1. case_decide as Hc.
  - destruct Hu as (v' & Has & Hv'). exists v'. repeat split; auto.
    + by apply asarray_items.
    + intros ->. by destruct Hc.
  - exists v1. repeat split; auto. intros Hne. exfalso. auto.
Qed.

(** ** Removing the pauses *)

Lemma without_length {X Y : Type} sp_idx i0 (a : list X) (b : list Y) :
  length a = length b ->
  length (without sp_idx i0 a) = length (without sp_idx i0 b).
Proof.
  revert i0 b. induction a as [|x a IH]; intros i0 [|y b] Hlen;
    simpl in *; try done.
  case_decide; simpl; auto.
Qed.

Lemma pause_positions_spec i0 text sp_idx :
  pause_positions i0 text = Ok sp_idx ->
  exists ws,
    mapM_result word_of text = Ok ws /\
    (forall i, i ∈ sp_idx <->
       exists j, i = (i0 + j)%nat /\ ws !! j = Some "sp").
Proof.
  revert i0 sp_idx. induction text as [|w text IH]; intros i0 sp_idx H;
    simpl in H.
  - inversion H; subst. exists []. split; [done|]. intros i. split.
    + intros Hi. inversion Hi.
    + intros (j & _ & Hj). by rewrite lookup_nil in Hj.
  - inv_bind H. rename a into word. inv_bind H. rename a into idx.
    inversion H; subst. clear H.
    destruct (IH _ _ Ha0) as (ws & Hws & Hidx).
    exists (word :: ws). split; [by rewrite mapM_result_cons, Ha, Hws|].
    intros i. case_decide as Hsp.
    + rewrite elem_of_cons, Hidx. split.
      * intros [->|(j & -> & Hj)].
        -- exists 0%nat. split; [lia|]. by rewrite Hsp.
        -- exists (S j). split; [lia|done].
      * intros ([|j] & -> & Hj).
        -- left. lia.
        -- right. exists j. split; [lia|done].
    + rewrite Hidx. split.
      * intros (j & -> & Hj). exists (S j). split; [lia|done].
      * intros ([|j] & -> & Hj).
        -- simpl in Hj. congruence.
        -- exists j. split; [lia|done].
Qed.

(** What is left of the words holds no "sp". *)
Lemma without_pauses_no_sp sp_idx i0 (ws : list string) :
  (forall j, ws !! j = Some "sp" -> (i0 + j)%nat ∈ sp_idx) ->
  "sp" ∉ without sp_idx i0 ws.
Proof.
  revert i0. induction ws as [|w ws IH]; intros i0 Hsp; simpl.
  - apply not_elem_of_nil.
  - assert (Hrest : "sp" ∉ without sp_idx (S i0) ws).
    { apply IH. intros j Hj. specialize (Hsp (S j) Hj).
      by replace (S i0 + j)%nat with (i0 + S j)%nat by lia. }
    case_decide as Hi0; [done|].
    apply not_elem_of_cons. split; [|done].
    intros <-. apply Hi0. specialize (Hsp 0%nat eq_refl).
    by rewrite Nat.add_0_r in Hsp.
Qed.

Lemma keep_rows_non_text m sp_idx i0 a out :
  m ≠ "text" ->
  keep_rows m sp_idx i0 a out = Ok (out ++ (Row <$> without sp_idx i0 a)).
Proof.
  intros Hm. revert i0 out. induction a as [|r a IH]; intros i0 out; simpl.
  - by rewrite app_nil_r.
  - case_decide; [apply IH|].
    rewrite decide_False by done. simpl. rewrite IH.
    by rewrite <-app_assoc.
Qed.

Lemma keep_rows_text sp_idx i0 a out ws :
  mapM_result word_of a = Ok ws ->
  keep_rows "text" sp_idx i0 a out
    = Ok (out ++ (Word <$> without sp_idx i0 ws)).
Proof.
  revert i0 out ws. induction a as [|r a IH]; intros i0 out ws H.
  - inversion H; subst. simpl. by rewrite app_nil_r.
  - rewrite mapM_result_cons in H. inv_bind H. inv_bind H.
    inversion H; subst. clear H. simpl.
    case_decide; [by apply IH|].
    rewrite Ha. simpl. rewrite (IH _ _ _ Ha0). by rewrite <-app_assoc.
Qed.

Lemma lookup_fresh_lists {X : Type} (ms : list string) m :
  m ∈ ms ->
  (list_to_map ((fun k => (k, @nil X)) <$> ms) : gmap string (list X)) !! m
    = Some [].
Proof.
  intros Hm. apply elem_of_list_to_map_1'.
  - intros y Hy. apply list_elem_of_fmap in Hy as (k & Hk & _). congruence.
  - apply list_elem_of_fmap. eauto.
Qed.

Lemma drop_pauses_lookup ms sp_idx (g : gmap string ndarray) mods_nosp m :
  NoDup ms ->
  drop_pauses ms sp_idx g = Ok mods_nosp ->
  m ∈ ms ->
  exists a out,
    g !! m = Some a /\ keep_rows m sp_idx 0 a [] = Ok out /\
    mods_nosp !! m = Some out.
Proof.
  intros Hnd H Hm. unfold drop_pauses in H.
  eapply (foldM_rebind
            (fun m out => let! a := getitem g m in keep_rows m sp_idx 0 a out))
    in H as [Hin _]; [|clear|done].
  - destruct (Hin m Hm) as (out0 & out & Hout0 & HF & Hout).
    rewrite lookup_fresh_lists in Hout0 by done. inversion Hout0; subst out0.
    inv_bind HF. unfold getitem in Ha.
    destruct (g !! m) as [a'|] eqn:Hg; [|done]. inversion Ha; subst. eauto.
  - intros d k d' H. inv_bind H. inv_bind H. inv_bind H. inversion H; subst.
    unfold getitem in Ha0. destruct (d !! k) as [out|] eqn:Hd; [|done].
    inversion Ha0; subst. exists a0, a1. repeat split; auto.
    by rewrite Ha.
Qed.

Lemma handle_pauses_remove o g mods :
  "text" ∈ modalities o -> remove_pauses o = true -> NoDup (modalities o) ->
  handle_pauses o g = Ok mods ->
  exists text sp_idx ws,
    g !! "text" = Some text /\
    pause_positions 0 text = Ok sp_idx /\
    mapM_result word_of text = Ok ws /\
    (forall i, i ∈ sp_idx <-> ws !! i = Some "sp") /\
    mods !! "text" = Some (Lst (Word <$> without sp_idx 0 ws)) /\
    (forall m, m ∈ modalities o -> m ≠ "text" ->
       exists a, g !! m = Some a /\
         mods !! m = Some (Lst (Row <$> without sp_idx 0 a))).
Proof.
  intros Htext Hrm Hnd H. unfold handle_pauses in H.
  rewrite decide_True in H by done. rewrite Hrm in H.
  inv_bind H. rename a into text. inv_bind H. rename a into sp_idx.
  inv_bind H. rename a into mods_nosp. inversion H; subst. clear H.
  unfold getitem in Ha. destruct (g !! "text") as [text'|] eqn:Hg; [|done].
  inversion Ha; subst text'. clear Ha.
  destruct (pause_positions_spec _ _ _ Ha0) as (ws & Hws & Hidx).
  exists text, sp_idx, ws. repeat split; auto.
  - rewrite Hidx. intros (j & -> & Hj). done.
  - intros Hi. apply Hidx. eauto.
  - destruct (drop_pauses_lookup _ _ _ _ "text" Hnd Ha1 Htext)
      as (a & out & Hga & Hk & Hout).
    assert (a = text) as -> by congruence.
    rewrite (keep_rows_text _ _ _ _ ws Hws) in Hk. inversion Hk; subst.
    by rewrite lookup_fmap, Hout.
  - intros m Hm Hne.
    destruct (drop_pauses_lookup _ _ _ _ m Hnd Ha1 Hm)
      as (a & out & Hga & Hk & Hout).
    rewrite keep_rows_non_text in Hk by done. inversion Hk; subst.
    exists a. split; [done|]. by rewrite lookup_fmap, Hout.
Qed.

Lemma normalize_lengths_lookup_any o mods mods' m v :
  NoDup (modalities o) ->
  normalize_lengths o mods = Ok mods' ->
  m ∈ modalities o -> mods !! m = Some v ->
  exists v1,
    (if 0 <? max_length o then normalize_one o m v else Ok v) = Ok v1 /\
    mods' !! m = Some v1.
Proof.
  intros Hnd H Hm Hv. destruct (0 <? max_length o) eqn:Hmax.
  - apply Z.ltb_lt in Hmax.
    destruct (normalize_lengths_lookup _ _ _ _ Hmax Hnd H Hm)
      as (w & v1 & Hw & Hn & Hv1).
    assert (w = v) as -> by congruence. eauto.
  - unfold normalize_lengths in H. rewrite Hmax in H. inversion H; subst. eauto.
Qed.

Lemma emitted_sequences_lookup_any o mods mods' m v :
  NoDup (modalities o) ->
  emitted_sequences o mods = Ok mods' ->
  m ∈ modalities o -> mods !! m = Some v ->
  exists v1 v',
    (if 0 <? max_length o then normalize_one o m v else Ok v) = Ok v1 /\
    mods' !! m = Some v' /\ items v' = items v1 /\
    (m = "text" -> v' = v1).
Proof.
  intros Hnd H Hm Hv. unfold emitted_sequences in H. inv_bind H.
  destruct (normalize_lengths_lookup_any _ _ _ _ _ Hnd Ha Hm Hv)
    as (v1 & Hn & Hv1).
  pose proof (update_non_text_lookup _ _ _ _ _ _ Hnd H Hv1) as Hu.
  exists v1. case_decide as Hc.
  - destruct Hu as (v' & Has & Hv'). exists v'. repeat split; auto.
    + by apply asarray_items.
    + intros ->. by destruct Hc.
  - exists v1. repeat split; auto.
Qed.

(** The length of an emitted sequence is a function of the length of the
    cleaned one. *)
Lemma emitted_len o m v v1 :
  padded_at_front_is_list o v ->
  (if 0 <? max_length o then normalize_one o m v else Ok v) = Ok v1 ->
  Z.of_nat (len v1) =
    if 0 <? max_length o then normalized_length o (Z.of_nat (len v))
    else Z.of_nat (len v).
Proof.
  intros Hlist. destruct (0 <? max_length o) eqn:Hmax; intros H.
  - apply Z.ltb_lt in Hmax. by apply (normalize_one_len o m).
  - by inversion H.
Qed.

(** Normalising a list of words brings in nothing but the PAD token. *)
Lemma normalize_text_words o l v1 w :
  normalize_one o "text" (Lst l) = Ok v1 ->
  exists l1, v1 = Lst l1 /\ (w ∈ l1 -> w ∈ l \/ w = Word PAD).
Proof.
  intros H.
  assert (Hpad : forall p, pad_item "text" (Lst l) = Ok p -> p = Word PAD).
  { unfold pad_item. rewrite decide_True by done. by inversion 1. }
  destruct (normalize_one_Ok _ _ _ _ H)
    as [[_ ->]|[(_ & _ & p & Hp & [= <-])|
        [(_ & _ & _ & l' & p & Hl & Hp & ->)|[_ ->]]]]; eexists; (split; [done|]).
  - intros Hw. left. by apply (subseteq_drop _ _ _ Hw).
  - simpl. rewrite elem_of_app. intros [Hw|Hw]; [|by left].
    apply elem_of_replicate_inv in Hw as ->. right. by apply Hpad.
  - inversion Hl; subst l'. rewrite elem_of_app. intros [Hw|Hw]; [by left|].
    apply elem_of_replicate_inv in Hw as ->. right. by apply Hpad.
  - by left.
Qed.

(** The arrays of a segment that passed the shape check are of one length,
    also after [np.nan_to_num]. *)
Lemma length_nan_to_num a : length (nan_to_num a) = length a.
Proof. unfold nan_to_num. by rewrite length_map. Qed.

Lemma checked_lengths_agree ms (g0 g : gmap string ndarray) m1 m2 a1 a2 :
  NoDup ms ->
  shapes_agree (length <$> g0) = true ->
  update_non_text (fun a => Ok (nan_to_num a)) ms g0 = Ok g ->
  g !! m1 = Some a1 -> g !! m2 = Some a2 ->
  length a1 = length a2.
Proof.
  intros Hnd Hsh Hu H1 H2.
  assert (Hback : forall m a, g !! m = Some a ->
            exists a0, g0 !! m = Some a0 /\ length a0 = length a).
  { intros m a Hm. destruct (g0 !! m) as [a0|] eqn:Hg0.
    - exists a0. split; [done|].
      pose proof (update_non_text_lookup _ _ _ _ _ _ Hnd Hu Hg0) as Hl.
      case_decide.
      + destruct Hl as (a' & Ha' & Hga'). inversion Ha'; subst a'.
        assert (a = nan_to_num a0) as -> by congruence.
        by rewrite length_nan_to_num.
      + congruence.
    - rewrite (update_non_text_None _ _ _ _ _ Hu Hg0) in Hm. done. }
  destruct (Hback _ _ H1) as (b1 & Hb1 & <-).
  destruct (Hback _ _ H2) as (b2 & Hb2 & <-).
  eapply shapes_agree_true; [exact Hsh| |]; rewrite lookup_fmap.
  - by rewrite Hb1.
  - by rewrite Hb2.
Qed.

(** After the pauses were removed, every sequence is a list. *)
Lemma kept_lists o d data entry vid label mods m v :
  clean_segment o d data entry = Ok (Kept vid label mods) ->
  "text" ∈ modalities o -> remove_pauses o = true ->
  NoDup (modalities o) -> m ∈ modalities o ->
  mods !! m = Some v -> exists l, v = Lst l.
Proof.
  intros Hc Htext Hrm Hnd Hm Hv.
  apply clean_segment_Kept in Hc as (g0 & g & _ & _ & _ & _ & _ & _ & Hh).
  destruct (handle_pauses_remove _ _ _ Htext Hrm Hnd Hh)
    as (text & sp_idx & ws & _ & _ & _ & _ & Hmt & Hmo).
  destruct (decide (m = "text")) as [->|Hne].
  - rewrite Hmt in Hv. injection Hv as <-. eauto.
  - destruct (Hmo m Hm Hne) as (a & _ & Hma).
    rewrite Hma in Hv. injection Hv as <-. eauto.
Qed.

(** C2, amended.  With a positive [max_length], let a record of the
    three splits be given and a requested modality.  The record was
    emitted for a segment of the label sequence, and against the sequence
    [v] of the modality that entered length normalisation its sequence
    [v'] has [max_length] rows when [v] had at least that many, when [v]
    was shorter and is padded at the back, and when [v] was shorter, is a
    list and is padded at the front; it has the rows of [v] when [v] was
    shorter and no pad flag is set.  Unless [pad_front] meets a shorter
    sequence that is an array, [v'] has at most [max_length] rows.  Every
    sequence is a list when the text is requested and the pauses are
    removed. *)
Theorem emitted_rows_bounded_by_max_length o data tr dv te lg r m :
  clean_split_dataset o data = Ok (tr, dv, te, lg) ->
  r ∈ tr ++ dv ++ te ->
  NoDup (modalities o) ->
  0 < max_length o ->
  m ∈ modalities o -> m ∉ reserved_keys ->
  exists d labels entry vid label mods v v',
    select_dataset (dataset o) = Ok d /\
    label_sequence d data = Ok labels /\
    entry ∈ labels /\
    process_segment o d data entry = Ok (Emitted vid r) /\
    clean_segment o d data entry = Ok (Kept vid label mods) /\
    mods !! m = Some v /\
    r !! m = Some (VSeq v') /\
    (max_length o <= Z.of_nat (len v) -> Z.of_nat (len v') = max_length o) /\
    (Z.of_nat (len v) < max_length o ->
     pad_front o = false -> pad_back o = true ->
     Z.of_nat (len v') = max_length o) /\
    (Z.of_nat (len v) < max_length o ->
     pad_front o = true -> (exists l, v = Lst l) ->
     Z.of_nat (len v') = max_length o) /\
    (Z.of_nat (len v) < max_length o ->
     pad_front o = false -> pad_back o = false -> len v' = len v) /\
    (padded_at_front_is_list o v -> Z.of_nat (len v') <= max_length o) /\
    ("text" ∈ modalities o -> remove_pauses o = true -> exists l, v = Lst l).
Proof.
  intros Hrun Hr Hnd Hmax Hm Hres.
  pose proof Hrun as Hrun'.
  apply clean_split_dataset_Ok in Hrun'
    as (d & labels & st & n & Hd & Hl & _).
  destruct (split_records_emitted o data d labels tr dv te lg r Hrun Hd Hl Hr)
    as (entry & vid & Hentry & Hp).
  pose proof Hp as Hp0.
  apply process_segment_Emitted in Hp as (label & mods & mods' & Hc & He & ->).
  destruct (emitted_sequences_lookup _ _ _ _ Hmax Hnd He Hm)
    as (v & v1 & v' & Hv & Hn & Hv' & Hitems & _).
  assert (Hlen : padded_at_front_is_list o v ->
            Z.of_nat (len v') = normalized_length o (Z.of_nat (len v))).
  { intros Hlist. unfold len at 1. rewrite Hitems.
    by apply (normalize_one_len o m). }
  unfold normalized_length in Hlen.
  exists d, labels, entry, vid, label, mods, v, v'.
  split; [done|]. split; [done|]. split; [done|]. split; [done|].
  split; [done|]. split; [done|].
  split; [by rewrite make_record_modality, Hv'|].
  split; [|split; [|split; [|split; [|split]]]].
  - intros Hge. rewrite Hlen; [|intros _ ?; lia].
    by rewrite (proj2 (Z.ltb_ge _ _) Hge).
  - intros Hlt Hpf Hpb. rewrite Hlen; [|intros ? _; congruence].
    by rewrite Hpf, Hpb, andb_false_r.
  - intros Hlt Hpf Hlist. rewrite Hlen; [|intros _ _; done].
    by rewrite Hpf, andb_false_r.
  - intros Hlt Hpf Hpb. apply Nat2Z.inj.
    rewrite Hlen; [|intros ? _; congruence].
    by rewrite (proj2 (Z.ltb_lt _ _) Hlt), Hpf, Hpb.
  - intros Hlist. rewrite (Hlen Hlist).
    destruct ((Z.of_nat (len v) <? max_length o)
              && negb (pad_front o || pad_back o)) eqn:E; [|lia].
    apply andb_true_iff in E as [E _]. apply Z.ltb_lt in E. lia.
  - intros Htext Hrm.
    exact (kept_lists _ _ _ _ _ _ _ _ _ Hc Htext Hrm Hnd Hm Hv).
Qed.

(** X24.  Let a record be emitted for a segment, with a positive
    [max_length] and [pad_front] set, and let a requested modality enter
    length normalisation as a list of fewer than [max_length] items.
    Then its emitted sequence is these items, in their order, after
    [max_length] minus that many copies of a padding item: the PAD token
    for the text, and otherwise zeros of the shape of the first row. *)
Theorem pad_front_of_a_list_keeps_rows_last
    o d data entry vid r vid' label mods m l :
  process_segment o d data entry = Ok (Emitted vid r) ->
  clean_segment o d data entry = Ok (Kept vid' label mods) ->
  mods !! m = Some (Lst l) ->
  NoDup (modalities o) ->
  m ∈ modalities o -> m ∉ reserved_keys ->
  0 < max_length o ->
  pad_front o = true ->
  Z.of_nat (length l) < max_length o ->
  exists v' p,
    r !! m = Some (VSeq v') /\
    len v' = Z.to_nat (max_length o) /\
    items v' = replicate (Z.to_nat (max_length o) - length l) p ++ l /\
    drop (Z.to_nat (max_length o) - length l) (items v') = l /\
    (m = "text" /\ p = Word PAD \/
     m ≠ "text" /\ exists r0,
       l !! 0%nat = Some (Row r0) /\
       p = Row (replicate (length r0) (CNum zero))).
Proof.
  intros Hp Hc Hv Hnd Hm Hres Hmax Hpf Hlt.
  apply process_segment_Emitted in Hp as (label1 & mods1 & mods' & Hc1 & He & ->).
  assert (mods1 = mods) as -> by congruence.
  destruct (emitted_sequences_lookup _ _ _ _ Hmax Hnd He Hm)
    as (w & v1 & v' & Hw & Hn & Hv' & Hitems & _).
  assert (w = Lst l) as -> by congruence.
  destruct (normalize_one_Ok _ _ _ _ Hn)
    as [[Hgt _]|[(_ & _ & p & Hpad & Hadd)|
        [(_ & Hpf' & _)|[[Heq|(_ & Hpf' & _)] _]]]];
    rewrite ?len_Lst in *; try lia; try congruence.
  simpl in Hadd. injection Hadd as <-.
  assert (Hk : Z.to_nat (max_length o - Z.of_nat (length l))
               = (Z.to_nat (max_length o) - length l)%nat) by lia.
  rewrite Hk in Hitems. simpl in Hitems.
  exists v', p. split; [by rewrite make_record_modality, Hv'|].
  split; [unfold len in *; rewrite Hitems, length_app, length_replicate; lia|].
  split; [done|]. split.
  { rewrite Hitems. rewrite drop_app_length'; [done|].
    by rewrite length_replicate. }
  unfold pad_item in Hpad. case_decide as Htext.
  - left. by inversion Hpad.
  - right. split; [done|]. inv_bind Hpad. unfold index in Ha. simpl in Ha.
    destruct (l !! 0%nat) as [e|] eqn:He0; [|done].
    inversion Ha; subst a. destruct e as [s|r0]; [done|].
    inversion Hpad. eauto.
Qed.

(** C4.  With [remove_pauses] set and the text requested, the text of
    every record of the three splits is a list that does not hold the
    word "sp", and any two requested modalities of the record have
    sequences of one length.  The record is the one emitted for a segment
    of the label sequence whose cleaned sequences are the rows of its
    arrays without those at the positions of the words "sp", the same
    positions for every requested modality. *)
Theorem pauses_are_removed_in_step o data tr dv te lg r :
  clean_split_dataset o data = Ok (tr, dv, te, lg) ->
  r ∈ tr ++ dv ++ te ->
  remove_pauses o = true ->
  "text" ∈ modalities o ->
  NoDup (modalities o) ->
  PAD ≠ "sp" ->
  (exists l, r !! "text" = Some (VSeq (Lst l)) /\ Word "sp" ∉ l) /\
  (forall m1 m2,
     m1 ∈ modalities o -> m2 ∈ modalities o ->
     m1 ∉ reserved_keys -> m2 ∉ reserved_keys ->
     exists v1 v2,
       r !! m1 = Some (VSeq v1) /\ r !! m2 = Some (VSeq v2) /\
       len v1 = len v2) /\
  (exists d labels entry vid label g0 g mods text sp_idx ws,
     select_dataset (dataset o) = Ok d /\
     label_sequence d data = Ok labels /\
     entry ∈ labels /\
     process_segment o d data entry = Ok (Emitted vid r) /\
     gather d data (modalities o) entry.1 = Ok g0 /\
     update_non_text (fun a => Ok (nan_to_num a)) (modalities o) g0 = Ok g /\
     clean_segment o d data entry = Ok (Kept vid label mods) /\
     g !! "text" = Some text /\
     mapM_result word_of text = Ok ws /\
     (forall i, i ∈ sp_idx <-> ws !! i = Some "sp") /\
     mods !! "text" = Some (Lst (Word <$> without sp_idx 0 ws)) /\
     (forall m, m ∈ modalities o -> m ≠ "text" ->
        exists a, g !! m = Some a /\
          mods !! m = Some (Lst (Row <$> without sp_idx 0 a)))).
Proof.
  intros Hrun Hr Hrm Htext Hnd Hpad.
  pose proof Hrun as Hrun'.
  apply clean_split_dataset_Ok in Hrun'
    as (d & labels & st & n & Hd & Hl & _).
  destruct (split_records_emitted o data d labels tr dv te lg r Hrun Hd Hl Hr)
    as (entry & vid & Hentry & Hp).
  pose proof Hp as Hp0.
  apply process_segment_Emitted in Hp as (label & mods & mods' & Hc & He & ->).
  pose proof Hc as Hc'.
  apply clean_segment_Kept in Hc'
    as (g0 & g & _ & _ & _ & Hg0 & Hsh & Hg & Hh).
  destruct (handle_pauses_remove _ _ _ Htext Hrm Hnd Hh)
    as (text & sp_idx & ws & Hgt & Hsp & Hws & Hidx & Hmt & Hmo).
  (* every cleaned sequence is a list of one common length *)
  assert (Hclean : forall m, m ∈ modalities o ->
            exists l, mods !! m = Some (Lst l) /\
              length l = length (without sp_idx 0 text)).
  { intros m Hm. destruct (decide (m = "text")) as [->|Hne].
    - eexists. split; [exact Hmt|]. rewrite length_fmap.
      apply without_length. by apply mapM_result_length in Hws.
    - destruct (Hmo m Hm Hne) as (a & Ha & Hma).
      eexists. split; [exact Hma|]. rewrite length_fmap.
      apply without_length.
      by apply (checked_lengths_agree _ _ _ _ _ _ _ Hnd Hsh Hg Ha Hgt). }
  split; [|split].
  - destruct (emitted_sequences_lookup_any _ _ _ _ _ Hnd He Htext Hmt)
      as (v1 & v' & Hn & Hv' & _ & Heq).
    rewrite (Heq eq_refl) in Hv'. clear Heq.
    assert (Hno : Word "sp" ∉ Word <$> without sp_idx 0 ws).
    { intros Hin. apply list_elem_of_fmap in Hin as (w & Hw & Hin).
      inversion Hw; subst w. revert Hin. apply without_pauses_no_sp.
      intros j Hj. by apply Hidx. }
    assert (Hrec : forall l1, mods' !! "text" = Some (Lst l1) ->
              make_record mods' vid entry.1 label !! "text"
                = Some (VSeq (Lst l1))).
    { intros l1 Hl1. rewrite make_record_modality, Hl1; [done|].
      unfold reserved_keys. rewrite !elem_of_cons, elem_of_nil.
      intros [?|[?|[?|[]]]]; discriminate. }
    destruct (0 <? max_length o).
    + destruct (normalize_text_words _ _ _ (Word "sp") Hn) as (l1 & -> & Hsub).
      exists l1. split; [by apply Hrec|].
      intros Hin. destruct (Hsub Hin) as [?|Heq]; [done|].
      inversion Heq. congruence.
    + inversion Hn; subst v1. eauto.
  - intros m1 m2 Hm1 Hm2 Hr1 Hr2.
    destruct (Hclean m1 Hm1) as (l1 & Hl1 & Hlen1).
    destruct (Hclean m2 Hm2) as (l2 & Hl2 & Hlen2).
    destruct (emitted_sequences_lookup_any _ _ _ _ _ Hnd He Hm1 Hl1)
      as (u1 & v1 & Hn1 & Hv1 & Hi1 & _).
    destruct (emitted_sequences_lookup_any _ _ _ _ _ Hnd He Hm2 Hl2)
      as (u2 & v2 & Hn2 & Hv2 & Hi2 & _).
    exists v1, v2. rewrite !make_record_modality, Hv1, Hv2 by done.
    repeat split.
    apply emitted_len in Hn1, Hn2; try (intros _ _; by eexists).
    assert (len v1 = len u1) as -> by (unfold len; by rewrite Hi1).
    assert (len v2 = len u2) as -> by (unfold len; by rewrite Hi2).
    rewrite !len_Lst, Hlen1 in Hn1. rewrite !len_Lst, Hlen2 in Hn2.
    apply Nat2Z.inj. congruence.
  - exists d, labels, entry, vid, label, g0, g, mods, text, sp_idx, ws.
    repeat split; auto; by apply Hidx.
Qed.

(** ** Keeping the pauses *)


(** A turn of the loop returns only at a pause, where the row is
    overwritten by what numpy stores for the PAUSE token: at any other
    position [append] is called on the array. *)
Lemma mark_pause_Ok sp_idx text i text' :
  mark_pause sp_idx text i = Ok text' ->
  i ∈ sp_idx /\ (i < length text)%nat /\
  exists c, np_store_str text PAUSE = Ok c /\
    text' = alter (map (fun _ => c)) i text.
Proof.
  unfold mark_pause, setitem_str. case_decide as Hi.
  - case_decide as Hlt; [|done]. intros H. inv_bind H. injection H as <-.
    eauto.
  - intros H. inv_bind H. inv_bind H. by inv_bind H.
Qed.


(** ** The vocabulary *)

Lemma foldl_add_word ws (m : gmap string nat) (k : nat) :
  NoDup ws -> (forall w, w ∈ ws -> m !! w = None) ->
  (foldl add_word (m, k) ws).2 = (k + length ws)%nat /\
  (forall i w, ws !! i = Some w ->
     (foldl add_word (m, k) ws).1 !! w = Some (k + i)%nat) /\
  (forall w, w ∉ ws -> (foldl add_word (m, k) ws).1 !! w = m !! w).
Proof.
  revert m k. induction ws as [|w0 ws IH]; intros m k Hnd Hfresh; simpl.
  - split; [lia|]. split; [|done]. intros i w Hi. by rewrite lookup_nil in Hi.
  - apply NoDup_cons in Hnd as [Hw0 Hnd].
    unfold add_word at 2 4 6. simpl. rewrite (Hfresh w0) by (by left).
    destruct (IH (<[w0 := k]> m) (S k) Hnd) as (Hcount & Hin & Hout).
    { intros w Hw. rewrite lookup_insert_ne; [apply Hfresh; by right|].
      by intros ->. }
    split; [rewrite Hcount; lia|]. split.
    + intros [|i] w Hi; simpl in Hi.
      * inversion Hi; subst w. rewrite (Hout w0 Hw0), lookup_insert_eq.
        f_equal. lia.
      * rewrite (Hin i w Hi). f_equal. lia.
    + intros w Hw. apply not_elem_of_cons in Hw as [Hne Hw].
      by rewrite (Hout w Hw), lookup_insert_ne.
Qed.

Lemma foldl_add_special ts (m : gmap string nat) (k : nat) :
  NoDup ts ->
  (foldl add_special (m, k) ts).2 = (k + length ts)%nat /\
  (forall j t, ts !! j = Some t ->
     (foldl add_special (m, k) ts).1 !! t = Some (k + j)%nat) /\
  (forall w, w ∉ ts -> (foldl add_special (m, k) ts).1 !! w = m !! w).
Proof.
  revert m k. induction ts as [|t0 ts IH]; intros m k Hnd; simpl.
  - split; [lia|]. split; [|done]. intros j t Hj. by rewrite lookup_nil in Hj.
  - apply NoDup_cons in Hnd as [Ht0 Hnd].
    unfold add_special at 2 4 6. simpl.
    destruct (IH (<[t0 := k]> m) (S k) Hnd) as (Hcount & Hin & Hout).
    split; [rewrite Hcount; lia|]. split.
    + intros [|j] t Hj; simpl in Hj.
      * inversion Hj; subst t. rewrite (Hout t0 Ht0), lookup_insert_eq.
        f_equal. lia.
      * rewrite (Hin j t Hj). f_equal. lia.
    + intros w Hw. apply not_elem_of_cons in Hw as [Hne Hw].
      by rewrite (Hout w Hw), lookup_insert_ne.
Qed.

Lemma distinct_sorted_spec (all_words : list string) :
  NoDup (distinct_sorted all_words) /\
  Sorted String.le (distinct_sorted all_words) /\
  (forall w, w ∈ distinct_sorted all_words <-> w ∈ all_words).
Proof.
  unfold distinct_sorted, sorted.
  set (ws := elements (list_to_set all_words : gset string)).
  assert (Hperm : merge_sort String.le ws ≡ₚ ws)
    by apply merge_sort_Permutation.
  split; [|split].
  - rewrite Hperm. apply NoDup_elements.
  - apply Sorted_merge_sort. apply _.
  - intros w. rewrite Hperm. unfold ws.
    by rewrite elem_of_elements, elem_of_list_to_set.
Qed.

(** The index of every token: a special token has its place after the
    [n] distinct words, any other word its rank among them. *)
Lemma word2idx_lookup (all_words : list string) :
  NoDup SPECIAL_TOKENS ->
  let ws := distinct_sorted all_words in
  let w2i := word2idx_of all_words in
  (forall j t, SPECIAL_TOKENS !! j = Some t ->
     w2i !! t = Some (length ws + j)%nat) /\
  (forall i w, ws !! i = Some w -> w ∉ SPECIAL_TOKENS -> w2i !! w = Some i) /\
  (forall w, w ∉ SPECIAL_TOKENS -> w ∉ ws -> w2i !! w = None).
Proof.
  intros Hsp ws w2i. unfold w2i, word2idx_of, build_word2idx. fold ws.
  destruct (distinct_sorted_spec all_words) as (Hnd & _ & _). fold ws in Hnd.
  destruct (foldl_add_word ws ∅ 0 Hnd) as (Hcount & Hin & Hout);
    [intros; apply lookup_empty|].
  destruct (foldl add_word (∅, 0%nat) ws) as [m k] eqn:Hfold.
  simpl in Hcount, Hin, Hout. subst k.
  destruct (foldl_add_special SPECIAL_TOKENS m (length ws) Hsp)
    as (_ & Hsin & Hsout).
  split; [exact Hsin|]. split.
  - intros i w Hi Hw. by rewrite (Hsout w Hw), (Hin i w Hi).
  - intros w Hw Hws. by rewrite (Hsout w Hw), (Hout w Hws), lookup_empty.
Qed.

Lemma word2idx_cases (all_words : list string) w i :
  NoDup SPECIAL_TOKENS ->
  word2idx_of all_words !! w = Some i ->
  (exists j, SPECIAL_TOKENS !! j = Some w /\
     i = (length (distinct_sorted all_words) + j)%nat) \/
  ((w ∉ SPECIAL_TOKENS) /\ (distinct_sorted all_words !! i = Some w)).
Proof.
  intros Hsp Hw.
  destruct (word2idx_lookup all_words Hsp) as (Hs & Hc & Hnone).
  destruct (decide (w ∈ SPECIAL_TOKENS)) as [Hin|Hnot].
  - left. apply list_elem_of_lookup_1 in Hin as [j Hj]. exists j.
    split; [done|]. rewrite (Hs j w Hj) in Hw. by inversion Hw.
  - right. split; [done|].
    destruct (decide (w ∈ distinct_sorted all_words)) as [Hin|Hnot'].
    + apply list_elem_of_lookup_1 in Hin as [i' Hi'].
      rewrite (Hc i' w Hi' Hnot) in Hw. by inversion Hw; subst.
    + rewrite (Hnone w Hnot Hnot') in Hw. done.
Qed.

(** The indices that [word2idx] assigns. *)
Lemma word2idx_spec (all_words : list string) :
  NoDup SPECIAL_TOKENS ->
  let ws := distinct_sorted all_words in
  let n := length ws in
  let k := length SPECIAL_TOKENS in
  let w2i := word2idx_of all_words in
  (forall j t, SPECIAL_TOKENS !! j = Some t -> w2i !! t = Some (n + j)%nat) /\
  (forall i w, ws !! i = Some w -> w ∉ SPECIAL_TOKENS -> w2i !! w = Some i) /\
  (forall w i, w2i !! w = Some i ->
     (i < n + k)%nat /\ (w ∈ SPECIAL_TOKENS \/ w ∈ all_words)) /\
  (forall w1 w2 i, w2i !! w1 = Some i -> w2i !! w2 = Some i -> w1 = w2) /\
  ((forall w, w ∈ all_words -> w ∉ SPECIAL_TOKENS) ->
   forall i, (i < n + k)%nat -> exists w, w2i !! w = Some i) /\
  (forall i w, ws !! i = Some w -> w ∈ SPECIAL_TOKENS ->
     forall w', w2i !! w' ≠ Some i).
Proof.
  intros Hsp ws n k w2i.
  destruct (word2idx_lookup all_words Hsp) as (Hs & Hc & Hnone).
  destruct (distinct_sorted_spec all_words) as (Hnd & _ & Hmem).
  fold ws in Hs, Hc, Hnone, Hnd, Hmem. fold w2i in Hs, Hc, Hnone.
  split; [exact Hs|]. split; [exact Hc|]. split; [|split; [|split]].
  - intros w i Hw.
    destruct (word2idx_cases all_words w i Hsp Hw) as [(j & Hj & ->)|[Hn Hi]].
    + split; [apply lookup_lt_Some in Hj; unfold n, k, ws; lia|].
      left. by eapply list_elem_of_lookup_2.
    + split; [apply lookup_lt_Some in Hi; unfold n, k, ws; lia|].
      right. apply Hmem. by eapply list_elem_of_lookup_2.
  - intros w1 w2 i H1 H2.
    destruct (word2idx_cases all_words w1 i Hsp H1) as [(j1 & Hj1 & E1)|[_ Hi1]];
      destruct (word2idx_cases all_words w2 i Hsp H2)
        as [(j2 & Hj2 & E2)|[_ Hi2]].
    + assert (j1 = j2) as -> by lia. congruence.
    + apply lookup_lt_Some in Hi2. lia.
    + apply lookup_lt_Some in Hi1. lia.
    + congruence.
  - intros Hdisj i Hi. destruct (decide (i < n)%nat) as [Hlt|Hge].
    + destruct (lookup_lt_is_Some_2 ws i Hlt) as [w Hw].
      exists w. apply Hc; [done|]. apply Hdisj, Hmem.
      by eapply list_elem_of_lookup_2.
    + destruct (lookup_lt_is_Some_2 SPECIAL_TOKENS (i - n)) as [t Ht];
        [unfold k in Hi; lia|].
      exists t. rewrite (Hs _ _ Ht). f_equal. lia.
  - intros i w Hi Hw w' Hw'.
    destruct (word2idx_cases all_words w' i Hsp Hw')
      as [(j & Hj & ->)|[Hn Hi']].
    + apply lookup_lt_Some in Hi. fold ws in Hi. lia.
    + fold ws in Hi'. congruence.
Qed.

End Facts.

Section CacheFacts.
Context `{env : Env} {np : Numpy} {ext : External}.

(** ** The vocabulary that [load_dataset] returns *)

Lemma load_dataset_Ok base_path dataset_name ms data w2i :
  load_dataset base_path dataset_name ms = Ok (data, w2i) ->
  exists d data0 text_id data1 text all_words,
    select_dataset dataset_name = Ok d /\
    md_mmdataset base_path d ms = Ok data0 /\
    getitem (modality_map d) "text" = Ok text_id /\
    md_align data0 text_id = Ok data1 /\
    getitem data1 text_id = Ok text /\
    collect_words text = Ok all_words /\
    w2i = word2idx_of all_words.
Proof.
  unfold load_dataset. intros H.
  inv_bind H. rename a into d. inv_bind H. clear a Ha0.
  inv_bind H. rename a into data0.
  inv_bind H. rename a into text_id. inv_bind H. rename a into data1.
  inv_bind H. rename a into text. inv_bind H. rename a into all_words.
  inv_bind H. inv_bind H. inv_bind H. inversion H; subst.
  exists d, data0, text_id, data1, text, all_words. auto 10.
Qed.

(** C1, amended.  Let [n] be the number of distinct decoded words of the
    text sequence and [k] the number of special tokens.  The special
    tokens have the indices [n], ..., [n + k - 1] in their declared
    order; a word that is not the string of a special token has its rank
    among the distinct words in lexicographic order as index; no index is
    outside [0, n + k) and no two tokens share one.  When no word is the
    string of a special token, every index below [n + k] is taken; a
    word that is such a string has the index of the special token, and
    its own rank is the index of no token. *)
Theorem vocabulary_indices base_path dataset_name ms data w2i :
  load_dataset base_path dataset_name ms = Ok (data, w2i) ->
  NoDup SPECIAL_TOKENS ->
  exists d text all_words,
    select_dataset dataset_name = Ok d /\
    (exists data0 data1 text_id,
       md_mmdataset base_path d ms = Ok data0 /\
       getitem (modality_map d) "text" = Ok text_id /\
       md_align data0 text_id = Ok data1 /\
       getitem data1 text_id = Ok text) /\
    collect_words text = Ok all_words /\
    let ws := distinct_sorted all_words in
    let n := length ws in
    let k := length SPECIAL_TOKENS in
    NoDup ws /\ Sorted String.le ws /\
    (forall w, w ∈ ws <-> w ∈ all_words) /\
    (forall j t, SPECIAL_TOKENS !! j = Some t -> w2i !! t = Some (n + j)%nat) /\
    (forall i w, ws !! i = Some w -> w ∉ SPECIAL_TOKENS -> w2i !! w = Some i) /\
    (forall w i, w2i !! w = Some i ->
       (i < n + k)%nat /\ (w ∈ SPECIAL_TOKENS \/ w ∈ all_words)) /\
    (forall w1 w2 i, w2i !! w1 = Some i -> w2i !! w2 = Some i -> w1 = w2) /\
    ((forall w, w ∈ all_words -> w ∉ SPECIAL_TOKENS) ->
     forall i, (i < n + k)%nat -> exists w, w2i !! w = Some i) /\
    (forall i w, ws !! i = Some w -> w ∈ SPECIAL_TOKENS ->
       forall w', w2i !! w' ≠ Some i).
Proof.
  intros H Hsp.
  apply load_dataset_Ok in H
    as (d & data0 & text_id & data1 & text & all_words &
        Hd & Hdata0 & Hid & Hdata1 & Htext & Hwords & ->).
  exists d, text, all_words. split; [done|].
  split; [by exists data0, data1, text_id|]. split; [done|].
  destruct (distinct_sorted_spec all_words) as (Hnd & Hsorted & Hmem).
  destruct (word2idx_spec all_words Hsp) as (H1 & H2 & H3 & H4 & H5 & H6).
  simpl. auto 10.
Qed.

(** ** The cache *)

Lemma pickle_round_trip fs r fname fs' :
  (forall r, pickle_loads (pickle_dumps r) = Ok r) ->
  pickle_dump fs r fname = Ok fs' ->
  pickle_load fs' fname = Ok r.
Proof.
  intros Hrt. unfold pickle_dump, pickle_load.
  destruct (open_wb_error fs fname); [discriminate|].
  intros H. inversion H; subst. simpl. by rewrite lookup_insert_eq.
Qed.

Lemma load_splits_miss fs base_path o fname :
  files fs !! fname = None ->
  load_splits fs base_path o (Some fname)
    = compute_and_store fs base_path o (Some fname).
Proof. intros Hf. unfold load_splits, pickle_load. by rewrite Hf. Qed.

(** C7, amended.  What [pickle_dump] stored at a path, [pickle_load] of
    that path gives back.  With no file at the cache path, [load_splits]
    returns or raises what it does without a cache, and leaves the result
    at the cache path, provided the cache file can be opened for writing;
    if it cannot, the error of opening it is raised in place of a computed
    result. *)
Theorem cache_miss_recomputes fs base_path o fname :
  (forall r, pickle_loads (pickle_dumps r) = Ok r) ->
  files fs !! fname = None ->
  (forall r fs', pickle_dump fs r fname = Ok fs' ->
     pickle_load fs' fname = Ok r) /\
  (open_wb_error fs fname = None ->
   (load_splits fs base_path o (Some fname)).1
     = (load_splits fs base_path o None).1 /\
   (forall r, (load_splits fs base_path o None).1 = Ok r ->
      pickle_load (load_splits fs base_path o (Some fname)).2 fname = Ok r)) /\
  (forall e r, open_wb_error fs fname = Some e ->
     (load_splits fs base_path o None).1 = Ok r ->
     (load_splits fs base_path o (Some fname)).1 = Raise e).
Proof.
  intros Hrt Hf. split; [|split].
  - intros r fs'. by apply pickle_round_trip.
  - intros Hw. rewrite load_splits_miss by done.
    unfold load_splits, compute_and_store, pickle_dump. rewrite Hw.
    destruct (compute_splits base_path o) as [r|e]; simpl; [|done].
    split; [done|]. intros r' Hr'. inversion Hr'; subst r'.
    unfold pickle_load. simpl. by rewrite lookup_insert_eq.
  - intros e r Hw. rewrite load_splits_miss by done.
    unfold load_splits, compute_and_store, pickle_dump. rewrite Hw.
    destruct (compute_splits base_path o) as [r'|e']; simpl; [done|].
    discriminate.
Qed.

(** C9.  When the file at the cache path loads, [load_splits] returns
    the loaded value and leaves the file system as it is, whatever the
    base path and the options: two calls that share the cache path
    return the same.  An error of loading other than [FileNotFoundError]
    is raised as it is; only for [FileNotFoundError] the splits are
    computed. *)
Theorem cache_hit_returns_cached fs fname base_path1 o1 base_path2 o2 :
  (forall r, pickle_load fs fname = Ok r ->
     load_splits fs base_path1 o1 (Some fname) = (Ok r, fs) /\
     load_splits fs base_path2 o2 (Some fname) = (Ok r, fs)) /\
  (forall e, pickle_load fs fname = Raise e -> e ≠ FileNotFoundError ->
     load_splits fs base_path1 o1 (Some fname) = (Raise e, fs)) /\
  (pickle_load fs fname = Raise FileNotFoundError ->
     load_splits fs base_path1 o1 (Some fname)
       = compute_and_store fs base_path1 o1 (Some fname)).
Proof.
  unfold load_splits. split; [|split].
  - intros r ->. done.
  - intros e -> Hne. by destruct e.
  - intros ->. done.
Qed.

End CacheFacts.

(** * Further properties *)

Lemma string_app_cons x (a b : string) :
  String x a +:+ b = String x (a +:+ b).
Proof. reflexivity. Qed.

Lemma string_app_assoc (a b c : string) : (a +:+ b) +:+ c = a +:+ (b +:+ c).
Proof.
  induction a as [|x a IH]; [done|]. rewrite !string_app_cons. by f_equal.
Qed.

Lemma split_at_pieces sep s :
  exists pieces name,
    split_at sep s = pieces ++ [name] /\
    has_char sep name = false /\
    s = with_separators sep pieces +:+ name.
Proof.
  induction s as [|c s (pieces & name & Hsplit & Hname & Hs)].
  - by exists [], "".
  - simpl. destruct (Ascii.eqb c sep) eqn:Hc.
    + apply Ascii.eqb_eq in Hc as ->. exists ("" :: pieces), name.
      rewrite Hsplit. split; [done|]. split; [done|].
      simpl. change ("" +:+ ?x) with x. rewrite string_app_cons. by f_equal.
    + rewrite Hsplit. destruct pieces as [|p ps]; simpl.
      * exists [], (String c name). split; [done|].
        split; [simpl; by rewrite Hc, Hname|].
        simpl in *. change ("" +:+ ?x) with x in *. by f_equal.
      * exists (String c p :: ps), name. split; [done|]. split; [done|].
        simpl in *. rewrite !string_app_cons. by f_equal.
Qed.

Lemma url_name_spec url :
  has_char "/" (url_name url) = false /\
  exists prefix,
    url = prefix +:+ url_name url /\
    (prefix = "" \/ exists p, prefix = p +:+ "/").
Proof.
  destruct (split_at_pieces "/" url) as (pieces & name & Hsplit & Hname & Hs).
  unfold url_name. rewrite Hsplit, last_snoc. simpl.
  split; [done|]. exists (with_separators "/" pieces). split; [done|].
  clear. induction pieces as [|p ps IH]; [by left|]. right.
  destruct IH as [Hps|[q Hq]]; simpl.
  - rewrite Hps. by exists p.
  - rewrite Hq. exists (p +:+ String "/" q).
    by rewrite string_app_assoc, string_app_cons.
Qed.

Lemma has_char_app x (a b : string) :
  has_char x (a +:+ b) = has_char x a || has_char x b.
Proof.
  induction a as [|y a IH]; [done|].
  rewrite string_app_cons. simpl. by rewrite IH, orb_assoc.
Qed.

Lemma after_last_unique x (a a' n n' : string) :
  a +:+ String x n = a' +:+ String x n' ->
  has_char x n = false -> has_char x n' = false -> n = n'.
Proof.
  intros H Hn Hn'. revert a' H.
  assert (Hx : forall a s, has_char x (a +:+ String x s) = true).
  { intros b s. rewrite has_char_app. simpl. rewrite Ascii.eqb_refl.
    by rewrite orb_true_r. }
  induction a as [|c a IH]; intros [|c' a'] H.
  - by injection H.
  - change ("" +:+ ?s) with s in H. rewrite string_app_cons in H.
    injection H as _ H. rewrite H, Hx in Hn. done.
  - change ("" +:+ ?s) with s in H. rewrite string_app_cons in H.
    injection H as _ H. rewrite <-H, Hx in Hn'. done.
  - rewrite !string_app_cons in H. injection H as _ H. by eapply IH.
Qed.

(** X1.  The file that [download_url] writes is named by what follows
    the last slash of the url, the whole url if there is none: the name
    holds no slash, the url is the name after a prefix that is empty or
    ends with a slash, and the file lies in [dest_path] itself. *)
Theorem url_name_is_after_last_slash url :
  has_char "/" (url_name url) = false /\
  (exists prefix,
     url = prefix +:+ url_name url /\
     (prefix = "" \/ exists p, prefix = p +:+ "/")) /\
  (forall dest_path,
     url_name (download_dest url dest_path) = url_name url).
Proof.
  destruct (url_name_spec url) as [Hname Hurl].
  split; [done|]. split; [done|]. intros dest_path.
  destruct (url_name_spec (download_dest url dest_path))
    as (Hname' & prefix & Hdest & Hprefix).
  unfold download_dest in Hdest at 1.
  change ("/" +:+ url_name url) with (String "/" (url_name url)) in Hdest.
  destruct Hprefix as [->|[q ->]].
  - change ("" +:+ ?s) with s in Hdest.
    rewrite <-Hdest, has_char_app in Hname'. simpl in Hname'.
    by rewrite orb_true_r in Hname'.
  - rewrite string_app_assoc in Hdest.
    change ("/" +:+ ?s) with (String "/" s) in Hdest.
    symmetry. by eapply after_last_unique.
Qed.

Lemma match_here_last_block a b c :
  single_line a = true -> single_line b = true ->
  has_char "[" b = false -> has_char "[" c = false ->
  match_here (a +:+ String "[" (b +:+ String "]" c)) = Some a.
Proof.
  intros Ha Hb Hb' Hc. induction a as [|x a IH].
  - change (match_here (String "[" (b +:+ String "]" c)) = Some "").
    simpl. rewrite match_here_no_bracket.
    + assert (has_close (b +:+ String "]" c) = true) as ->; [|done].
      apply has_close_spec. eauto.
    + rewrite has_char_app. simpl. by rewrite Hb', Hc.
  - rewrite single_line_cons in Ha. apply andb_true_iff in Ha as [Hx Ha].
    apply negb_true_iff in Hx. rewrite string_app_cons. simpl.
    by rewrite Hx, (IH Ha).
Qed.

(** X2.  The video id of a segment id is all that comes before its last
    bracketed block: when the id is within one line and no opening bracket
    follows the one of the block [[b]], the group of the pattern is the
    part [a] before that bracket, whatever brackets [a] itself holds. *)
Theorem video_id_is_before_last_block a b c :
  single_line a = true -> single_line b = true ->
  has_char "[" b = false -> has_char "[" c = false ->
  video_id_of (a +:+ String "[" (b +:+ String "]" c)) = Ok a.
Proof.
  intros Ha Hb Hb' Hc. unfold video_id_of.
  by rewrite re_search_unfold, match_here_last_block.
Qed.

(** X3.  [re.search(...).group(1)] fails, with an [AttributeError] and
    with nothing else, exactly on the segment ids that hold no opening
    bracket followed on the same line by a closing one. *)
Theorem video_id_fails_without_block segment :
  (video_id_of segment = Raise AttributeError <->
   ~ exists a b c,
       segment = a +:+ String "[" (b +:+ String "]" c) /\
       single_line b = true) /\
  (forall e, video_id_of segment = Raise e -> e = AttributeError).
Proof.
  pose proof (re_search_spec segment) as Hspec. unfold video_id_of.
  destruct (re_search segment) as [g|]; split.
  - split; [done|]. intros Hno. destruct Hno. apply Hspec. by eexists.
  - done.
  - split; [|done]. intros _ Hex. apply Hspec in Hex. by destruct Hex.
  - by intros e [= <-].
Qed.

Lemma mapM_result_Forall2 {X Y : Type} (f : X -> result Y) xs ys :
  mapM_result f xs = Ok ys <-> Forall2 (fun x y => f x = Ok y) xs ys.
Proof.
  revert ys. induction xs as [|x xs IH]; intros ys.
  - simpl. split; [by intros [= <-]; constructor|by inversion 1].
  - rewrite mapM_result_cons. split.
    + intros H. inv_bind H. inv_bind H. injection H as <-.
      constructor; [done|]. by apply IH.
    + inversion 1 as [|? y ? ys' Hy Hys]; subst.
      apply IH in Hys. by rewrite Hy, Hys.
Qed.

Section MoreFacts.
Context `{env : Env} {np : Numpy}.

Lemma decode_cell_Ok c w :
  decode_cell c = Ok w <-> c = CBytes w /\ utf8_well_formed 0 128 191 w = true.
Proof.
  destruct c as [b| |]; simpl; unfold decode_utf8.
  - destruct (utf8_well_formed 0 128 191 b) eqn:Hb; split.
    + by intros [= <-].
    + by intros [[= <-] _].
    + done.
    + intros [[= <-] Hw]. congruence.
  - split; [done|by intros [? _]].
  - split; [done|by intros [? _]].
Qed.

Lemma decode_cells_Ok (r : row) words :
  mapM_result decode_cell r = Ok words <->
  r = CBytes <$> words /\
  Forall (fun w => utf8_well_formed 0 128 191 w = true) words.
Proof.
  rewrite mapM_result_Forall2. split.
  - induction 1 as [|c w r words Hc _ [-> IH]]; [by split|].
    apply decode_cell_Ok in Hc as [-> Hw]. split; [done|by constructor].
  - intros [-> Hall]. induction Hall as [|w words Hw _ IH]; simpl.
    + constructor.
    + constructor; [by apply decode_cell_Ok|done].
Qed.

(** X4.  The words that [load_dataset] collects are the cells of the
    first feature row of every segment of the text sequence, in the order
    of the segments; there is a result exactly when every segment has a
    first row and all cells of it are well-formed UTF-8 bytes. *)
Theorem collected_words_are_the_first_rows (text : list (string * ndarray)) ws :
  collect_words text = Ok ws <->
  exists rows : list (list string),
    Forall2 (fun (entry : string * ndarray) words =>
               (exists rest, entry.2 = (CBytes <$> words) :: rest) /\
               Forall (fun w => utf8_well_formed 0 128 191 w = true) words)
            text rows /\
    ws = concat rows.
Proof.
  unfold collect_words. split.
  - intros H. inv_bind H. injection H as <-. exists a. split; [|done].
    apply mapM_result_Forall2 in Ha.
    eapply Forall2_impl; [exact Ha|]. intros [seg feats] words Hw.
    unfold segment_words, index in Hw. simpl in *.
    destruct feats as [|r rest]; [done|]. simpl in Hw.
    apply decode_cells_Ok in Hw as [-> Hall]. split; [by exists rest|done].
  - intros (rows & Hrows & ->).
    assert (mapM_result segment_words text = Ok rows) as ->; [|done].
    apply mapM_result_Forall2. eapply Forall2_impl; [exact Hrows|].
    intros [seg feats] words [[rest Hfeats] Hall]. simpl in *. subst feats.
    unfold segment_words, index. simpl. by apply decode_cells_Ok.
Qed.

(** X5.  The vocabulary does not depend on the order in which the set
    of the collected words is listed: sorting makes every listing of the
    distinct words give the indices that [load_dataset] returns. *)
Theorem vocabulary_ignores_the_set_order (all_words l : list string) :
  NoDup l ->
  (forall w, w ∈ l <-> w ∈ all_words) ->
  word2idx_from l = word2idx_of all_words.
Proof.
  intros Hnd Hsame.
  unfold word2idx_from, word2idx_of, build_word2idx, distinct_sorted.
  assert (sorted l = sorted (elements (list_to_set all_words : gset string)))
    as ->; [|done].
  unfold sorted. apply (Sorted_unique String.le).
  - apply Sorted_merge_sort. apply _.
  - apply Sorted_merge_sort. apply _.
  - rewrite !merge_sort_Permutation.
    apply NoDup_Permutation; [done|apply NoDup_elements|].
    intros w. by rewrite Hsame, elem_of_elements, elem_of_list_to_set.
Qed.

Lemma sorted_lookup_le (ws : list string) i j wi wj :
  Sorted String.le ws -> ws !! i = Some wi -> ws !! j = Some wj ->
  (i <= j)%nat -> String.le wi wj.
Proof.
  intros Hs%Sorted_StronglySorted; [|apply _]. revert i j.
  induction Hs as [|w ws Hs IH Hall]; intros i j Hi Hj Hij; [done|].
  destruct i as [|i], j as [|j]; simpl in *; try lia.
  - injection Hi as <-. injection Hj as <-. done.
  - injection Hi as <-. rewrite List.Forall_forall in Hall. apply Hall.
    apply list_elem_of_In. by eapply list_elem_of_lookup_2.
  - eapply IH; eauto. lia.
Qed.

(** X6.  The indices follow the order of the words: of two words of the
    corpus that are not special tokens the smaller has the smaller index,
    and every special token comes after them. *)
Theorem vocabulary_follows_the_word_order (all_words : list string) w1 w2 i1 i2 :
  NoDup SPECIAL_TOKENS ->
  word2idx_of all_words !! w1 = Some i1 ->
  word2idx_of all_words !! w2 = Some i2 ->
  w1 ∉ SPECIAL_TOKENS ->
  (w2 ∉ SPECIAL_TOKENS -> ((i1 <= i2)%nat <-> String.le w1 w2)) /\
  (w2 ∈ SPECIAL_TOKENS -> (i1 < i2)%nat).
Proof.
  intros Hnd H1 H2 Hw1.
  destruct (distinct_sorted_spec all_words) as (Hnd' & Hsorted & _).
  apply word2idx_cases in H1 as [(j & Hj & _)|[_ H1]]; [| |done].
  { destruct Hw1. by eapply list_elem_of_lookup_2. }
  apply word2idx_cases in H2 as [(j & Hj & ->)|[Hw2 H2]]; [| |done].
  - split; [intros Hw2; destruct Hw2; by eapply list_elem_of_lookup_2|].
    intros _. apply lookup_lt_Some in H1. lia.
  - split; [intros _|done]. split.
    + intros Hle. by eapply sorted_lookup_le.
    + intros Hle. destruct (decide (i1 <= i2)%nat) as [|Hgt]; [done|].
      assert (String.le w2 w1) as Hge
        by (eapply sorted_lookup_le; eauto; lia).
      assert (w1 = w2) as -> by (by apply (anti_symm String.le)).
      pose proof (NoDup_lookup _ _ _ _ Hnd' H1 H2). lia.
Qed.


(** ** The loop over the segments *)

Lemma foldM_invariant {S X : Type} (P : S -> Prop)
    (step : S -> X -> result S) xs s s' :
  (forall s x s', P s -> step s x = Ok s' -> P s') ->
  P s -> foldM step s xs = Ok s' -> P s'.
Proof.
  intros Hstep. revert s. induction xs as [|x xs IH]; intros s Hs H; simpl in H.
  - by injection H as <-.
  - inv_bind H. eauto.
Qed.

Lemma make_record_video_id mods vid segment label :
  make_record mods vid segment label !! "video_id" = Some (VStr vid).
Proof.
  unfold make_record.
  rewrite lookup_insert_ne by done. rewrite lookup_insert_ne by done.
  by rewrite lookup_insert_eq.
Qed.

Lemma make_record_label mods vid segment label :
  make_record mods vid segment label !! "label" = Some (VLabel label).
Proof. unfold make_record. by rewrite lookup_insert_eq. Qed.

Lemma loop_body_Ok o d data st entry st' :
  loop_body o d data st entry = Ok st' ->
  exists oc, process_segment o d data entry = Ok oc /\
    st' = apply_outcome d st oc.
Proof. intros H. unfold loop_body in H. inv_bind H. injection H as <-. eauto. Qed.

Lemma apply_outcome_routed d st vid r :
  r !! "video_id" = Some (VStr vid) ->
  routed d st -> routed d (apply_outcome d st (Emitted vid r)).
Proof.
  intros Hr (Htr & Hdv & Hte & Hlog). unfold routed, apply_outcome.
  repeat case_decide; simpl; (split; [|split; [|split]]);
    try assumption; intros x Hx;
    apply elem_of_app in Hx as [Hx|Hx]; eauto;
    apply list_elem_of_singleton in Hx; simplify_eq; eauto 10.
Qed.

Lemma loop_routed o d data labels st st' :
  foldM (loop_body o d data) st labels = Ok st' -> routed d st -> routed d st'.
Proof.
  intros Hloop Hst.
  eapply (foldM_invariant (routed d)); [|exact Hst|exact Hloop].
  intros s entry s' Hs Hbody.
  apply loop_body_Ok in Hbody as (oc & Hoc & ->).
  destruct oc as [|vid sh|vid r]; [done| |].
  - destruct Hs as (Htr & Hdv & Hte & Hlog).
    split; [|split; [|split]]; try assumption. simpl. intros v Hx.
    apply elem_of_app in Hx as [Hx|Hx]; [eauto|].
    by apply list_elem_of_singleton in Hx.
  - apply apply_outcome_routed; [|done].
    apply process_segment_Emitted in Hoc as (? & ? & ? & _ & _ & ->).
    apply make_record_video_id.
Qed.

(** X7.  A record is put into the split whose fold holds its video id,
    the training fold first, then the validation fold, then the test fold;
    a video that is warned about as belonging to no split is in none of the
    three folds. *)
Theorem records_follow_the_standard_folds o data tr dv te lg d :
  clean_split_dataset o data = Ok (tr, dv, te, lg) ->
  select_dataset (dataset o) = Ok d ->
  (forall r, r ∈ tr ->
     exists vid, r !! "video_id" = Some (VStr vid) /\
       vid ∈ standard_train_fold d) /\
  (forall r, r ∈ dv ->
     exists vid, r !! "video_id" = Some (VStr vid) /\
       vid ∈ standard_valid_fold d /\ (vid ∉ standard_train_fold d)) /\
  (forall r, r ∈ te ->
     exists vid, r !! "video_id" = Some (VStr vid) /\
       vid ∈ standard_test_fold d /\ (vid ∉ standard_train_fold d) /\
       (vid ∉ standard_valid_fold d)) /\
  (forall vid, NoSplit vid ∈ lg ->
     (vid ∉ standard_train_fold d) /\ (vid ∉ standard_valid_fold d) /\
     (vid ∉ standard_test_fold d)).
Proof.
  intros H Hd.
  apply clean_split_dataset_Ok in H
    as (d' & labels & st & n & Hd' & _ & Hloop & _ & -> & -> & -> & ->).
  assert (d' = d) as -> by congruence.
  assert (routed d st) as (Htr & Hdv & Hte & Hlog).
  { eapply loop_routed; [exact Hloop|].
    split; [|split; [|split]]; simpl; intros ? Hx; by apply elem_of_nil in Hx. }
  split; [|split; [|split]]; try assumption. intros vid Hx.
  apply elem_of_app in Hx as [Hx|Hx]; [eauto|].
  by apply list_elem_of_singleton in Hx.
Qed.

(** X8.  Every record names the segment it was made of: its segment id
    is a key of the label sequence, its video id is the group the pattern
    finds in that key, and its label is the label of the key after
    [nan_to_num], which with [remove_neutral] is not neutral. *)
Theorem record_names_its_segment o data tr dv te lg d labels r :
  clean_split_dataset o data = Ok (tr, dv, te, lg) ->
  select_dataset (dataset o) = Ok d ->
  label_sequence d data = Ok labels ->
  r ∈ tr ++ dv ++ te ->
  exists segment label vid,
    (segment, label) ∈ labels /\
    video_id_of segment = Ok vid /\
    r !! "segment_id" = Some (VStr segment) /\
    r !! "video_id" = Some (VStr vid) /\
    r !! "label" = Some (VLabel (nan_to_num label)) /\
    (remove_neutral o = true -> is_neutral (nan_to_num label) = Ok false).
Proof.
  intros H Hd Hlabels Hr.
  destruct (split_records_emitted _ _ _ _ _ _ _ _ _ H Hd Hlabels Hr)
    as ([segment label] & vid & Hin & Hp).
  apply process_segment_Emitted in Hp as (label' & mods & mods' & Hc & _ & ->).
  apply clean_segment_Kept in Hc as (g & g' & Hvid & -> & Hneutral & _).
  exists segment, label, vid. simpl in *.
  by rewrite make_record_segment_id, make_record_video_id, make_record_label.
Qed.

Lemma apply_outcome_accounting d st oc :
  (length (records_of (apply_outcome d st oc)) +
   length (List.filter is_warning (log (apply_outcome d st oc))) +
   match oc with Skipped => 1 | _ => 0 end
   = length (records_of st) + length (List.filter is_warning (log st)) + 1)%nat.
Proof.
  unfold records_of, apply_outcome.
  destruct oc as [|vid sh|vid r]; [lia| |]; repeat case_decide; simpl;
    rewrite ?List.filter_app, ?length_app; simpl; lia.
Qed.

Lemma loop_accounting o d data labels st st' :
  foldM (loop_body o d data) st labels = Ok st' ->
  (length (records_of st') + length (List.filter is_warning (log st')) +
   length (List.filter (is_skipped o d data) labels)
   = length (records_of st) + length (List.filter is_warning (log st)) +
     length labels)%nat.
Proof.
  revert st. induction labels as [|entry labels IH]; intros st H; simpl in H.
  - injection H as <-. simpl. lia.
  - inv_bind H. apply IH in H. apply loop_body_Ok in Ha as (oc & Hoc & ->).
    pose proof (apply_outcome_accounting d st oc) as Hacc.
    simpl. unfold is_skipped at 1. rewrite Hoc.
    destruct oc; simpl; lia.
Qed.

(** X9.  No segment is lost without a trace: every key of the label
    sequence is in exactly one of the three splits, or is warned about once
    (a shape mismatch, or a video in no fold), or is skipped by the neutral
    filter. *)
Theorem every_segment_is_accounted_for o data tr dv te lg d labels :
  clean_split_dataset o data = Ok (tr, dv, te, lg) ->
  select_dataset (dataset o) = Ok d ->
  label_sequence d data = Ok labels ->
  length labels
  = (length tr + length dv + length te +
     length (List.filter is_warning lg) +
     length (List.filter (is_skipped o d data) labels))%nat.
Proof.
  intros H Hd Hlabels.
  apply clean_split_dataset_Ok in H
    as (d' & labels' & st & n & Hd' & Hlabels' & Hloop & _ & -> & -> & -> & ->).
  assert (d' = d) as -> by congruence.
  assert (labels' = labels) as -> by congruence.
  apply loop_accounting in Hloop. unfold records_of in Hloop.
  rewrite List.filter_app, !length_app in *. simpl in *. lia.
Qed.

Lemma segment_id_of_make_record mods vid segment label :
  segment_id_of (make_record mods vid segment label) = Some segment.
Proof. unfold segment_id_of. by rewrite make_record_segment_id. Qed.

Lemma omap_cons_Some {A B : Type} (f : A -> option B) x l y :
  f x = Some y -> omap f (x :: l) = y :: omap f l.
Proof. intros Hx. simpl. by rewrite Hx. Qed.

Lemma apply_outcome_appends d st oc :
  (train (apply_outcome d st oc) = train st /\
   dev (apply_outcome d st oc) = dev st /\
   test (apply_outcome d st oc) = test st) \/
  exists vid r, oc = Emitted vid r /\
    ((train (apply_outcome d st oc) = train st ++ [r] /\
      dev (apply_outcome d st oc) = dev st /\
      test (apply_outcome d st oc) = test st) \/
     (train (apply_outcome d st oc) = train st /\
      dev (apply_outcome d st oc) = dev st ++ [r] /\
      test (apply_outcome d st oc) = test st) \/
     (train (apply_outcome d st oc) = train st /\
      dev (apply_outcome d st oc) = dev st /\
      test (apply_outcome d st oc) = test st ++ [r])).
Proof.
  destruct oc as [|vid sh|vid r]; [by left|by left|].
  unfold apply_outcome. repeat case_decide; simpl; [right|right|right|by left];
    exists vid, r; split; auto 10.
Qed.

Lemma loop_order o d data labels st st' :
  foldM (loop_body o d data) st labels = Ok st' ->
  exists t1 t2 t3,
    train st' = train st ++ t1 /\ dev st' = dev st ++ t2 /\
    test st' = test st ++ t3 /\
    omap segment_id_of t1 `sublist_of` labels.*1 /\
    omap segment_id_of t2 `sublist_of` labels.*1 /\
    omap segment_id_of t3 `sublist_of` labels.*1 /\
    omap segment_id_of (t1 ++ t2 ++ t3) ⊆+ labels.*1.
Proof.
  revert st. induction labels as [|entry labels IH]; intros st H; simpl in H.
  - injection H as <-. exists [], [], []. by rewrite !app_nil_r.
  - inv_bind H. apply IH in H as (t1 & t2 & t3 & H1 & H2 & H3 & S1 & S2 & S3 & Sall).
    apply loop_body_Ok in Ha as (oc & Hoc & ->). rewrite fmap_cons.
    assert (Hskip : forall t : list record,
              omap segment_id_of t `sublist_of` labels.*1 ->
              omap segment_id_of t `sublist_of` entry.1 :: labels.*1)
      by (intros t Ht; by apply sublist_cons).
    assert (Hall : omap segment_id_of (t1 ++ t2 ++ t3)
                     ⊆+ entry.1 :: labels.*1)
      by (by apply submseteq_cons).
    destruct (apply_outcome_appends d st oc)
      as [(E1 & E2 & E3)|(vid & r & -> & Hcase)].
    { exists t1, t2, t3. rewrite H1, H2, H3, E1, E2, E3. auto 10. }
    apply process_segment_Emitted in Hoc as (? & ? & ? & _ & _ & Hr).
    assert (Hseg : segment_id_of r = Some entry.1)
      by (rewrite Hr; apply segment_id_of_make_record).
    assert (Hone : forall t : list record,
              omap segment_id_of t `sublist_of` labels.*1 ->
              omap segment_id_of (r :: t) `sublist_of` entry.1 :: labels.*1).
    { intros t Ht. rewrite (omap_cons_Some _ _ _ _ Hseg). by apply sublist_skip. }
    destruct Hcase as [(E1 & E2 & E3)|[(E1 & E2 & E3)|(E1 & E2 & E3)]];
      rewrite E1 in H1; rewrite E2 in H2; rewrite E3 in H3.
    + exists (r :: t1), t2, t3. rewrite H1, H2, H3, <-app_assoc.
      split_and!; auto.
      change ((r :: t1) ++ t2 ++ t3) with (r :: (t1 ++ t2 ++ t3)).
      rewrite (omap_cons_Some _ _ _ _ Hseg). by apply submseteq_skip.
    + exists t1, (r :: t2), t3. rewrite H1, H2, H3, <-app_assoc.
      split_and!; auto.
      rewrite !omap_app in *. change ((r :: t2)) with ([r] ++ t2).
      rewrite (omap_app _ [r] t2), (omap_cons_Some _ _ _ _ Hseg). simpl.
      rewrite <-Permutation_middle. by apply submseteq_skip.
    + exists t1, t2, (r :: t3). rewrite H1, H2, H3, <-app_assoc.
      split_and!; auto.
      rewrite !omap_app in *. rewrite (omap_cons_Some _ _ _ _ Hseg).
      rewrite app_assoc, <-Permutation_middle, <-app_assoc.
      by apply submseteq_skip.
Qed.

(** X10.  Within each split the records keep the order of the keys of the
    label sequence, and no key gives more than one record: the segment ids
    of a split are a subsequence of the keys, and those of the three
    splits together are, up to order, part of the keys. *)
Theorem splits_keep_the_order_of_the_segments o data tr dv te lg d labels :
  clean_split_dataset o data = Ok (tr, dv, te, lg) ->
  select_dataset (dataset o) = Ok d ->
  label_sequence d data = Ok labels ->
  omap segment_id_of tr `sublist_of` labels.*1 /\
  omap segment_id_of dv `sublist_of` labels.*1 /\
  omap segment_id_of te `sublist_of` labels.*1 /\
  omap segment_id_of (tr ++ dv ++ te) ⊆+ labels.*1 /\
  length (omap segment_id_of (tr ++ dv ++ te)) = length (tr ++ dv ++ te).
Proof.
  intros H Hd Hlabels.
  assert (Hlen : length (omap segment_id_of (tr ++ dv ++ te))
                 = length (tr ++ dv ++ te)).
  { assert (Hall : Forall (fun r => is_Some (segment_id_of r)) (tr ++ dv ++ te)).
    { apply Forall_forall. intros r Hr.
      destruct (record_names_its_segment _ _ _ _ _ _ _ _ _ H Hd Hlabels Hr)
        as (segment & _ & _ & _ & _ & Hseg & _).
      unfold segment_id_of. by rewrite Hseg. }
    induction Hall as [|r l [s Hs] _ IH]; [done|].
    rewrite (omap_cons_Some _ _ _ _ Hs). simpl. by f_equal. }
  apply clean_split_dataset_Ok in H
    as (d' & labels' & st & n & Hd' & Hlabels' & Hloop & _ & -> & -> & -> & ->).
  assert (d' = d) as -> by congruence.
  assert (labels' = labels) as -> by congruence.
  apply loop_order in Hloop
    as (t1 & t2 & t3 & H1 & H2 & H3 & S1 & S2 & S3 & Sall).
  simpl in H1, H2, H3. rewrite H1, H2, H3 in *. auto 10.
Qed.

Lemma process_segment_neutral o d data segment label :
  is_Some (re_search segment) -> remove_neutral o = true ->
  is_neutral (nan_to_num label) = Ok true ->
  process_segment o d data (segment, label) = Ok Skipped.
Proof.
  intros [vid Hvid] Ho Hn. unfold process_segment, clean_segment, video_id_of.
  simpl. by rewrite Hvid, Ho, Hn.
Qed.

Lemma loop_all_skipped o d data labels st :
  Forall (fun e => process_segment o d data e = Ok Skipped) labels ->
  foldM (loop_body o d data) st labels = Ok st.
Proof.
  induction 1 as [|e labels He _ IH]; [done|].
  simpl. unfold loop_body at 1. by rewrite He.
Qed.

(** X11.  When the neutral filter skips every segment, and so when the
    label sequence has no segment at all, [clean_split_dataset] does not
    return three empty splits: the count it logs after the loop was never
    bound, and reading it raises [UnboundLocalError]. *)
Theorem no_segment_past_the_filter_is_an_error o data d labels :
  select_dataset (dataset o) = Ok d ->
  label_sequence d data = Ok labels ->
  Forall (fun e : string * ndarray =>
            is_Some (re_search e.1) /\ remove_neutral o = true /\
            is_neutral (nan_to_num e.2) = Ok true) labels ->
  clean_split_dataset o data = Raise UnboundLocalError.
Proof.
  intros Hd Hlabels Hall. unfold clean_split_dataset.
  rewrite Hd. simpl. rewrite Hlabels. simpl.
  rewrite loop_all_skipped; [done|].
  eapply Forall_impl; [exact Hall|]. intros [segment label] (? & ? & ?).
  by apply process_segment_neutral.
Qed.

Lemma features_of_Raise d data segment k e :
  features_of d data segment k = Raise e -> e = KeyError.
Proof.
  unfold features_of, getitem.
  destruct (modality_map d !! k) as [store|]; simpl; [|congruence].
  destruct (data !! store) as [cs|]; simpl; [|congruence].
  induction cs as [|[k' v] cs IH]; simpl; [congruence|].
  by case_decide.
Qed.

Lemma gather_loop_Raise d data segment ms k (acc : gmap string ndarray) :
  k ∈ ms -> features_of d data segment k = Raise KeyError ->
  foldM (fun mods k =>
           let! f := features_of d data segment k in Ok (<[k := f]> mods))
        acc ms = Raise KeyError.
Proof.
  intros Hk Hraise. revert acc.
  induction ms as [|k0 ms IH]; intros acc; [by apply elem_of_nil in Hk|].
  simpl. destruct (features_of d data segment k0) as [f|e] eqn:Hf; simpl.
  - apply IH. apply elem_of_cons in Hk as [->|Hk]; [congruence|done].
  - by apply features_of_Raise in Hf as ->.
Qed.

(** X12.  A segment of the label sequence for which a requested modality
    has no features is not dropped with a warning as a shape mismatch is:
    unless the neutral filter is on, its turn raises [KeyError] and
    [clean_split_dataset] returns nothing. *)
Theorem segment_missing_from_a_modality_aborts o data d labels segment label k :
  select_dataset (dataset o) = Ok d ->
  label_sequence d data = Ok labels ->
  (segment, label) ∈ labels ->
  is_Some (re_search segment) ->
  remove_neutral o = false ->
  k ∈ modalities o ->
  features_of d data segment k = Raise KeyError ->
  (forall st, loop_body o d data st (segment, label) = Raise KeyError) /\
  (exists e, clean_split_dataset o data = Raise e) /\
  (forall pre post st,
     labels = pre ++ (segment, label) :: post ->
     foldM (loop_body o d data) initial_state pre = Ok st ->
     clean_split_dataset o data = Raise KeyError).
Proof.
  intros Hd Hlabels Hin [vid Hvid] Ho Hk Hf.
  assert (Hbody : forall st,
            loop_body o d data st (segment, label) = Raise KeyError).
  { intros st. unfold loop_body, process_segment, clean_segment, video_id_of.
    simpl. rewrite Hvid, Ho. simpl. unfold gather.
    by rewrite (gather_loop_Raise _ _ _ _ _ _ Hk Hf). }
  split; [exact Hbody|]. split.
  - destruct (foldM_Raise (loop_body o d data) labels (segment, label)
                initial_state KeyError Hin Hbody) as [e He].
    exists e. by eapply clean_split_dataset_loop_Raise.
  - intros pre post st -> Hpre.
    eapply clean_split_dataset_loop_Raise; [done|done|].
    rewrite foldM_app, Hpre. simpl. by rewrite Hbody.
Qed.

(** ** Length normalisation *)

Lemma emitted_modality o d data entry vid r vid' label mods m v :
  process_segment o d data entry = Ok (Emitted vid r) ->
  clean_segment o d data entry = Ok (Kept vid' label mods) ->
  mods !! m = Some v ->
  NoDup (modalities o) -> m ∈ modalities o -> m ∉ reserved_keys ->
  exists v1 v',
    (if 0 <? max_length o then normalize_one o m v else Ok v) = Ok v1 /\
    r !! m = Some (VSeq v') /\ items v' = items v1 /\
    (m = "text" -> v' = v1) /\ (m ≠ "text" -> asarray v1 = Ok v').
Proof.
  intros Hp Hc Hv Hnd Hm Hres.
  apply process_segment_Emitted in Hp as (label0 & mods0 & mods' & Hc' & He & ->).
  rewrite Hc in Hc'. injection Hc' as _ _ <-.
  unfold emitted_sequences in He. inv_bind He.
  destruct (normalize_lengths_lookup_any _ _ _ _ _ Hnd Ha Hm Hv)
    as (v1 & Hn & Hv1).
  pose proof (update_non_text_lookup _ _ _ _ _ _ Hnd He Hv1) as Hu.
  exists v1. rewrite make_record_modality by done. case_decide as Hcase.
  - destruct Hu as (v' & Has & Hv'). exists v'. rewrite Hv'.
    split_and!; auto.
    + by apply asarray_items.
    + intros ->. by destruct Hcase.
  - exists v1. rewrite Hu. split_and!; auto. intros Hne. by destruct Hcase.
Qed.

Lemma asarray_Arr v v' : asarray v = Ok v' -> exists a, v' = Arr a.
Proof.
  destruct v as [a|l]; simpl; intros H.
  - injection H as <-. eauto.
  - inv_bind H. injection H as <-. eauto.
Qed.

Lemma pad_item_Ok m v p :
  pad_item m v = Ok p ->
  m = "text" /\ p = Word PAD \/
  m ≠ "text" /\ exists r0,
    items v !! 0%nat = Some (Row r0) /\
    p = Row (replicate (length r0) (CNum zero)).
Proof.
  unfold pad_item, index. case_decide as Hm.
  - intros [= <-]. by left.
  - destruct (items v !! 0%nat) as [[w|r0]|] eqn:H0; simpl; try done.
    intros [= <-]. right. split; [done|]. by exists r0.
Qed.

(** X13.  A sequence longer than a positive [max_length] is cut at the
    front: the record holds its last [max_length] items, the text as a
    list and any other modality as an array. *)
Theorem long_sequence_keeps_its_last_rows
    o d data entry vid r vid' label mods m v :
  process_segment o d data entry = Ok (Emitted vid r) ->
  clean_segment o d data entry = Ok (Kept vid' label mods) ->
  mods !! m = Some v ->
  NoDup (modalities o) ->
  m ∈ modalities o -> m ∉ reserved_keys ->
  0 < max_length o ->
  max_length o < Z.of_nat (len v) ->
  exists v',
    r !! m = Some (VSeq v') /\
    items v' = drop (len v - Z.to_nat (max_length o)) (items v) /\
    len v' = Z.to_nat (max_length o) /\
    (m = "text" -> v' = Lst (items v')) /\
    (m ≠ "text" -> exists a, v' = Arr a).
Proof.
  intros Hp Hc Hv Hnd Hm Hres Hmax Hlong.
  destruct (emitted_modality _ _ _ _ _ _ _ _ _ _ _ Hp Hc Hv Hnd Hm Hres)
    as (v1 & v' & Hn & Hr & Hitems & Htext & Hother).
  rewrite (proj2 (Z.ltb_lt _ _) Hmax) in Hn.
  unfold normalize_one in Hn. rewrite (proj2 (Z.ltb_lt _ _) Hlong) in Hn.
  injection Hn as <-. simpl in Hitems.
  replace (Z.to_nat (Z.of_nat (len v) - max_length o))
    with (len v - Z.to_nat (max_length o))%nat in * by lia.
  exists v'. split; [done|]. split; [done|]. split.
  - unfold len at 1. rewrite Hitems, length_drop. unfold len in *. lia.
  - split.
    + intros Ht. rewrite (Htext Ht). simpl. done.
    + intros Hne. by eapply asarray_Arr, Hother.
Qed.

(** X14.  With [pad_back] alone, a record is made of a sequence shorter
    than a positive [max_length] only when that sequence is a list, as it
    is after the pauses were removed: the rows come first and the padding
    follows, the PAD token for the text and rows of zeros of the width of
    the first row otherwise. *)
Theorem pad_back_keeps_rows_first
    o d data entry vid r vid' label mods m v :
  process_segment o d data entry = Ok (Emitted vid r) ->
  clean_segment o d data entry = Ok (Kept vid' label mods) ->
  mods !! m = Some v ->
  NoDup (modalities o) ->
  m ∈ modalities o -> m ∉ reserved_keys ->
  0 < max_length o ->
  pad_front o = false -> pad_back o = true ->
  Z.of_nat (len v) < max_length o ->
  exists v' p,
    v = Lst (items v) /\
    r !! m = Some (VSeq v') /\
    len v' = Z.to_nat (max_length o) /\
    items v' = items v ++ replicate (Z.to_nat (max_length o) - len v) p /\
    take (len v) (items v') = items v /\
    (m = "text" /\ p = Word PAD \/
     m ≠ "text" /\ exists r0,
       items v !! 0%nat = Some (Row r0) /\
       p = Row (replicate (length r0) (CNum zero))).
Proof.
  intros Hp Hc Hv Hnd Hm Hres Hmax Hfront Hback Hshort.
  destruct (emitted_modality _ _ _ _ _ _ _ _ _ _ _ Hp Hc Hv Hnd Hm Hres)
    as (v1 & v' & Hn & Hr & Hitems & _).
  rewrite (proj2 (Z.ltb_lt _ _) Hmax) in Hn.
  destruct (normalize_one_Ok _ _ _ _ Hn)
    as [[Hlt _]|[(_ & Hf & _)|[(_ & _ & _ & l & p & -> & Hpad & ->)|[Hcase _]]]];
    [lia|congruence| |destruct Hcase as [?|(_ & _ & ?)]; [lia|congruence]].
  exists v', p. simpl in *. rewrite len_Lst in *.
  replace (Z.to_nat (max_length o - Z.of_nat (length l)))
    with (Z.to_nat (max_length o) - length l)%nat in * by lia.
  split; [done|]. split; [done|]. split.
  - unfold len. rewrite Hitems, length_app, length_replicate. lia.
  - split; [done|]. split; [by rewrite Hitems, take_app_length|].
    by apply pad_item_Ok in Hpad.
Qed.

(** X15.  Normalisation leaves a sequence as it is unless it is longer
    than [max_length] or is shorter and a pad flag is set: without a
    positive [max_length], at exactly [max_length] items, or shorter with
    both flags off, the record holds the items of the cleaned sequence. *)
Theorem sequence_within_bounds_is_kept
    o d data entry vid r vid' label mods m v :
  process_segment o d data entry = Ok (Emitted vid r) ->
  clean_segment o d data entry = Ok (Kept vid' label mods) ->
  mods !! m = Some v ->
  NoDup (modalities o) ->
  m ∈ modalities o -> m ∉ reserved_keys ->
  max_length o <= 0 \/
  Z.of_nat (len v) = max_length o \/
  Z.of_nat (len v) < max_length o /\ pad_front o = false /\ pad_back o = false ->
  exists v',
    r !! m = Some (VSeq v') /\ items v' = items v /\
    (m = "text" -> v' = v).
Proof.
  intros Hp Hc Hv Hnd Hm Hres Hcase.
  destruct (emitted_modality _ _ _ _ _ _ _ _ _ _ _ Hp Hc Hv Hnd Hm Hres)
    as (v1 & v' & Hn & Hr & Hitems & Htext & _).
  assert (v1 = v) as ->.
  { destruct (0 <? max_length o) eqn:Hmax; [|congruence].
    apply Z.ltb_lt in Hmax.
    destruct (normalize_one_Ok _ _ _ _ Hn)
      as [[? _]|[(? & ? & _)|[(? & ? & ? & _)|[_ ->]]]];
      [| | |done]; exfalso;
      destruct Hcase as [?|[?|(? & ? & ?)]]; try lia; congruence. }
  exists v'. auto.
Qed.

(** ** What a record holds *)

Lemma gather_loop_lookup d data segment ms (acc g : gmap string ndarray) :
  foldM (fun mods k =>
           let! f := features_of d data segment k in Ok (<[k := f]> mods))
        acc ms = Ok g ->
  (forall k, k ∈ ms ->
     exists a, features_of d data segment k = Ok a /\ g !! k = Some a) /\
  (forall k, k ∉ ms -> g !! k = acc !! k).
Proof.
  revert acc. induction ms as [|k0 ms IH]; intros acc H; simpl in H.
  - injection H as <-. split; [|done]. intros k Hk. by apply elem_of_nil in Hk.
  - inv_bind H. inv_bind Ha. injection Ha as <-.
    destruct (IH _ H) as [Hin Hout]. split.
    + intros k Hk. destruct (decide (k ∈ ms)) as [Hk'|Hk']; [by apply Hin|].
      apply elem_of_cons in Hk as [->|Hk]; [|done].
      exists a0. split; [done|]. by rewrite (Hout _ Hk'), lookup_insert_eq.
    + intros k Hk. apply not_elem_of_cons in Hk as [Hne Hk].
      by rewrite (Hout _ Hk), lookup_insert_ne.
Qed.

Lemma gather_lookup d data ms segment g k :
  gather d data ms segment = Ok g -> k ∈ ms ->
  exists a, features_of d data segment k = Ok a /\ g !! k = Some a.
Proof. intros H Hk. by apply (gather_loop_lookup _ _ _ _ _ _ H). Qed.

Lemma cleaned_arrays o d data segment g g' m :
  NoDup (modalities o) ->
  gather d data (modalities o) segment = Ok g ->
  update_non_text (fun a => Ok (nan_to_num a)) (modalities o) g = Ok g' ->
  m ∈ modalities o ->
  exists a, features_of d data segment m = Ok a /\
    g' !! m = Some (if decide (m = "text") then a else nan_to_num a).
Proof.
  intros Hnd Hg Hu Hm.
  destruct (gather_lookup _ _ _ _ _ _ Hg Hm) as (a & Hf & Ha).
  exists a. split; [done|].
  pose proof (update_non_text_lookup _ _ _ _ _ _ Hnd Hu Ha) as Hl.
  case_decide as Hcase; case_decide as Ht; try done.
  - by destruct Hcase as [_ ?].
  - by destruct Hl as (? & [= <-] & ?).
  - destruct Hcase. by split.
Qed.

Lemma mark_pauses_loop_length sp_idx text positions text' :
  foldM (mark_pause sp_idx) text positions = Ok text' -> length text' = length text.
Proof.
  apply (foldM_invariant (fun t => length t = length text)); [|done].
  intros t i t' Ht H. apply mark_pause_Ok in H as (_ & _ & c & _ & ->).
  by rewrite length_alter.
Qed.

Lemma len_Arr a : len (Arr a) = length a.
Proof. unfold len. simpl. by rewrite length_fmap. Qed.

(** The sequences of a cleaned segment are of one length. *)
Lemma kept_lengths o d data entry vid label mods :
  clean_segment o d data entry = Ok (Kept vid label mods) ->
  NoDup (modalities o) ->
  exists n, forall m, m ∈ modalities o ->
    exists v, mods !! m = Some v /\ len v = n.
Proof.
  intros Hc Hnd.
  apply clean_segment_Kept in Hc as (g & g' & _ & _ & _ & Hg & Hsh & Hu & Hh).
  assert (Harr : forall m, m ∈ modalities o -> exists a, g' !! m = Some a).
  { intros m Hm.
    destruct (cleaned_arrays _ _ _ _ _ _ _ Hnd Hg Hu Hm) as (a & _ & Ha). eauto. }
  assert (Hlen : forall m1 m2 a1 a2,
            g' !! m1 = Some a1 -> g' !! m2 = Some a2 -> length a1 = length a2)
    by (intros; by eapply checked_lengths_agree).
  unfold handle_pauses in Hh. case_decide as Htext.
  - destruct (Harr _ Htext) as (text & Ht).
    destruct (remove_pauses o) eqn:Hrm.
    + assert (Hh' : handle_pauses o g' = Ok mods).
      { unfold handle_pauses. by rewrite decide_True, Hrm. }
      destruct (handle_pauses_remove _ _ _ Htext Hrm Hnd Hh')
        as (text' & sp_idx & ws & Ht' & _ & Hws & _ & Hmt & Hmo).
      assert (text' = text) as -> by congruence.
      exists (length (without sp_idx 0 text)). intros m Hm.
      destruct (decide (m = "text")) as [->|Hne].
      * eexists. split; [exact Hmt|]. rewrite len_Lst, length_fmap.
        apply without_length. by apply mapM_result_length in Hws.
      * destruct (Hmo _ Hm Hne) as (a & Ha & Hma).
        eexists. split; [exact Hma|]. rewrite len_Lst, length_fmap.
        apply without_length. by eapply Hlen.
    + unfold getitem in Hh. rewrite Ht in Hh. simpl in Hh.
      inv_bind Hh. inv_bind Hh. injection Hh as <-.
      unfold mark_pauses, getitem in Ha0. rewrite Ht in Ha0. simpl in Ha0.
      inv_bind Ha0. injection Ha0 as <-.
      apply mark_pauses_loop_length in Ha1.
      exists (length text). intros m Hm.
      destruct (decide (m = "text")) as [->|Hne].
      * exists (Arr a1). rewrite lookup_fmap, lookup_insert_eq.
        split; [done|]. by rewrite len_Arr.
      * destruct (Harr _ Hm) as (a' & Ha').
        exists (Arr a'). rewrite lookup_fmap, lookup_insert_ne, Ha' by done.
        split; [done|]. rewrite len_Arr. by eapply Hlen.
  - injection Hh as <-. destruct (modalities o) as [|m0 ms] eqn:Hms.
    + exists O. intros m Hm. by apply elem_of_nil in Hm.
    + destruct (Harr m0) as (a0 & Ha0); [apply list_elem_of_here|].
      exists (length a0). intros m Hm. destruct (Harr _ Hm) as (a & Ha).
      exists (Arr a). rewrite lookup_fmap, Ha. split; [done|].
      rewrite len_Arr. by eapply Hlen.
Qed.

Lemma pad_item_Raise m v e :
  pad_item m v = Raise e -> e = AttributeError \/ e = IndexError.
Proof.
  unfold pad_item, index. case_decide; [done|].
  destruct (items v !! 0%nat) as [[w|r0]|]; simpl; intros [= <-]; auto.
Qed.

Lemma pad_back_loop_Raise_kind k m v e :
  pad_back_loop k m v = Raise e -> e = AttributeError \/ e = IndexError.
Proof.
  revert v. induction k as [|k IH]; intros v H; simpl in H; [done|].
  destruct (pad_item m v) as [p|e'] eqn:Hp; simpl in H.
  - destruct v as [a|l]; simpl in H; [injection H as <-; by left|].
    by eapply IH.
  - injection H as <-. by eapply pad_item_Raise.
Qed.

Lemma normalize_one_Raise o m v e :
  pad_front o = false ->
  normalize_one o m v = Raise e -> e = AttributeError \/ e = IndexError.
Proof.
  intros Hfront. unfold normalize_one. rewrite Hfront, andb_false_r.
  destruct (max_length o <? _); [done|].
  destruct (_ && pad_back o); [|done]. apply pad_back_loop_Raise_kind.
Qed.

Lemma normalize_loop_array_Raise o ms m a (mods : gmap string seqval) :
  m ∈ ms -> mods !! m = Some (Arr a) ->
  (forall m0, m0 ∈ ms -> is_Some (mods !! m0)) ->
  pad_front o = false -> pad_back o = true ->
  Z.of_nat (length a) < max_length o ->
  exists e,
    foldM (fun mods m =>
             let! v := getitem mods m in
             let! v' := normalize_one o m v in Ok (<[m := v']> mods))
          mods ms = Raise e /\
    (e = AttributeError \/ e = IndexError).
Proof.
  intros Hm Hv Hkeys Hfront Hback Hshort. revert mods Hv Hkeys.
  induction ms as [|m0 ms IH]; intros mods Hv Hkeys;
    [by apply elem_of_nil in Hm|].
  simpl. unfold getitem at 1.
  destruct (Hkeys m0) as [v0 Hv0]; [apply list_elem_of_here|].
  rewrite Hv0. simpl.
  destruct (normalize_one o m0 v0) as [v1|e] eqn:Hn; simpl.
  - destruct (decide (m0 = m)) as [->|Hne].
    + exfalso. rewrite Hv in Hv0. injection Hv0 as <-.
      unfold normalize_one in Hn.
      assert (Hlen : len (Arr a) = length a)
        by (unfold len; simpl; by rewrite length_fmap).
      rewrite Hlen, Hfront, Hback, andb_false_r, andb_true_r in Hn.
      rewrite (proj2 (Z.ltb_ge _ _)), (proj2 (Z.ltb_lt _ _) Hshort) in Hn by lia.
      destruct (pad_back_loop_array
                  (Z.to_nat (max_length o - Z.of_nat (length a))) m a)
        as [e He]; [lia|].
      congruence.
    + apply IH.
      * apply elem_of_cons in Hm as [->|Hm]; [done|done].
      * by rewrite lookup_insert_ne.
      * intros m1 Hm1. destruct (decide (m1 = m0)) as [->|Hne1].
        -- rewrite lookup_insert_eq. by eexists.
        -- rewrite lookup_insert_ne by done. apply Hkeys. by right.
  - exists e. split; [done|]. by eapply (normalize_one_Raise o m0 v0).
Qed.

Lemma loop_body_Raise o d data entry e :
  process_segment o d data entry = Raise e ->
  forall st, loop_body o d data st entry = Raise e.
Proof. intros H st. unfold loop_body. by rewrite H. Qed.

(** X16.  [pad_back] alone cannot pad an array: when a sequence shorter
    than a positive [max_length] is still an array, as every sequence is
    when the text is not requested, the turn of its segment raises
    [AttributeError], for the [append] an array does not have, or
    [IndexError], for the first row an empty array does not have, and
    [clean_split_dataset] returns nothing. *)
Theorem pad_back_of_an_array_raises
    o data d labels entry vid label mods m a :
  select_dataset (dataset o) = Ok d ->
  label_sequence d data = Ok labels ->
  entry ∈ labels ->
  clean_segment o d data entry = Ok (Kept vid label mods) ->
  mods !! m = Some (Arr a) ->
  NoDup (modalities o) ->
  m ∈ modalities o ->
  pad_front o = false -> pad_back o = true ->
  Z.of_nat (length a) < max_length o ->
  (exists e, process_segment o d data entry = Raise e /\
     (e = AttributeError \/ e = IndexError)) /\
  (exists e, clean_split_dataset o data = Raise e).
Proof.
  intros Hd Hlabels Hin Hc Hv Hnd Hm Hfront Hback Hshort.
  assert (Hp : exists e, process_segment o d data entry = Raise e /\
                 (e = AttributeError \/ e = IndexError)).
  { unfold process_segment. rewrite Hc. simpl.
    unfold emitted_sequences, normalize_lengths.
    assert ((0 <? max_length o) = true) as -> by (apply Z.ltb_lt; lia).
    destruct (kept_lengths _ _ _ _ _ _ _ Hc Hnd) as (n & Hn).
    destruct (normalize_loop_array_Raise o (modalities o) m a mods)
      as (e & -> & He); try done.
    - intros m0 Hm0. destruct (Hn _ Hm0) as (v0 & -> & _). by eexists.
    - by exists e. }
  split; [exact Hp|]. destruct Hp as (e & Hp & _).
  destruct (foldM_Raise (loop_body o d data) labels entry initial_state e Hin
              (loop_body_Raise _ _ _ _ _ Hp)) as [e' He'].
  exists e'. by eapply clean_split_dataset_loop_Raise.
Qed.

Lemma kept_padded_list o d data entry vid label mods m v :
  clean_segment o d data entry = Ok (Kept vid label mods) ->
  pads_lists_only o ->
  NoDup (modalities o) -> m ∈ modalities o ->
  mods !! m = Some v -> padded_at_front_is_list o v.
Proof.
  intros Hc [Hoff|[Hmax|[Htext Hrm]]] Hnd Hm Hv Hpf Hlt.
  - congruence.
  - lia.
  - by eapply kept_lists.
Qed.

(** X17.  Every record holds a sequence for every requested modality, all
    of one length, whichever of the pause branches was taken and however
    the lengths were normalised, as long as [pad_front] meets lists only;
    every sequence but the text is an array. *)
Theorem record_sequences_have_one_length o data tr dv te lg r :
  clean_split_dataset o data = Ok (tr, dv, te, lg) ->
  r ∈ tr ++ dv ++ te ->
  NoDup (modalities o) ->
  Forall (fun m => m ∉ reserved_keys) (modalities o) ->
  pads_lists_only o ->
  exists n, forall m, m ∈ modalities o ->
    exists v, r !! m = Some (VSeq v) /\ len v = n /\
      (m ≠ "text" -> exists a, v = Arr a).
Proof.
  intros H Hr Hnd Hres Hpads.
  pose proof H as H'.
  apply clean_split_dataset_Ok in H'
    as (d & labels & st & n0 & Hd & Hlabels & _).
  destruct (split_records_emitted _ _ _ _ _ _ _ _ _ H Hd Hlabels Hr)
    as (entry & vid & _ & Hp).
  pose proof Hp as Hp'.
  apply process_segment_Emitted in Hp' as (label & mods & mods' & Hc & _ & _).
  destruct (kept_lengths _ _ _ _ _ _ _ Hc Hnd) as (n & Hn).
  exists (Z.to_nat (if 0 <? max_length o
                    then normalized_length o (Z.of_nat n) else Z.of_nat n)).
  intros m Hm. destruct (Hn _ Hm) as (v & Hv & Hlen).
  assert (Hm' : m ∉ reserved_keys) by (by eapply Forall_forall in Hres).
  destruct (emitted_modality _ _ _ _ _ _ _ _ _ _ _ Hp Hc Hv Hnd Hm Hm')
    as (v1 & v' & Hnorm & Hrm & Hitems & _ & Hother).
  exists v'. split; [done|]. split.
  - apply emitted_len in Hnorm; [|by eapply kept_padded_list].
    unfold len in *. rewrite Hitems.
    rewrite <-Hlen. rewrite <-Hnorm. lia.
  - intros Hne. by eapply asarray_Arr, Hother.
Qed.

Lemma without_subseteq {X : Type} sp_idx i0 (l : list X) x :
  x ∈ without sp_idx i0 l -> x ∈ l.
Proof.
  revert i0. induction l as [|y l IH]; intros i0; simpl; [done|].
  case_decide; rewrite ?elem_of_cons; intros Hx.
  - right. by eapply IH.
  - destruct Hx as [->|Hx]; [by left|right; by eapply IH].
Qed.

(** The rows of a cleaned sequence other than the text are rows of the
    features after [nan_to_num]. *)
Lemma kept_rows o d data entry vid label mods m :
  clean_segment o d data entry = Ok (Kept vid label mods) ->
  NoDup (modalities o) -> m ∈ modalities o -> m ≠ "text" ->
  exists a v,
    features_of d data entry.1 m = Ok a /\ mods !! m = Some v /\
    forall e, e ∈ items v -> exists row, e = Row row /\ row ∈ nan_to_num a.
Proof.
  intros Hc Hnd Hm Hne.
  apply clean_segment_Kept in Hc as (g & g' & _ & _ & _ & Hg & _ & Hu & Hh).
  destruct (cleaned_arrays _ _ _ _ _ _ _ Hnd Hg Hu Hm) as (a & Hf & Ha).
  rewrite decide_False in Ha by done. exists a.
  assert (Harr : forall e, e ∈ items (Arr (nan_to_num a)) ->
            exists row, e = Row row /\ row ∈ nan_to_num a).
  { intros e He. simpl in He. apply list_elem_of_fmap in He as (row & -> & Hrow).
    eauto. }
  unfold handle_pauses in Hh. case_decide as Htext.
  - destruct (remove_pauses o) eqn:Hrm.
    + assert (Hh' : handle_pauses o g' = Ok mods).
      { unfold handle_pauses. by rewrite decide_True, Hrm. }
      destruct (handle_pauses_remove _ _ _ Htext Hrm Hnd Hh')
        as (text & sp_idx & ws & _ & _ & _ & _ & _ & Hmo).
      destruct (Hmo _ Hm Hne) as (a' & Ha' & Hma).
      assert (a' = nan_to_num a) as -> by congruence.
      eexists. split; [done|]. split; [exact Hma|].
      intros e He. simpl in He.
      apply list_elem_of_fmap in He as (row & -> & Hrow).
      exists row. split; [done|]. by eapply without_subseteq.
    + inv_bind Hh. inv_bind Hh. inv_bind Hh. injection Hh as <-.
      unfold mark_pauses in Ha2. inv_bind Ha2. inv_bind Ha2.
      injection Ha2 as <-.
      exists (Arr (nan_to_num a)). split; [done|]. split; [|done].
      by rewrite lookup_fmap, lookup_insert_ne, Ha.
  - injection Hh as <-. exists (Arr (nan_to_num a)). split; [done|].
    split; [|done]. by rewrite lookup_fmap, Ha.
Qed.

(** X18.  Nothing is made up but padding: as long as [pad_front] meets
    lists only, every row that a record holds for a modality other than
    the text is a row of the features of its segment after [nan_to_num],
    or a padding row of zeros. *)
Theorem emitted_rows_come_from_the_features o d data entry vid r m :
  process_segment o d data entry = Ok (Emitted vid r) ->
  pads_lists_only o ->
  NoDup (modalities o) ->
  m ∈ modalities o -> m ≠ "text" -> m ∉ reserved_keys ->
  exists a rows,
    features_of d data entry.1 m = Ok a /\
    r !! m = Some (VSeq (Arr rows)) /\
    forall row, row ∈ rows ->
      row ∈ nan_to_num a \/ exists n, row = replicate n (CNum zero).
Proof.
  intros Hp Hpads Hnd Hm Hne Hres. pose proof Hp as Hp'.
  apply process_segment_Emitted in Hp' as (label & mods & mods' & Hc & _ & _).
  destruct (kept_rows _ _ _ _ _ _ _ _ Hc Hnd Hm Hne) as (a & v & Hf & Hv & Hrows).
  pose proof (kept_padded_list _ _ _ _ _ _ _ _ _ Hc Hpads Hnd Hm Hv) as Hlist.
  destruct (emitted_modality _ _ _ _ _ _ _ _ _ _ _ Hp Hc Hv Hnd Hm Hres)
    as (v1 & v' & Hnorm & Hr & Hitems & _ & Hother).
  destruct (asarray_Arr _ _ (Hother Hne)) as [rows ->].
  exists a, rows. split; [done|]. split; [done|]. intros row Hrow.
  assert (He : Row row ∈ items v1).
  { rewrite <-Hitems. simpl. apply list_elem_of_fmap. eauto. }
  assert (Hpad : forall p, pad_item m v = Ok p ->
            exists n, p = Row (replicate n (CNum zero))).
  { intros p Hpi. apply pad_item_Ok in Hpi as [[? _]|(_ & r0 & _ & ->)];
      [done|eauto]. }
  assert (Hold : Row row ∈ items v -> row ∈ nan_to_num a).
  { intros Hin. apply Hrows in Hin as (row' & [= <-] & ?). done. }
  destruct (0 <? max_length o); [|injection Hnorm as <-; left; auto].
  destruct (normalize_one_Ok _ _ _ _ Hnorm)
    as [[_ ->]|[(Hlt & Hpf & p & Hp1 & Hadd)|
        [(_ & _ & _ & l & p & -> & Hp1 & ->)|[_ ->]]]];
    simpl in He.
  - left. apply Hold. by apply (subseteq_drop _ _ _ He).
  - destruct (Hlist Hpf Hlt) as [l ->]. simpl in Hadd. injection Hadd as <-.
    simpl in He.
    apply elem_of_app in He as [He|He]; [|by left; auto].
    apply elem_of_replicate_inv in He. destruct (Hpad _ Hp1) as [n Hn].
    right. exists n. congruence.
  - apply elem_of_app in He as [He|He]; [by left; auto|].
    apply elem_of_replicate_inv in He. destruct (Hpad _ Hp1) as [n Hn].
    right. exists n. congruence.
  - left. auto.
Qed.

(** X19.  When the text is not requested and nothing is to be normalised,
    a record holds for every requested modality the features of its
    segment after [nan_to_num], as an array. *)
Theorem features_pass_through_without_text o d data entry vid r m :
  process_segment o d data entry = Ok (Emitted vid r) ->
  ("text" ∉ modalities o) ->
  max_length o <= 0 ->
  NoDup (modalities o) ->
  m ∈ modalities o -> m ∉ reserved_keys ->
  exists a,
    features_of d data entry.1 m = Ok a /\
    r !! m = Some (VSeq (Arr (nan_to_num a))).
Proof.
  intros Hp Htext Hmax Hnd Hm Hres. pose proof Hp as Hp'.
  apply process_segment_Emitted in Hp' as (label & mods & mods' & Hc & _ & _).
  pose proof Hc as Hc'.
  apply clean_segment_Kept in Hc' as (g & g' & _ & _ & _ & Hg & _ & Hu & Hh).
  destruct (cleaned_arrays _ _ _ _ _ _ _ Hnd Hg Hu Hm) as (a & Hf & Ha).
  rewrite decide_False in Ha by (intros ->; done).
  unfold handle_pauses in Hh. rewrite decide_False in Hh by done.
  injection Hh as <-.
  assert (Hv : (Arr <$> g') !! m = Some (Arr (nan_to_num a)))
    by (by rewrite lookup_fmap, Ha).
  destruct (emitted_modality _ _ _ _ _ _ _ _ _ _ _ Hp Hc Hv Hnd Hm Hres)
    as (v1 & v' & Hnorm & Hrm & _ & _ & Hother).
  rewrite (proj2 (Z.ltb_ge _ _)) in Hnorm by lia. injection Hnorm as <-.
  exists a. split; [done|].
  assert (m ≠ "text") as Hne by (intros ->; done).
  apply Hother in Hne. simpl in Hne. by injection Hne as <-.
Qed.


End MoreFacts.

Section MoreCacheFacts.
Context `{env : Env} {np : Numpy} {ext : External}.

(** X21.  A dataset name other than the two supported ones is rejected
    with [ValueError] by [load_dataset] and by [clean_split_dataset], and
    so by [load_splits] unless it finds the cache file; nothing is
    written. *)
Theorem unsupported_dataset_is_rejected fs base_path o data cache :
  dataset o ≠ "mosi" -> dataset o ≠ "mosei" ->
  (forall fname, cache = Some fname -> files fs !! fname = None) ->
  load_dataset base_path (dataset o) (modalities o) = Raise ValueError /\
  clean_split_dataset o data = Raise ValueError /\
  load_splits fs base_path o cache = (Raise ValueError, fs).
Proof.
  intros H1 H2 Hmiss.
  assert (Hsel : select_dataset (dataset o) = Raise ValueError).
  { unfold select_dataset. by rewrite !decide_False. }
  assert (Hload : load_dataset base_path (dataset o) (modalities o)
                  = Raise ValueError).
  { unfold load_dataset. by rewrite Hsel. }
  split; [done|]. split; [unfold clean_split_dataset; by rewrite Hsel|].
  assert (Hcs : forall c, compute_and_store fs base_path o c
                          = (Raise ValueError, fs)).
  { intros c. unfold compute_and_store, compute_splits. by rewrite Hload. }
  destruct cache as [fname|]; simpl; [|apply Hcs].
  unfold pickle_load. by rewrite (Hmiss fname eq_refl).
Qed.

(** X23.  The cache file does not record what it was computed for: once
    [mosi] has returned with a cache path, whether it found the file or
    wrote it, [mosei] and [load_splits] with that path return the same
    splits, whatever their other arguments. *)
Theorem cache_is_shared_between_datasets
    fs fs' base_path o base_path' o' fname r :
  (forall r, pickle_loads (pickle_dumps r) = Ok r) ->
  mosi fs base_path o (Some fname) = (Ok r, fs') ->
  mosei fs' base_path' o' (Some fname) = (Ok r, fs') /\
  load_splits fs' base_path' o' (Some fname) = (Ok r, fs').
Proof.
  intros Hrt H.
  assert (Hhit : pickle_load fs' fname = Ok r).
  { unfold mosi, load_splits in H.
    destruct (pickle_load fs fname) as [r0|e] eqn:Hload.
    - by injection H as <- <-.
    - assert (Hcs : compute_and_store fs base_path (with_dataset "mosi" o)
                      (Some fname) = (Ok r, fs')) by (by destruct e).
      clear H. unfold compute_and_store in Hcs.
      destruct (compute_splits _ _) as [r1|]; [|done].
      destruct (pickle_dump fs r1 fname) as [fs1|] eqn:Hdump; [|done].
      injection Hcs as <- <-. by eapply pickle_round_trip. }
  unfold mosei, load_splits. by rewrite Hhit.
Qed.

End MoreCacheFacts.

(** * The statements on the small instance *)

Import Sample.

Lemma returned_is_ok {A : Type} (d : A) (r : result A) :
  is_ok r = true -> r = Ok (returned d r).
Proof. destruct r; [reflexivity|discriminate]. Qed.

Lemma raised_Some {A : Type} (r : result A) (e : exn) :
  raised r = Some e -> r = Raise e.
Proof. destruct r; inversion 1. reflexivity. Qed.

Lemma cleaned_by_eq o data :
  is_ok (clean_split_dataset o data) = true ->
  clean_split_dataset o data
    = Ok ((cleaned_by o data).1.1.1, (cleaned_by o data).1.1.2,
          (cleaned_by o data).1.2, (cleaned_by o data).2).
Proof.
  intros H. unfold cleaned_by.
  rewrite (returned_is_ok ([], [], [], []) _ H) at 1.
  by destruct (returned _ _) as [[[??]?]?].
Qed.

Lemma kept_of_eq (x : result cleaned) :
  is_kept x = true ->
  x = Ok (Kept (kept_of x).1.1 (kept_of x).1.2 (kept_of x).2).
Proof. destruct x as [[]|]; try discriminate. reflexivity. Qed.

Lemma emitted_of_eq (x : result outcome) :
  is_emitted x = true -> x = Ok (Emitted (emitted_of x).1 (emitted_of x).2).
Proof. destruct x as [[]|]; try discriminate. reflexivity. Qed.

Lemma default_lookup_eq {A : Type} (d : A) (x : option A) :
  (match x with Some _ => true | None => false end) = true ->
  x = Some (default d x).
Proof. destruct x; [reflexivity|discriminate]. Qed.

Lemma first_record_in (l k : list record) :
  (0 <? length l)%nat = true -> first_record l ∈ l ++ k.
Proof.
  destruct l as [|r l]; [discriminate|]. intros _. apply list_elem_of_here.
Qed.

Ltac by_evaluation := vm_compute; reflexivity.

Lemma sample_modalities_distinct : NoDup (modalities sample_options).
Proof. compute_done. Qed.

Lemma sample_cleaned_eq :
  clean_split_dataset sample_options sample_data
    = Ok (sample_cleaned.1.1.1, sample_cleaned.1.1.2, sample_cleaned.1.2,
          sample_cleaned.2).
Proof. apply cleaned_by_eq. by_evaluation. Qed.

Lemma sample_train_record_in :
  sample_train_record
    ∈ sample_cleaned.1.1.1 ++ sample_cleaned.1.1.2 ++ sample_cleaned.1.2.
Proof. apply first_record_in. by_evaluation. Qed.

(** ** Vocabulary *)

Lemma vocabulary_indices_witness :
  (forall w1 w2 i,
     sample_loaded.2 !! w1 = Some i -> sample_loaded.2 !! w2 = Some i ->
     w1 = w2) /\
  sample_loaded.2 !! "[PAD]" = Some 8%nat /\
  sample_loaded.2 !! "a" = Some 0%nat.
Proof.
  destruct (vocabulary_indices "corpus" "mosi" ["audio"; "text"]
              sample_loaded.1 sample_loaded.2)
    as (d & text & all_words & _ & _ & _ & _ & _ & _ & _ & _ & _ & Hinj & _).
  - unfold sample_loaded.
    rewrite (returned_is_ok (∅, ∅) (load_dataset _ _ _)) at 1 by by_evaluation.
    by destruct (returned _ _).
  - compute_done.
  - split; [exact Hinj|]. split; by_evaluation.
Defined.

(** The string of the PAD token is a word of the corpus at ["corpus_pad"]:
    the vocabulary has six tokens, none of them has index 0, the word
    "[PAD]" has index 2 above the word "hello", and one token has
    index 6. *)
Lemma vocabulary_not_contiguous :
  load_dataset "corpus_pad" "mosi" ["audio"; "text"] = Ok padded_loaded /\
  size padded_loaded.2 = 6%nat /\
  (forall w, padded_loaded.2 !! w ≠ Some 0%nat) /\
  padded_loaded.2 !! "[PAD]" = Some 2%nat /\
  padded_loaded.2 !! "hello" = Some 1%nat /\
  padded_loaded.2 !! "[PAUSE]" = Some 6%nat.
Proof.
  split; [apply returned_is_ok; by_evaluation|]. split; [by_evaluation|].
  split; [|repeat split; by_evaluation].
  assert (Hall : forallb (fun kv => negb (kv.2 =? 0)%nat)
                   (map_to_list padded_loaded.2) = true) by by_evaluation.
  intros w Hw. apply elem_of_map_to_list in Hw.
  rewrite forallb_forall in Hall. apply list_elem_of_In, Hall in Hw.
  discriminate.
Qed.

(** ** Lengths *)

Lemma emitted_rows_bounded_by_max_length_witness :
  exists v',
    sample_train_record !! "audio" = Some (VSeq v') /\
    Z.of_nat (len v') = 4.
Proof.
  destruct (emitted_rows_bounded_by_max_length sample_options sample_data
              sample_cleaned.1.1.1 sample_cleaned.1.1.2 sample_cleaned.1.2
              sample_cleaned.2 sample_train_record "audio")
    as (d & labels & entry & vid & label & mods & v & v' & _ & _ & _ & _ & _
        & _ & Hv' & Hlong & _ & Hfront & _ & _ & Hlist).
  - exact sample_cleaned_eq.
  - exact sample_train_record_in.
  - exact sample_modalities_distinct.
  - reflexivity.
  - compute_done.
  - compute_done.
  - exists v'. split; [exact Hv'|].
    destruct (Z_lt_le_dec (Z.of_nat (len v)) 4) as [Hlt|Hge].
    + apply Hfront; [exact Hlt|reflexivity|].
      apply Hlist; [compute_done|reflexivity].
    + apply Hlong. exact Hge.
Defined.

(** With a positive [max_length] and no pad flag, the training record of
    [sample_data] has audio and text of two rows, not of four. *)
Lemma short_sequence_stays_short :
  let c := cleaned_by ragged_options sample_data in
  let r := first_record c.1.1.1 in
  0 < max_length ragged_options /\
  "audio" ∈ modalities ragged_options /\
  "text" ∈ modalities ragged_options /\
  clean_split_dataset ragged_options sample_data
    = Ok (c.1.1.1, c.1.1.2, c.1.2, c.2) /\
  r ∈ c.1.1.1 ++ c.1.1.2 ++ c.1.2 /\
  r !! "audio"
    = Some (VSeq (Arr [[CNum (Fin 1); CNum (Fin 0)];
                       [CNum (Fin 3); CNum (Fin 0)]])) /\
  r !! "text" = Some (VSeq (Lst [Word "hello"; Word "world"])) /\
  (forall v, r !! "audio" = Some (VSeq v) ->
     Z.of_nat (len v) ≠ max_length ragged_options).
Proof.
  intros c r. split; [reflexivity|].
  split; [compute_done|]. split; [compute_done|].
  split; [apply cleaned_by_eq; by_evaluation|].
  split; [apply first_record_in; by_evaluation|].
  assert (Haudio : r !! "audio"
            = Some (VSeq (Arr [[CNum (Fin 1); CNum (Fin 0)];
                               [CNum (Fin 3); CNum (Fin 0)]])))
    by by_evaluation.
  split; [exact Haudio|]. split; [by_evaluation|].
  intros v Hv. rewrite Haudio in Hv. by inversion Hv.
Qed.

(** C6, on a failing input.  Audio alone is requested, with [max_length]
    4 and [pad_front]; the audio of the first segment has three rows, so
    that one row of zeros is made.  The row is not put in front of the
    three: [t += mods[m]] adds it to the array, and the record of the
    segment holds the three rows and nothing before them. *)
Theorem pad_front_adds_to_an_array :
  let c := cleaned_by audio_pad_front_options sample_data in
  let r := first_record c.1.1.1 in
  features_of sample_descriptor sample_data "v1[0]" "audio"
    = Ok (frames [1; 2; 3]) /\
  pad_front_loop 1 "audio" (Arr (nan_to_num (frames [1; 2; 3]))) []
    = Ok [Row [CNum (Fin 0); CNum (Fin 0)]] /\
  normalize_one audio_pad_front_options "audio"
      (Arr (nan_to_num (frames [1; 2; 3])))
    = Ok (Arr (nan_to_num (frames [1; 2; 3]))) /\
  clean_split_dataset audio_pad_front_options sample_data
    = Ok (c.1.1.1, c.1.1.2, c.1.2, c.2) /\
  r !! "segment_id" = Some (VStr "v1[0]") /\
  r !! "audio"
    = Some (VSeq (Arr [[CNum (Fin 1); CNum (Fin 0)];
                       [CNum (Fin 2); CNum (Fin 0)];
                       [CNum (Fin 3); CNum (Fin 0)]])).
Proof.
  intros c r. split; [by_evaluation|]. split; [by_evaluation|].
  split; [by_evaluation|].
  split; [apply cleaned_by_eq; by_evaluation|]. split; by_evaluation.
Qed.

(** ** Pauses *)

Lemma pauses_are_removed_in_step_witness :
  exists l, sample_train_record !! "text" = Some (VSeq (Lst l)) /\
    Word "sp" ∉ l.
Proof.
  destruct (pauses_are_removed_in_step sample_options sample_data
              sample_cleaned.1.1.1 sample_cleaned.1.1.2 sample_cleaned.1.2
              sample_cleaned.2 sample_train_record)
    as (Htext & _).
  - exact sample_cleaned_eq.
  - exact sample_train_record_in.
  - reflexivity.
  - compute_done.
  - exact sample_modalities_distinct.
  - discriminate.
  - exact Htext.
Defined.

(** C3, on a failing input.  The text of the only segment is one word
    that is not a pause, and [remove_pauses] is off.  The word is not
    replaced in place by its decoded string: the loop over the positions of
    the text calls [append] on the array and raises, and so does
    [clean_split_dataset]. *)
Theorem keep_branch_fails_on_a_word :
  features_of sample_descriptor one_word_data "v1[0]" "text"
    = Ok [[CBytes "hello"]] /\
  handle_pauses keep_options {["text" := [[CBytes "hello"]]]}
    = Raise AttributeError /\
  clean_split_dataset keep_options one_word_data = Raise AttributeError.
Proof.
  split; [by_evaluation|]. split; apply raised_Some; by_evaluation.
Qed.

(** ** Dropped segments and the counter *)

Lemma shape_mismatch_is_dropped_witness :
  loop_body neutral_options sample_descriptor mismatch_data initial_state
      ("v3[0]", sentiment 1)
    = Ok {| train := []; dev := []; test := [];
            num_drop := Some 1%nat;
            log := [ShapeMismatch "v3" (length <$> mismatch_gathered)] |} /\
  (length <$> mismatch_gathered) !! "audio" = Some 3%nat /\
  (length <$> mismatch_gathered) !! "text" = Some 2%nat.
Proof.
  destruct (shape_mismatch_is_dropped neutral_options mismatch_data
              sample_descriptor "v3[0]" (sentiment 1) "v3" mismatch_gathered
              "audio" "text" (frames [4; 5; 6]) (words ["so"; "sp"]))
    as (Hbody & _).
  - reflexivity.
  - reflexivity.
  - intros _. reflexivity.
  - apply returned_is_ok. by_evaluation.
  - by_evaluation.
  - by_evaluation.
  - simpl. lia.
  - split; [exact (Hbody initial_state)|]. split; by_evaluation.
Defined.

(** With [remove_neutral], a neutral segment with two words and three
    audio rows is filtered out before its shapes are looked at: the call
    returns one training record, of another segment, and logs the count
    only, no shape-mismatch warning. *)
Lemma neutral_mismatch_is_not_warned :
  let c := cleaned_by neutral_options neutral_mismatch_data in
  label_sequence sample_descriptor neutral_mismatch_data
    = Ok [("v1[0]", sentiment 2); ("v3[0]", sentiment 0)] /\
  features_of sample_descriptor neutral_mismatch_data "v3[0]" "audio"
    = Ok (frames [4; 5; 6]) /\
  features_of sample_descriptor neutral_mismatch_data "v3[0]" "text"
    = Ok (words ["so"; "sp"]) /\
  clean_split_dataset neutral_options neutral_mismatch_data
    = Ok (c.1.1.1, c.1.1.2, c.1.2, c.2) /\
  c.2 = [DroppedCount 0] /\
  filter (fun l => is_shape_mismatch l = true) c.2 = [] /\
  (fun r : record => r !! "segment_id") <$> (c.1.1.1 ++ c.1.1.2 ++ c.1.2)
    = [Some (VStr "v1[0]")].
Proof.
  intros c. split; [by_evaluation|]. split; [by_evaluation|].
  split; [by_evaluation|].
  split; [apply cleaned_by_eq; by_evaluation|].
  repeat split; by_evaluation.
Qed.

Lemma logged_count_is_of_last_unfiltered_turn_witness :
  let c := cleaned_by neutral_options mismatch_data in
  c.2 = [ShapeMismatch "v3" (length <$> mismatch_gathered); DroppedCount 1] /\
  exists lg0 pre e post oc,
    c.2 = lg0 ++ [DroppedCount (shape_drops oc)] /\
    [("v3[0]", sentiment 1); ("v2[0]", sentiment 0)] = pre ++ e :: post /\
    process_segment neutral_options sample_descriptor mismatch_data e = Ok oc /\
    oc ≠ Skipped.
Proof.
  intros c. split; [by_evaluation|].
  destruct (logged_count_is_of_last_unfiltered_turn neutral_options
              mismatch_data sample_descriptor
              [("v3[0]", sentiment 1); ("v2[0]", sentiment 0)]
              c.1.1.1 c.1.1.2 c.1.2 c.2)
    as (lg0 & pre & e & post & oc & Hlg & _ & Hlabels & Hp & Hoc & _).
  - apply cleaned_by_eq. by_evaluation.
  - reflexivity.
  - by_evaluation.
  - exists lg0, pre, e, post, oc. auto.
Defined.

(** With [remove_neutral], the final turn is cut short by the neutral
    filter before the counter is bound to 0.  On [mismatch_data] the
    count logged is 1, that of the turn before, although the final turn
    dropped nothing at the shape check; on [sample_data] the count logged
    is 0 although the final turn did not keep its segment. *)
Lemma logged_count_is_not_of_final_turn :
  let c1 := cleaned_by neutral_options mismatch_data in
  let c2 := cleaned_by neutral_options sample_data in
  (clean_split_dataset neutral_options mismatch_data
     = Ok (c1.1.1.1, c1.1.1.2, c1.1.2, c1.2) /\
   last c1.2 = Some (DroppedCount 1) /\
   label_sequence sample_descriptor mismatch_data
     = Ok [("v3[0]", sentiment 1); ("v2[0]", sentiment 0)] /\
   process_segment neutral_options sample_descriptor mismatch_data
     ("v2[0]", sentiment 0) = Ok Skipped /\
   shape_drops Skipped = 0%nat) /\
  (clean_split_dataset neutral_options sample_data
     = Ok (c2.1.1.1, c2.1.1.2, c2.1.2, c2.2) /\
   last c2.2 = Some (DroppedCount 0) /\
   label_sequence sample_descriptor sample_data
     = Ok [("v1[0]", sentiment 2); ("v2[0]", sentiment 0)] /\
   process_segment neutral_options sample_descriptor sample_data
     ("v2[0]", sentiment 0) = Ok Skipped /\
   (fun r : record => r !! "segment_id") <$> (c2.1.1.1 ++ c2.1.1.2 ++ c2.1.2)
     = [Some (VStr "v1[0]")]).
Proof.
  intros c1 c2. split.
  - split; [apply cleaned_by_eq; by_evaluation|]. repeat split; by_evaluation.
  - split; [apply cleaned_by_eq; by_evaluation|]. repeat split; by_evaluation.
Qed.

(** ** Segment ids *)

Lemma segment_id_without_block_aborts_witness :
  re_search "v1" = None /\
  clean_split_dataset sample_options unbracketed_data = Raise AttributeError.
Proof.
  destruct (segment_id_without_block_aborts sample_options unbracketed_data
              sample_descriptor [("v1", sentiment 2)] "v1" (sentiment 2))
    as (_ & _ & Hfirst).
  - reflexivity.
  - by_evaluation.
  - apply list_elem_of_here.
  - reflexivity.
  - split; [reflexivity|].
    apply (Hfirst [] [] initial_state); reflexivity.
Defined.

(** ** The cache *)

Lemma sample_splits_eq :
  (load_splits empty_fs "corpus" sample_options None).1 = Ok sample_splits.
Proof. apply returned_is_ok. by_evaluation. Qed.

Lemma cache_miss_recomputes_witness :
  (load_splits empty_fs "corpus" sample_options (Some "cache.p")).1
    = Ok sample_splits /\
  pickle_load
    (load_splits empty_fs "corpus" sample_options (Some "cache.p")).2 "cache.p"
    = Ok sample_splits.
Proof.
  destruct (cache_miss_recomputes empty_fs "corpus" sample_options "cache.p")
    as (_ & Hsame & _).
  - intros r. reflexivity.
  - reflexivity.
  - destruct (Hsame eq_refl) as [Heq Hstored].
    split; [rewrite Heq|apply Hstored]; exact sample_splits_eq.
Defined.

(** No file is at the cache path and the directory of the path does not
    exist: without a cache [load_splits] returns the splits, with the
    cache path it raises the error of opening the file. *)
Lemma unwritable_cache_changes_result :
  files no_directory_fs !! "cache/mosi.p" = None /\
  open_wb_error no_directory_fs "cache/mosi.p" = Some FileNotFoundError /\
  is_ok (load_splits no_directory_fs "corpus" sample_options None).1 = true /\
  (load_splits no_directory_fs "corpus" sample_options (Some "cache/mosi.p")).1
    = Raise FileNotFoundError.
Proof.
  split; [reflexivity|]. split; [reflexivity|]. split; [by_evaluation|].
  apply raised_Some. by_evaluation.
Qed.

Lemma cache_hit_returns_cached_witness :
  load_splits cached_fs "corpus" sample_options (Some "cache.p")
    = (Ok no_splits, cached_fs) /\
  load_splits cached_fs "nowhere" keep_options (Some "cache.p")
    = (Ok no_splits, cached_fs).
Proof.
  destruct (cache_hit_returns_cached cached_fs "cache.p" "corpus" sample_options
              "nowhere" keep_options) as (Hhit & _).
  apply (Hhit no_splits). reflexivity.
Defined.

(** * The further properties on the small instance *)

Lemma first_record_elem (l : list record) :
  (0 <? length l)%nat = true -> first_record l ∈ l.
Proof.
  destruct l as [|r l]; [discriminate|]. intros _. apply list_elem_of_here.
Qed.

Lemma kept_for_eq o data entry :
  is_kept (clean_segment o sample_descriptor data entry) = true ->
  clean_segment o sample_descriptor data entry
    = Ok (Kept (kept_for o data entry).1.1 (kept_for o data entry).1.2
            (kept_for o data entry).2).
Proof. apply kept_of_eq. Qed.

Lemma emitted_for_eq o data entry :
  is_emitted (process_segment o sample_descriptor data entry) = true ->
  process_segment o sample_descriptor data entry
    = Ok (Emitted (emitted_for o data entry).1 (emitted_for o data entry).2).
Proof. apply emitted_of_eq. Qed.

Lemma sequence_of_eq mods m :
  (match mods !! m with Some _ => true | None => false end) = true ->
  mods !! m = Some (sequence_of mods m).
Proof. apply default_lookup_eq. Qed.

(** ** Segment ids and the vocabulary *)

Lemma video_id_is_before_last_block_witness :
  video_id_of "03bSnISJMiM[12]" = Ok "03bSnISJMiM" /\
  video_id_of "clip[a][3]" = Ok "clip[a]".
Proof.
  split.
  - apply (video_id_is_before_last_block "03bSnISJMiM" "12" ""); reflexivity.
  - apply (video_id_is_before_last_block "clip[a]" "3" ""); reflexivity.
Defined.

Lemma vocabulary_ignores_the_set_order_witness :
  word2idx_from ["b"; "a"] = word2idx_of ["a"; "b"; "a"] /\
  word2idx_from ["a"; "b"] = word2idx_of ["a"; "b"; "a"].
Proof.
  split; apply vocabulary_ignores_the_set_order; try compute_done;
    intros w; rewrite !elem_of_cons, !elem_of_nil; tauto.
Defined.

Lemma vocabulary_follows_the_word_order_witness :
  word2idx_of ["b"; "a"] !! "a" = Some 0%nat /\
  word2idx_of ["b"; "a"] !! "b" = Some 1%nat /\
  String.le "a" "b".
Proof.
  assert (Ha : word2idx_of ["b"; "a"] !! "a" = Some 0%nat) by by_evaluation.
  assert (Hb : word2idx_of ["b"; "a"] !! "b" = Some 1%nat) by by_evaluation.
  split; [exact Ha|]. split; [exact Hb|].
  destruct (vocabulary_follows_the_word_order ["b"; "a"] "a" "b" 0 1)
    as [Hiff _].
  - compute_done.
  - exact Ha.
  - exact Hb.
  - compute_done.
  - apply Hiff; [compute_done|lia].
Defined.

(** ** The loop *)

Lemma records_follow_the_standard_folds_witness :
  exists vid,
    sample_train_record !! "video_id" = Some (VStr vid) /\
    vid ∈ standard_train_fold sample_descriptor.
Proof.
  destruct (records_follow_the_standard_folds sample_options sample_data
              sample_cleaned.1.1.1 sample_cleaned.1.1.2 sample_cleaned.1.2
              sample_cleaned.2 sample_descriptor) as (Htr & _).
  - exact sample_cleaned_eq.
  - reflexivity.
  - apply Htr. apply first_record_elem. by_evaluation.
Defined.

Lemma record_names_its_segment_witness :
  exists segment label vid,
    (segment, label) ∈ [("v1[0]", sentiment 2); ("v2[0]", sentiment 0)] /\
    video_id_of segment = Ok vid /\
    sample_train_record !! "segment_id" = Some (VStr segment) /\
    sample_train_record !! "video_id" = Some (VStr vid) /\
    sample_train_record !! "label" = Some (VLabel (nan_to_num label)).
Proof.
  destruct (record_names_its_segment sample_options sample_data
              sample_cleaned.1.1.1 sample_cleaned.1.1.2 sample_cleaned.1.2
              sample_cleaned.2 sample_descriptor
              [("v1[0]", sentiment 2); ("v2[0]", sentiment 0)]
              sample_train_record)
    as (segment & label & vid & H1 & H2 & H3 & H4 & H5 & _).
  - exact sample_cleaned_eq.
  - reflexivity.
  - by_evaluation.
  - exact sample_train_record_in.
  - exists segment, label, vid. auto.
Defined.

Lemma every_segment_is_accounted_for_witness :
  let c := cleaned_by neutral_options mismatch_data in
  let labels := [("v3[0]", sentiment 1); ("v2[0]", sentiment 0)] in
  length labels
  = (length c.1.1.1 + length c.1.1.2 + length c.1.2 +
     length (List.filter is_warning c.2) +
     length (List.filter
               (is_skipped neutral_options sample_descriptor mismatch_data)
               labels))%nat.
Proof.
  intros c labels.
  apply (every_segment_is_accounted_for neutral_options mismatch_data
           c.1.1.1 c.1.1.2 c.1.2 c.2 sample_descriptor labels).
  - apply cleaned_by_eq. by_evaluation.
  - reflexivity.
  - by_evaluation.
Defined.

Lemma splits_keep_the_order_of_the_segments_witness :
  omap segment_id_of sample_cleaned.1.1.1 `sublist_of` ["v1[0]"; "v2[0]"] /\
  omap segment_id_of sample_cleaned.1.1.2 `sublist_of` ["v1[0]"; "v2[0]"].
Proof.
  destruct (splits_keep_the_order_of_the_segments sample_options sample_data
              sample_cleaned.1.1.1 sample_cleaned.1.1.2 sample_cleaned.1.2
              sample_cleaned.2 sample_descriptor
              [("v1[0]", sentiment 2); ("v2[0]", sentiment 0)])
    as (Htr & Hdv & _).
  - exact sample_cleaned_eq.
  - reflexivity.
  - by_evaluation.
  - split; [exact Htr|exact Hdv].
Defined.

Lemma no_segment_past_the_filter_is_an_error_witness :
  clean_split_dataset neutral_options neutral_data = Raise UnboundLocalError.
Proof.
  apply (no_segment_past_the_filter_is_an_error neutral_options neutral_data
           sample_descriptor [("v2[0]", sentiment 0)]).
  - reflexivity.
  - by_evaluation.
  - constructor; [|constructor].
    split; [by exists "v2"|]. split; [reflexivity|by_evaluation].
Defined.

Lemma segment_missing_from_a_modality_aborts_witness :
  features_of sample_descriptor missing_audio_data "v1[0]" "audio"
    = Raise KeyError /\
  clean_split_dataset ragged_options missing_audio_data = Raise KeyError.
Proof.
  assert (Hf : features_of sample_descriptor missing_audio_data "v1[0]" "audio"
               = Raise KeyError) by by_evaluation.
  split; [exact Hf|].
  destruct (segment_missing_from_a_modality_aborts ragged_options
              missing_audio_data sample_descriptor [("v1[0]", sentiment 2)]
              "v1[0]" (sentiment 2) "audio")
    as (_ & _ & Hfirst).
  - reflexivity.
  - by_evaluation.
  - apply list_elem_of_here.
  - by exists "v1".
  - reflexivity.
  - compute_done.
  - exact Hf.
  - apply (Hfirst [] [] initial_state); reflexivity.
Defined.

(** ** Length normalisation *)

Lemma long_sequence_keeps_its_last_rows_witness :
  items (sequence_of (kept_for sample_options sample_data long_entry).2 "text")
    = [Word "a"; Word "b"; Word "c"; Word "d"; Word "e"] /\
  exists v',
    (emitted_for sample_options sample_data long_entry).2 !! "text"
      = Some (VSeq v') /\
    items v' = [Word "b"; Word "c"; Word "d"; Word "e"].
Proof.
  split; [by_evaluation|].
  destruct (long_sequence_keeps_its_last_rows sample_options sample_descriptor
              sample_data long_entry
              (emitted_for sample_options sample_data long_entry).1
              (emitted_for sample_options sample_data long_entry).2
              (kept_for sample_options sample_data long_entry).1.1
              (kept_for sample_options sample_data long_entry).1.2
              (kept_for sample_options sample_data long_entry).2 "text"
              (sequence_of (kept_for sample_options sample_data long_entry).2
                 "text"))
    as (v' & Hr & Hitems & _).
  - apply emitted_for_eq. by_evaluation.
  - apply kept_for_eq. by_evaluation.
  - apply sequence_of_eq. by_evaluation.
  - exact sample_modalities_distinct.
  - compute_done.
  - compute_done.
  - reflexivity.
  - by_evaluation.
  - exists v'. split; [exact Hr|]. rewrite Hitems. by_evaluation.
Defined.

Lemma pad_back_keeps_rows_first_witness :
  exists v',
    (emitted_for pad_back_options sample_data sample_entry).2 !! "audio"
      = Some (VSeq v') /\
    len v' = 4%nat /\
    take 2 (items v')
      = [Row [CNum (Fin 1); CNum (Fin 0)]; Row [CNum (Fin 3); CNum (Fin 0)]].
Proof.
  destruct (pad_back_keeps_rows_first pad_back_options sample_descriptor
              sample_data sample_entry
              (emitted_for pad_back_options sample_data sample_entry).1
              (emitted_for pad_back_options sample_data sample_entry).2
              (kept_for pad_back_options sample_data sample_entry).1.1
              (kept_for pad_back_options sample_data sample_entry).1.2
              (kept_for pad_back_options sample_data sample_entry).2 "audio"
              (sequence_of (kept_for pad_back_options sample_data sample_entry).2
                 "audio"))
    as (v' & p & _ & Hr & Hlen & _ & Htake & _).
  - apply emitted_for_eq. by_evaluation.
  - apply kept_for_eq. by_evaluation.
  - apply sequence_of_eq. by_evaluation.
  - compute_done.
  - compute_done.
  - compute_done.
  - reflexivity.
  - reflexivity.
  - reflexivity.
  - by_evaluation.
  - exists v'. split; [exact Hr|]. split; [exact Hlen|].
    assert (Hlen2 : len (sequence_of
                           (kept_for pad_back_options sample_data sample_entry).2
                           "audio") = 2%nat) by by_evaluation.
    rewrite Hlen2 in Htake. rewrite Htake. by_evaluation.
Defined.

Lemma pad_back_of_an_array_raises_witness :
  (kept_for audio_pad_back_options sample_data sample_entry).2 !! "audio"
    = Some (Arr (nan_to_num (frames [1; 2; 3]))) /\
  exists e, clean_split_dataset audio_pad_back_options sample_data = Raise e.
Proof.
  assert (Hv : (kept_for audio_pad_back_options sample_data sample_entry).2
                 !! "audio"
               = Some (Arr (nan_to_num (frames [1; 2; 3])))) by by_evaluation.
  split; [exact Hv|].
  destruct (pad_back_of_an_array_raises audio_pad_back_options sample_data
              sample_descriptor [("v1[0]", sentiment 2); ("v2[0]", sentiment 0)]
              sample_entry
              (kept_for audio_pad_back_options sample_data sample_entry).1.1
              (kept_for audio_pad_back_options sample_data sample_entry).1.2
              (kept_for audio_pad_back_options sample_data sample_entry).2
              "audio" (nan_to_num (frames [1; 2; 3])))
    as (_ & Hraise).
  - reflexivity.
  - by_evaluation.
  - apply list_elem_of_here.
  - apply kept_for_eq. by_evaluation.
  - exact Hv.
  - compute_done.
  - compute_done.
  - reflexivity.
  - reflexivity.
  - reflexivity.
  - exact Hraise.
Defined.

Lemma sequence_within_bounds_is_kept_witness :
  exists v',
    (emitted_for ragged_options sample_data sample_entry).2 !! "text"
      = Some (VSeq v') /\
    items v' = [Word "hello"; Word "world"].
Proof.
  destruct (sequence_within_bounds_is_kept ragged_options sample_descriptor
              sample_data sample_entry
              (emitted_for ragged_options sample_data sample_entry).1
              (emitted_for ragged_options sample_data sample_entry).2
              (kept_for ragged_options sample_data sample_entry).1.1
              (kept_for ragged_options sample_data sample_entry).1.2
              (kept_for ragged_options sample_data sample_entry).2 "text"
              (sequence_of (kept_for ragged_options sample_data sample_entry).2
                 "text"))
    as (v' & Hr & Hitems & _).
  - apply emitted_for_eq. by_evaluation.
  - apply kept_for_eq. by_evaluation.
  - apply sequence_of_eq. by_evaluation.
  - compute_done.
  - compute_done.
  - compute_done.
  - right. right. split; [by_evaluation|]. split; reflexivity.
  - exists v'. split; [exact Hr|]. rewrite Hitems. by_evaluation.
Defined.

(** ** What a record holds *)

Lemma record_sequences_have_one_length_witness :
  exists n, forall m, m ∈ modalities sample_options ->
    exists v, sample_train_record !! m = Some (VSeq v) /\ len v = n.
Proof.
  destruct (record_sequences_have_one_length sample_options sample_data
              sample_cleaned.1.1.1 sample_cleaned.1.1.2 sample_cleaned.1.2
              sample_cleaned.2 sample_train_record)
    as (n & Hn).
  - exact sample_cleaned_eq.
  - exact sample_train_record_in.
  - exact sample_modalities_distinct.
  - compute_done.
  - right. right. split; [compute_done|reflexivity].
  - exists n. intros m Hm. destruct (Hn m Hm) as (v & Hv & Hlen & _). eauto.
Defined.

Lemma emitted_rows_come_from_the_features_witness :
  exists a rows,
    features_of sample_descriptor sample_data "v1[0]" "audio" = Ok a /\
    sample_emitted.2 !! "audio" = Some (VSeq (Arr rows)) /\
    forall row, row ∈ rows ->
      row ∈ nan_to_num a \/ exists n, row = replicate n (CNum zero).
Proof.
  apply (emitted_rows_come_from_the_features sample_options sample_descriptor
           sample_data sample_entry sample_emitted.1 sample_emitted.2 "audio").
  - apply emitted_of_eq. by_evaluation.
  - right. right. split; [compute_done|reflexivity].
  - exact sample_modalities_distinct.
  - compute_done.
  - discriminate.
  - compute_done.
Defined.

Lemma features_pass_through_without_text_witness :
  exists a,
    features_of sample_descriptor sample_data "v1[0]" "audio" = Ok a /\
    (emitted_for audio_options sample_data sample_entry).2 !! "audio"
      = Some (VSeq (Arr (nan_to_num a))).
Proof.
  apply (features_pass_through_without_text audio_options sample_descriptor
           sample_data sample_entry
           (emitted_for audio_options sample_data sample_entry).1
           (emitted_for audio_options sample_data sample_entry).2 "audio").
  - apply emitted_for_eq. by_evaluation.
  - compute_done.
  - simpl. lia.
  - compute_done.
  - compute_done.
  - compute_done.
Defined.


(** ** Dataset names and the cache *)

Lemma unsupported_dataset_is_rejected_witness :
  load_splits empty_fs "corpus" pom_options (Some "cache.p")
    = (Raise ValueError, empty_fs).
Proof.
  destruct (unsupported_dataset_is_rejected empty_fs "corpus" pom_options
              sample_data (Some "cache.p")) as (_ & _ & H).
  - discriminate.
  - discriminate.
  - intros fname _. reflexivity.
  - exact H.
Defined.

Lemma cache_is_shared_between_datasets_witness :
  is_ok mosi_first.1 = true /\
  mosei mosi_first.2 "nowhere" keep_options (Some "cache.p")
    = (Ok (returned no_splits mosi_first.1), mosi_first.2).
Proof.
  assert (Hok : is_ok mosi_first.1 = true) by by_evaluation.
  split; [exact Hok|].
  destruct (cache_is_shared_between_datasets empty_fs mosi_first.2 "corpus"
              sample_options "nowhere" keep_options "cache.p"
              (returned no_splits mosi_first.1)) as [H _].
  - intros r. reflexivity.
  - change (mosi_first = (Ok (returned no_splits mosi_first.1), mosi_first.2)).
    rewrite <-(returned_is_ok no_splits _ Hok). by destruct mosi_first.
  - exact H.
Defined.

(** ** Padding a list at the front *)

Lemma pad_front_of_a_list_keeps_rows_last_witness :
  exists v',
    sample_emitted.2 !! "audio" = Some (VSeq v') /\
    len v' = 4%nat /\
    drop 2 (items v') = items sample_audio /\
    items sample_audio
      = [Row [CNum (Fin 1); CNum (Fin 0)]; Row [CNum (Fin 3); CNum (Fin 0)]].
Proof.
  assert (Hlen2 : length (items sample_audio) = 2%nat) by by_evaluation.
  destruct (pad_front_of_a_list_keeps_rows_last sample_options
              sample_descriptor sample_data sample_entry sample_emitted.1
              sample_emitted.2 sample_kept.1.1 sample_kept.1.2 sample_kept.2
              "audio" (items sample_audio))
    as (v' & p & Hv' & Hlen & _ & Hdrop & _).
  - apply emitted_of_eq. by_evaluation.
  - apply kept_of_eq. by_evaluation.
  - by_evaluation.
  - exact sample_modalities_distinct.
  - compute_done.
  - compute_done.
  - reflexivity.
  - reflexivity.
  - rewrite Hlen2. reflexivity.
  - exists v'. split; [exact Hv'|]. split; [exact Hlen|].
    rewrite Hlen2 in Hdrop. split; [exact Hdrop|by_evaluation].
Defined.
